(** * The Prague / L4S congestion controller of quic-go, embedded in Rocq

    The development follows [internal/congestion/prague_sender.go]: the
    sender is a record of its fields, every method is a function from
    sender to sender, [int64] arithmetic wraps around, and [float64]
    arithmetic is IEEE 754 binary64 as specified by [SpecFloat] (the
    executable specification that Rocq's primitive floats are checked
    against), with round-to-nearest-even and unfused multiply/add, as the
    Go compiler emits on amd64. *)

From Stdlib Require Import ZArith Bool List Lia Ascii.
From Stdlib Require Import Floats.SpecFloat.
Import ListNotations.
Open Scope Z_scope.

(** ** Machine integers *)

Module Int64.

Definition min_int : Z := - 2 ^ 63.
Definition max_int : Z := 2 ^ 63 - 1.

(** Two's-complement wrap-around of a mathematical integer to [int64]. *)
Definition wrap (z : Z) : Z := (z + 2 ^ 63) mod 2 ^ 64 - 2 ^ 63.

Definition in_range (z : Z) : bool := (min_int <=? z) && (z <=? max_int).

Definition add (a b : Z) : Z := wrap (a + b).
Definition mul (a b : Z) : Z := wrap (a * b).
(** Go's [/] on integers truncates toward zero. *)
Definition div (a b : Z) : Z := wrap (Z.quot a b).

End Int64.

(** ** IEEE 754 binary64 *)

Module F64.

Definition prec : Z := 53.
Definition emax : Z := 1024.

Definition float64 : Type := spec_float.

Definition add : float64 -> float64 -> float64 := SFadd prec emax.
Definition sub : float64 -> float64 -> float64 := SFsub prec emax.
Definition mul : float64 -> float64 -> float64 := SFmul prec emax.
Definition div : float64 -> float64 -> float64 := SFdiv prec emax.

(** [x < y], [x <= y], [x == y] of Go; all false on NaN. *)
Definition ltb : float64 -> float64 -> bool := SFltb.
Definition leb : float64 -> float64 -> bool := SFleb.
Definition eqb : float64 -> float64 -> bool := SFeqb.

(** Go's conversion [float64(n)] of an [int64]: the nearest binary64. *)
Definition of_int (z : Z) : float64 := binary_normalize prec emax z 0 false.

(** The integer part of a finite float, toward zero. *)
Definition trunc (x : float64) : option Z :=
  match x with
  | S754_zero _ => Some 0
  | S754_finite s m e => Some (cond_Zopp s (Z.shiftl (Zpos m) e))
  | S754_infinity _ | S754_nan => None
  end.

(** What amd64's CVTTSD2SQ stores when the value does not fit. *)
Definition int64_indefinite : Z := Int64.min_int.

(** Go's conversion [int64(x)] of a [float64]: truncation toward zero.
    The language leaves the result open when the value does not fit; the
    model returns the "integer indefinite" value of amd64. *)
Definition to_int (x : float64) : Z :=
  match trunc x with
  | Some z => if Int64.in_range z then z else int64_indefinite
  | None => int64_indefinite
  end.

Definition zero : float64 := S754_zero false.
Definition one : float64 := Eval vm_compute in of_int 1.
Definition two : float64 := Eval vm_compute in of_int 2.
Definition half : float64 := Eval vm_compute in div (of_int 1) (of_int 2).

Definition is_nan (x : float64) : bool :=
  match x with S754_nan => true | _ => false end.

Definition signbit (x : float64) : bool :=
  match x with
  | S754_zero s | S754_infinity s | S754_finite s _ _ => s
  | S754_nan => false
  end.

(** [math.Max] of Go's standard library, special cases included. *)
Definition max (x y : float64) : float64 :=
  match x, y with
  | S754_infinity false, _ | _, S754_infinity false => S754_infinity false
  | S754_nan, _ | _, S754_nan => S754_nan
  | S754_zero sx, S754_zero _ => if sx then y else x
  | _, _ => if ltb y x then x else y
  end.

End F64.

Abbreviation float64 := F64.float64.

(** ** Scaled values and rounding outcomes of binary64 floats *)

Definition emin : Z := -1074.

(** The outcome of rounding, up to the bits that decide the direction. *)
Inductive rounded (sx : bool) (bound : Z) : spec_float -> Prop :=
| rounded_zero : rounded sx bound (S754_zero sx)
| rounded_inf : rounded sx bound (S754_infinity sx)
| rounded_finite m e :
    Zpos (digits2_pos m) + e <= bound ->
    rounded sx bound (S754_finite sx m e).

Definition is_inf (x : spec_float) : bool :=
  match x with S754_infinity _ => true | _ => false end.

Definition sval (x : spec_float) : Z :=
  match x with
  | S754_finite s m e => cond_Zopp s (Zpos m * 2 ^ (e - emin))
  | _ => 0
  end.

Definition finite_ok (x : spec_float) : Prop :=
  match x with
  | S754_zero _ => True
  | S754_finite _ _ _ => valid_binary F64.prec F64.emax x = true
  | _ => False
  end.

Definition lmag (x : spec_float) : Z := Zdigits2 (Z.abs (sval x)).

Definition small_float (z : Z) : spec_float :=
  match z with
  | Z0 => S754_zero false
  | Zpos p => S754_finite false (Z.to_pos (z * 2 ^ (F64.prec - Zdigits2 z))) (Zdigits2 z - F64.prec)
  | Zneg p => S754_finite true (Z.to_pos (- z * 2 ^ (F64.prec - Zdigits2 z))) (Zdigits2 z - F64.prec)
  end.

(** [r] is a finite float whose sign follows [sgn] and whose scaled value
    has at most [bound] binary digits. *)
Definition approx_mag (sgn bound : Z) (r : spec_float) : Prop :=
  finite_ok r /\
  (0 <= sgn -> 0 <= sval r) /\
  (sgn <= 0 -> sval r <= 0) /\
  lmag r <= bound.

Definition approx (s : Z) (r : spec_float) : Prop :=
  approx_mag s (Zdigits2 (Z.abs s) + 1) r.

Definition magnitude_fits (s : Z) : Prop :=
  Zdigits2 (Z.abs s) <= F64.emax - emin - 1.

Definition is_zero (x : spec_float) : bool :=
  match x with S754_zero _ => true | _ => false end.

Definition SC : Z := 2 ^ (- emin).

(** A lower bound on the binary magnitude of a float. *)
Definition mag_at_least (n : Z) (x : spec_float) : Prop :=
  match x with
  | S754_finite _ m e => n <= Zpos (digits2_pos m) + e
  | S754_infinity _ => True
  | _ => False
  end.

(** ** Constants *)

(** [pragueAlphaGain = 1.0 / 16.0], an exact constant. *)
Definition pragueAlphaGain : float64 :=
  Eval vm_compute in F64.div (F64.of_int 1) (F64.of_int 16).
Definition pragueMinCwnd : Z := 2.
Definition pragueInitialCwnd : Z := 32.
(** [25 * time.Millisecond], in nanoseconds. *)
Definition pragueVirtualRTTMin : Z := 25 * 1000000.
(** [pragueBeta = 0.5]. *)
Definition pragueBeta : float64 := F64.half.

(** ** The sender *)

(** The fields of [pragueSender] that the congestion-control methods read
    and write.  [rttStats], [connStats], [clock] and [pacer] are handles to
    collaborators; none of the methods below assigns them. *)
Record pragueSender : Type := mkPragueSender {
  alpha : float64;
  alphaGain : float64;
  congestionWindow : Z;
  slowStartThreshold : Z;
  cwndCarry : float64;
  virtualRTTMin : Z;
  largestSentPacketNumber : Z;
  largestAckedPacketNumber : Z;
  largestSentAtLastCutback : Z;
  ecnMarkedBytes : Z;
  totalAckedBytes : Z;
  l4sEnabled : bool;
  inSlowStart : bool;
  inRecovery : bool;
  lastCutbackExitedSlowstart : bool;
  maxDatagramSize : Z;
  initialCongestionWindow : Z;
  initialMaxCongestionWindow : Z
}.

Definition set_alpha (p : pragueSender) (v : float64) : pragueSender :=
  mkPragueSender v (alphaGain p) (congestionWindow p) (slowStartThreshold p)
    (cwndCarry p) (virtualRTTMin p) (largestSentPacketNumber p)
    (largestAckedPacketNumber p) (largestSentAtLastCutback p)
    (ecnMarkedBytes p) (totalAckedBytes p) (l4sEnabled p) (inSlowStart p)
    (inRecovery p) (lastCutbackExitedSlowstart p) (maxDatagramSize p)
    (initialCongestionWindow p) (initialMaxCongestionWindow p).

Definition set_congestionWindow (p : pragueSender) (v : Z) : pragueSender :=
  mkPragueSender (alpha p) (alphaGain p) v (slowStartThreshold p)
    (cwndCarry p) (virtualRTTMin p) (largestSentPacketNumber p)
    (largestAckedPacketNumber p) (largestSentAtLastCutback p)
    (ecnMarkedBytes p) (totalAckedBytes p) (l4sEnabled p) (inSlowStart p)
    (inRecovery p) (lastCutbackExitedSlowstart p) (maxDatagramSize p)
    (initialCongestionWindow p) (initialMaxCongestionWindow p).

Definition set_slowStartThreshold (p : pragueSender) (v : Z) : pragueSender :=
  mkPragueSender (alpha p) (alphaGain p) (congestionWindow p) v
    (cwndCarry p) (virtualRTTMin p) (largestSentPacketNumber p)
    (largestAckedPacketNumber p) (largestSentAtLastCutback p)
    (ecnMarkedBytes p) (totalAckedBytes p) (l4sEnabled p) (inSlowStart p)
    (inRecovery p) (lastCutbackExitedSlowstart p) (maxDatagramSize p)
    (initialCongestionWindow p) (initialMaxCongestionWindow p).

Definition set_cwndCarry (p : pragueSender) (v : float64) : pragueSender :=
  mkPragueSender (alpha p) (alphaGain p) (congestionWindow p)
    (slowStartThreshold p) v (virtualRTTMin p) (largestSentPacketNumber p)
    (largestAckedPacketNumber p) (largestSentAtLastCutback p)
    (ecnMarkedBytes p) (totalAckedBytes p) (l4sEnabled p) (inSlowStart p)
    (inRecovery p) (lastCutbackExitedSlowstart p) (maxDatagramSize p)
    (initialCongestionWindow p) (initialMaxCongestionWindow p).

Definition set_largestSentPacketNumber (p : pragueSender) (v : Z) : pragueSender :=
  mkPragueSender (alpha p) (alphaGain p) (congestionWindow p)
    (slowStartThreshold p) (cwndCarry p) (virtualRTTMin p) v
    (largestAckedPacketNumber p) (largestSentAtLastCutback p)
    (ecnMarkedBytes p) (totalAckedBytes p) (l4sEnabled p) (inSlowStart p)
    (inRecovery p) (lastCutbackExitedSlowstart p) (maxDatagramSize p)
    (initialCongestionWindow p) (initialMaxCongestionWindow p).

Definition set_largestAckedPacketNumber (p : pragueSender) (v : Z) : pragueSender :=
  mkPragueSender (alpha p) (alphaGain p) (congestionWindow p)
    (slowStartThreshold p) (cwndCarry p) (virtualRTTMin p)
    (largestSentPacketNumber p) v (largestSentAtLastCutback p)
    (ecnMarkedBytes p) (totalAckedBytes p) (l4sEnabled p) (inSlowStart p)
    (inRecovery p) (lastCutbackExitedSlowstart p) (maxDatagramSize p)
    (initialCongestionWindow p) (initialMaxCongestionWindow p).

Definition set_largestSentAtLastCutback (p : pragueSender) (v : Z) : pragueSender :=
  mkPragueSender (alpha p) (alphaGain p) (congestionWindow p)
    (slowStartThreshold p) (cwndCarry p) (virtualRTTMin p)
    (largestSentPacketNumber p) (largestAckedPacketNumber p) v
    (ecnMarkedBytes p) (totalAckedBytes p) (l4sEnabled p) (inSlowStart p)
    (inRecovery p) (lastCutbackExitedSlowstart p) (maxDatagramSize p)
    (initialCongestionWindow p) (initialMaxCongestionWindow p).

Definition set_ecnMarkedBytes (p : pragueSender) (v : Z) : pragueSender :=
  mkPragueSender (alpha p) (alphaGain p) (congestionWindow p)
    (slowStartThreshold p) (cwndCarry p) (virtualRTTMin p)
    (largestSentPacketNumber p) (largestAckedPacketNumber p)
    (largestSentAtLastCutback p) v (totalAckedBytes p) (l4sEnabled p)
    (inSlowStart p) (inRecovery p) (lastCutbackExitedSlowstart p)
    (maxDatagramSize p) (initialCongestionWindow p)
    (initialMaxCongestionWindow p).

Definition set_totalAckedBytes (p : pragueSender) (v : Z) : pragueSender :=
  mkPragueSender (alpha p) (alphaGain p) (congestionWindow p)
    (slowStartThreshold p) (cwndCarry p) (virtualRTTMin p)
    (largestSentPacketNumber p) (largestAckedPacketNumber p)
    (largestSentAtLastCutback p) (ecnMarkedBytes p) v (l4sEnabled p)
    (inSlowStart p) (inRecovery p) (lastCutbackExitedSlowstart p)
    (maxDatagramSize p) (initialCongestionWindow p)
    (initialMaxCongestionWindow p).

Definition set_inSlowStart (p : pragueSender) (v : bool) : pragueSender :=
  mkPragueSender (alpha p) (alphaGain p) (congestionWindow p)
    (slowStartThreshold p) (cwndCarry p) (virtualRTTMin p)
    (largestSentPacketNumber p) (largestAckedPacketNumber p)
    (largestSentAtLastCutback p) (ecnMarkedBytes p) (totalAckedBytes p)
    (l4sEnabled p) v (inRecovery p) (lastCutbackExitedSlowstart p)
    (maxDatagramSize p) (initialCongestionWindow p)
    (initialMaxCongestionWindow p).

Definition set_inRecovery (p : pragueSender) (v : bool) : pragueSender :=
  mkPragueSender (alpha p) (alphaGain p) (congestionWindow p)
    (slowStartThreshold p) (cwndCarry p) (virtualRTTMin p)
    (largestSentPacketNumber p) (largestAckedPacketNumber p)
    (largestSentAtLastCutback p) (ecnMarkedBytes p) (totalAckedBytes p)
    (l4sEnabled p) (inSlowStart p) v (lastCutbackExitedSlowstart p)
    (maxDatagramSize p) (initialCongestionWindow p)
    (initialMaxCongestionWindow p).

Definition set_lastCutbackExitedSlowstart (p : pragueSender) (v : bool) : pragueSender :=
  mkPragueSender (alpha p) (alphaGain p) (congestionWindow p)
    (slowStartThreshold p) (cwndCarry p) (virtualRTTMin p)
    (largestSentPacketNumber p) (largestAckedPacketNumber p)
    (largestSentAtLastCutback p) (ecnMarkedBytes p) (totalAckedBytes p)
    (l4sEnabled p) (inSlowStart p) (inRecovery p) v
    (maxDatagramSize p) (initialCongestionWindow p)
    (initialMaxCongestionWindow p).

Definition set_maxDatagramSize (p : pragueSender) (v : Z) : pragueSender :=
  mkPragueSender (alpha p) (alphaGain p) (congestionWindow p)
    (slowStartThreshold p) (cwndCarry p) (virtualRTTMin p)
    (largestSentPacketNumber p) (largestAckedPacketNumber p)
    (largestSentAtLastCutback p) (ecnMarkedBytes p) (totalAckedBytes p)
    (l4sEnabled p) (inSlowStart p) (inRecovery p)
    (lastCutbackExitedSlowstart p) v (initialCongestionWindow p)
    (initialMaxCongestionWindow p).

(** Constants of quic-go's [protocol] package that the sender refers to.
    The package is outside the files at hand, so the sender is
    parameterised by them; [quicgo_protocol] below gives upstream's values. *)
Record protocolConstants : Type := {
  MaxByteCount : Z;
  DefaultInitialMaxStreamData : Z;
  InvalidPacketNumber : Z
}.

Definition quicgo_protocol : protocolConstants :=
  {| MaxByteCount := 2 ^ 62 - 1;
     DefaultInitialMaxStreamData := 2 ^ 10 * 512;
     InvalidPacketNumber := -1 |}.

(** [newPragueSender]; fields the literal leaves out take Go's zero value. *)
Definition newPragueSender (K : protocolConstants)
    (initialMaxDatagramSize : Z) (l4s : bool) : pragueSender :=
  let icw := Int64.mul pragueInitialCwnd initialMaxDatagramSize in
  {| alpha := F64.zero;
     alphaGain := pragueAlphaGain;
     congestionWindow := icw;
     slowStartThreshold := MaxByteCount K;
     cwndCarry := F64.zero;
     virtualRTTMin := pragueVirtualRTTMin;
     largestSentPacketNumber := 0;
     largestAckedPacketNumber := 0;
     largestSentAtLastCutback := 0;
     ecnMarkedBytes := 0;
     totalAckedBytes := 0;
     l4sEnabled := l4s;
     inSlowStart := true;
     inRecovery := false;
     lastCutbackExitedSlowstart := false;
     maxDatagramSize := initialMaxDatagramSize;
     initialCongestionWindow := icw;
     initialMaxCongestionWindow := DefaultInitialMaxStreamData K |}.

Definition minCongestionWindow (p : pragueSender) : Z :=
  Int64.mul pragueMinCwnd (maxDatagramSize p).

(** [OnPacketSent]: the pacer bookkeeping is outside the record. *)
Definition OnPacketSent (p : pragueSender)
    (sentTime bytesInFlight packetNumber bytes : Z)
    (isRetransmittable : bool) : pragueSender :=
  if negb isRetransmittable then p
  else if largestSentPacketNumber p <? packetNumber
       then set_largestSentPacketNumber p packetNumber
       else p.

Definition CanSend (p : pragueSender) (bytesInFlight : Z) : bool :=
  bytesInFlight <? congestionWindow p.

Definition MaybeExitSlowStart (p : pragueSender) : pragueSender :=
  if inSlowStart p
     && (F64.ltb F64.zero (alpha p)
         || (slowStartThreshold p <=? congestionWindow p))
  then set_inSlowStart p false
  else p.

Definition pragueAdditiveIncrease (p : pragueSender) (ackedBytes : Z)
    : pragueSender :=
  if initialMaxCongestionWindow p <=? congestionWindow p then p
  else
    let unmarkedBytes :=
      if l4sEnabled p && F64.ltb F64.zero (alpha p)
      then F64.to_int (F64.mul (F64.of_int ackedBytes)
                               (F64.sub F64.one (alpha p)))
      else ackedBytes in
    let increase :=
      F64.div (F64.mul (F64.of_int (maxDatagramSize p))
                       (F64.of_int unmarkedBytes))
              (F64.of_int (congestionWindow p)) in
    set_congestionWindow p
      (Int64.add (congestionWindow p) (F64.to_int increase)).

Definition OnPacketAcked (p : pragueSender)
    (number ackedBytes priorInFlight eventTime : Z) : pragueSender :=
  let p := if largestAckedPacketNumber p <? number
           then set_largestAckedPacketNumber p number else p in
  let p := set_totalAckedBytes p (Int64.add (totalAckedBytes p) ackedBytes) in
  if inRecovery p && (number <=? largestSentAtLastCutback p) then p
  else if inSlowStart p
  then MaybeExitSlowStart
         (set_congestionWindow p (Int64.add (congestionWindow p) ackedBytes))
  else pragueAdditiveIncrease p ackedBytes.

Definition OnCongestionEvent (p : pragueSender)
    (number lostBytes priorInFlight : Z) : pragueSender :=
  if number <=? largestSentAtLastCutback p then p
  else
    let p := set_lastCutbackExitedSlowstart p (inSlowStart p) in
    let p := set_inSlowStart p false in
    let p := set_inRecovery p true in
    let p := set_largestSentAtLastCutback p (largestSentPacketNumber p) in
    let p := set_slowStartThreshold p
               (F64.to_int (F64.mul (F64.of_int (congestionWindow p))
                                    pragueBeta)) in
    set_congestionWindow p
      (F64.to_int (F64.max (F64.of_int (minCongestionWindow p))
                           (F64.of_int (slowStartThreshold p)))).

Definition OnRetransmissionTimeout (K : protocolConstants)
    (p : pragueSender) (packetsRetransmitted : bool) : pragueSender :=
  let p := set_largestSentAtLastCutback p (InvalidPacketNumber K) in
  let p := set_inSlowStart p false in
  let p := set_slowStartThreshold p (Int64.div (congestionWindow p) 2) in
  set_congestionWindow p (minCongestionWindow p).

(** [SetMaxDatagramSize] panics on a decrease: [None]. *)
Definition SetMaxDatagramSize (p : pragueSender) (size : Z)
    : option pragueSender :=
  if size <? maxDatagramSize p then None
  else
    let cwndIsMinCwnd := congestionWindow p =? minCongestionWindow p in
    let p := set_maxDatagramSize p size in
    Some (if cwndIsMinCwnd
          then set_congestionWindow p (minCongestionWindow p)
          else p).

Definition InSlowStart (p : pragueSender) : bool := inSlowStart p.
Definition InRecovery (p : pragueSender) : bool := inRecovery p.
Definition GetCongestionWindow (p : pragueSender) : Z := congestionWindow p.

Definition updateAlpha (p : pragueSender) : pragueSender :=
  if totalAckedBytes p =? 0 then p
  else
    let markingFraction :=
      F64.div (F64.of_int (ecnMarkedBytes p)) (F64.of_int (totalAckedBytes p)) in
    let p :=
      if F64.eqb (alpha p) F64.zero && F64.ltb F64.zero markingFraction
      then set_alpha p F64.one
      else set_alpha p
             (F64.add (F64.mul (F64.sub F64.one (alphaGain p)) (alpha p))
                      (F64.mul (alphaGain p) markingFraction)) in
    let p := if F64.ltb (alpha p) F64.zero then set_alpha p F64.zero else p in
    if F64.ltb F64.one (alpha p) then set_alpha p F64.one else p.

Definition applyECNCongestionResponse (p : pragueSender) : pragueSender :=
  if F64.leb (alpha p) F64.zero then p
  else
    let reductionFactor := F64.sub F64.one (F64.div (alpha p) F64.two) in
    let newCwnd := F64.mul (F64.of_int (congestionWindow p)) reductionFactor in
    let p := set_cwndCarry p
               (F64.add (cwndCarry p)
                        (F64.sub (F64.of_int (congestionWindow p)) newCwnd)) in
    let '(newCwnd, p) :=
      if F64.leb F64.one (cwndCarry p)
      then
        let cwndReduction := F64.to_int (cwndCarry p) in
        (F64.sub newCwnd (F64.of_int cwndReduction),
         set_cwndCarry p (F64.sub (cwndCarry p) (F64.of_int cwndReduction)))
      else (newCwnd, p) in
    let p := set_congestionWindow p
               (F64.to_int (F64.max newCwnd
                                    (F64.of_int (minCongestionWindow p)))) in
    if inSlowStart p then set_inSlowStart p false else p.

Definition OnECNFeedback (p : pragueSender) (ecnBytes : Z) : pragueSender :=
  if negb (l4sEnabled p) then p
  else
    let p := set_ecnMarkedBytes p (Int64.add (ecnMarkedBytes p) ecnBytes) in
    if 0 <? totalAckedBytes p
    then
      let p := updateAlpha p in
      let p := applyECNCongestionResponse p in
      let p := set_ecnMarkedBytes p 0 in
      set_totalAckedBytes p 0
    else p.

(** ** Sequences of calls *)

Inductive call : Type :=
| CallPacketSent (sentTime bytesInFlight packetNumber bytes : Z)
                 (isRetransmittable : bool)
| CallMaybeExitSlowStart
| CallPacketAcked (number ackedBytes priorInFlight eventTime : Z)
| CallCongestionEvent (number lostBytes priorInFlight : Z)
| CallRetransmissionTimeout (packetsRetransmitted : bool)
| CallSetMaxDatagramSize (size : Z)
| CallECNFeedback (ecnBytes : Z).

Definition step (K : protocolConstants) (p : pragueSender) (c : call)
    : option pragueSender :=
  match c with
  | CallPacketSent t f n b r => Some (OnPacketSent p t f n b r)
  | CallMaybeExitSlowStart => Some (MaybeExitSlowStart p)
  | CallPacketAcked n a f t => Some (OnPacketAcked p n a f t)
  | CallCongestionEvent n l f => Some (OnCongestionEvent p n l f)
  | CallRetransmissionTimeout r => Some (OnRetransmissionTimeout K p r)
  | CallSetMaxDatagramSize s => SetMaxDatagramSize p s
  | CallECNFeedback e => Some (OnECNFeedback p e)
  end.

(** Runs the calls in order; [None] as soon as one panics. *)
Fixpoint run (K : protocolConstants) (p : pragueSender) (cs : list call)
    : option pragueSender :=
  match cs with
  | [] => Some p
  | c :: cs' =>
      match step K p c with
      | Some p' => run K p' cs'
      | None => None
      end
  end.

(** ** Configuration and the ECN codepoint of outgoing packets *)

Module protocol.

(** The algorithms the configuration example enumerates as "all available". *)
Inductive CongestionControlAlgorithm : Type :=
| CongestionControlRFC9002
| CongestionControlPrague.

Definition is_prague (a : CongestionControlAlgorithm) : bool :=
  match a with CongestionControlPrague => true | _ => false end.

(** The ECN codepoints of the IP header. *)
Inductive ECN : Type := ECNNon | ECT0 | ECT1 | ECNCE.

End protocol.

Module quic.

(** The fields of [quic.Config] that the configuration example touches;
    durations in nanoseconds. *)
Record Config : Type := {
  EnableL4S : bool;
  CongestionControlAlgorithm : protocol.CongestionControlAlgorithm;
  MaxIdleTimeout : Z;
  HandshakeIdleTimeout : Z
}.

(** Go's zero value [&quic.Config{}]; [algZero] is the zero value of the
    algorithm enumeration. *)
Definition zeroConfig (algZero : protocol.CongestionControlAlgorithm) : Config :=
  {| EnableL4S := false;
     CongestionControlAlgorithm := algZero;
     MaxIdleTimeout := 0;
     HandshakeIdleTimeout := 0 |}.

End quic.

(** The one error [validateConfigExample] builds. *)
Inductive configError : Type := ErrL4SRequiresPrague.

(** [validateConfigExample]; a [nil] configuration is [None], a [nil]
    error is [None]. *)
Definition validateConfigExample (config : option quic.Config)
    : option configError :=
  match config with
  | None => None
  | Some c =>
      if quic.EnableL4S c
         && negb (protocol.is_prague (quic.CongestionControlAlgorithm c))
      then Some ErrL4SRequiresPrague
      else None
  end.

Definition second : Z := 1000000000.

(** [populateConfigExample]. *)
Definition populateConfigExample
    (algZero : protocol.CongestionControlAlgorithm)
    (config : option quic.Config) : quic.Config :=
  let config := match config with
                | Some c => c
                | None => quic.zeroConfig algZero
                end in
  let algorithm :=
    if quic.EnableL4S config then protocol.CongestionControlPrague
    else if protocol.is_prague (quic.CongestionControlAlgorithm config)
         then quic.CongestionControlAlgorithm config
         else protocol.CongestionControlRFC9002 in
  {| quic.EnableL4S := quic.EnableL4S config;
     quic.CongestionControlAlgorithm := algorithm;
     quic.MaxIdleTimeout := 300 * second;
     quic.HandshakeIdleTimeout := 5 * second |}.

(** Modelled from the spec: the [ECNMode] method of the sent-packet handler
    is not among the source files (only its test and a simplified excerpt in
    the tuning guide are).  Section 4.3 of the specification: long-header
    packets and paths where ECN is disabled or failed validation get
    Not-ECT; otherwise ECT(1) when L4S is enabled with Prague, else ECT(0). *)
Definition ECNMode (ecnUsable enableL4S : bool)
    (alg : protocol.CongestionControlAlgorithm)
    (isShortHeaderPacket : bool) : protocol.ECN :=
  if negb isShortHeaderPacket then protocol.ECNNon
  else if negb ecnUsable then protocol.ECNNon
  else if enableL4S && protocol.is_prague alg then protocol.ECT1
  else protocol.ECT0.

(** ** Scenarios *)

(** A fresh L4S sender for 1200-byte datagrams with upstream's constants. *)
Definition fresh1200 : pragueSender := newPragueSender quicgo_protocol 1200 true.

(** Ten 1200-byte packets acknowledged in slow start. *)
Definition acked12000 : pragueSender := OnPacketAcked fresh1200 1 12000 0 0.

(** The cold-start state the specification's first scenario describes:
    the initial window with 12000 bytes in the sample window. *)
Definition coldStart : pragueSender := set_totalAckedBytes fresh1200 12000.

(** Packets up to number 200 sent, then number 100 declared lost. *)
Definition afterLoss : pragueSender :=
  OnCongestionEvent
    (OnPacketSent (OnPacketAcked fresh1200 1 21600 0 0) 0 0 200 1200 true)
    100 1200 0.

(** A window of 2^53 + 3 bytes, reached in slow start by one
    acknowledgement. *)
Definition hugeWindow : pragueSender :=
  OnPacketAcked fresh1200 1 (2 ^ 53 + 3 - 38400) 0 0.

(** A fresh sender whose datagram size has been raised to 2^62 bytes. *)
Definition hugeDatagram : pragueSender := set_maxDatagramSize fresh1200 (2 ^ 62).

(** ** Invariants and the specification's formulas *)

(** A marking fraction estimate as the specification wants it: a finite
    number of [0, 1]. *)
Definition alpha_ok (a : float64) : Prop := finite_ok a /\ 0 <= sval a <= SC.

Definition int64_ok (z : Z) : Prop := Int64.min_int <= z <= Int64.max_int.

(** What every run keeps true of the fields [updateAlpha] reads. *)
Definition sample_ok (p : pragueSender) : Prop :=
  alpha_ok (alpha p) /\ alphaGain p = pragueAlphaGain /\
  int64_ok (ecnMarkedBytes p) /\ int64_ok (totalAckedBytes p).

(** The update of [alpha] in the specification's words: the marking
    fraction of the sample, the bootstrap to 1, the moving average with
    gain 1/16 otherwise, and the clamp to [0, 1]. *)
Definition markingFraction (p : pragueSender) : float64 :=
  F64.div (F64.of_int (ecnMarkedBytes p)) (F64.of_int (totalAckedBytes p)).

Definition ewma (a f : float64) : float64 :=
  F64.add (F64.mul (F64.sub F64.one pragueAlphaGain) a) (F64.mul pragueAlphaGain f).

Definition clamp01 (a : float64) : float64 :=
  let a := if F64.ltb a F64.zero then F64.zero else a in
  if F64.ltb F64.one a then F64.one else a.

Definition alphaUpdate_spec (a f : float64) : float64 :=
  clamp01 (if F64.eqb a F64.zero && F64.ltb F64.zero f then F64.one else ewma a f).

(** The nearest binary64 to the decimal [n / 100000]. *)
Definition decimal5 (n : Z) : float64 := F64.div (F64.of_int n) (F64.of_int 100000).

(** The state of the steady-EWMA scenario: [alpha = 1.0] and a sample of
    12000 bytes of which 1200 are marked. *)
Definition steadySample : pragueSender :=
  set_totalAckedBytes (set_ecnMarkedBytes (set_alpha fresh1200 F64.one) 1200) 12000.

(** The same sample with more marked than acknowledged bytes. *)
Definition overMarkedSample : pragueSender :=
  set_totalAckedBytes (set_ecnMarkedBytes (set_alpha fresh1200 F64.one) 24000) 12000.

(** The steady-EWMA scenario as calls on a fresh sender. *)
Definition steadyCalls : list call :=
  [CallPacketAcked 1 12000 0 0; CallECNFeedback 2400;
   CallPacketAcked 2 12000 0 0; CallECNFeedback 1200].

(** The values [cwndCarry] takes: a finite number below 2, or minus
    infinity. *)
Definition carry_ok (c : float64) : Prop :=
  c = S754_infinity true \/ (finite_ok c /\ sval c < 2 * SC).

(** The window floor, with what keeps it through a call. *)
Definition floor_ok (p : pragueSender) : Prop :=
  sample_ok p /\
  0 < maxDatagramSize p < 2 ^ 16 /\
  2 * maxDatagramSize p <= congestionWindow p /\
  carry_ok (cwndCarry p).

(** The calls the window floor is kept through: the window is below 2^53
    bytes when the call is made, an acknowledgement is for less than 2^32
    bytes, and the datagram size is raised only when the window is at its
    minimum or already holds two datagrams of the new size. *)
Definition call_ok (p : pragueSender) (c : call) : Prop :=
  congestionWindow p < 2 ^ 53 /\
  match c with
  | CallPacketAcked _ ackedBytes _ _ => 0 <= ackedBytes < 2 ^ 32
  | CallSetMaxDatagramSize size =>
      size < 2 ^ 16 /\
      (congestionWindow p = minCongestionWindow p \/ 2 * size <= congestionWindow p)
  | _ => True
  end.

Fixpoint calls_ok (K : protocolConstants) (p : pragueSender) (cs : list call)
    : Prop :=
  match cs with
  | [] => True
  | c :: cs' =>
      call_ok p c /\
      match step K p c with
      | Some p' => calls_ok K p' cs'
      | None => True
      end
  end.

(** A timeout, a small acknowledgement, then a larger datagram size. *)
Definition raiseAfterTimeout : list call :=
  [CallRetransmissionTimeout true; CallPacketAcked 1 200 0 0;
   CallSetMaxDatagramSize 1452].

(** ** Further methods and helpers *)
(** [getVirtualRTT]; [srtt] is what [rttStats.SmoothedRTT()] returns, in
    nanoseconds. *)
Definition getVirtualRTT (p : pragueSender) (srtt : Z) : Z :=
  if srtt <? virtualRTTMin p then virtualRTTMin p else srtt.

(** [BandwidthEstimate]; [BandwidthFromDelta] lives in a file of the
    package that is not at hand and is taken as a parameter. *)
Definition BandwidthEstimate (BandwidthFromDelta : Z -> Z -> Z)
    (p : pragueSender) (srtt : Z) : Z :=
  let srtt := getVirtualRTT p srtt in
  if srtt =? 0 then 0 else BandwidthFromDelta (congestionWindow p) srtt.

(** The calls that leave [largestSentAtLastCutback] alone. *)
Definition keepsCutback (c : call) : bool :=
  match c with
  | CallCongestionEvent _ _ _ | CallRetransmissionTimeout _ => false
  | _ => true
  end.

(** A field that no setter of the sender writes. *)
Definition untouched {A : Type} (f : pragueSender -> A) : Prop :=
  (forall q v, f (set_alpha q v) = f q) /\
  (forall q v, f (set_congestionWindow q v) = f q) /\
  (forall q v, f (set_slowStartThreshold q v) = f q) /\
  (forall q v, f (set_cwndCarry q v) = f q) /\
  (forall q v, f (set_largestSentPacketNumber q v) = f q) /\
  (forall q v, f (set_largestAckedPacketNumber q v) = f q) /\
  (forall q v, f (set_largestSentAtLastCutback q v) = f q) /\
  (forall q v, f (set_ecnMarkedBytes q v) = f q) /\
  (forall q v, f (set_totalAckedBytes q v) = f q) /\
  (forall q v, f (set_inSlowStart q v) = f q) /\
  (forall q v, f (set_inRecovery q v) = f q) /\
  (forall q v, f (set_lastCutbackExitedSlowstart q v) = f q) /\
  (forall q v, f (set_maxDatagramSize q v) = f q).

(** Go strings are byte sequences; [s[i:j]] for [0 <= i <= j <= len(s)]. *)
Definition gostring : Type := list ascii.

Definition slice (s : gostring) (i j : nat) : gostring := firstn (j - i) (skipn i s).

(** [==] on strings. *)
Fixpoint string_eqb (a b : gostring) : bool :=
  match a, b with
  | [], [] => true
  | x :: a', y :: b' => Ascii.eqb x y && string_eqb a' b'
  | _, _ => false
  end.

(** [containsHelper]: the loop tries the offsets [0 .. len(s) - len(substr)]
    in order and returns at the first match; it tries none when the
    difference, a signed [int], is negative. *)
Definition containsHelper (s substr : gostring) : bool :=
  existsb (fun i => string_eqb (slice s i (i + length substr)) substr)
          (seq 0 (Z.to_nat (Z.of_nat (length s) - Z.of_nat (length substr) + 1))).

(** [contains]: [&&] and [||] evaluate left to right and stop early, so the
    helper runs only on a strictly longer [s]. *)
Definition contains (s substr : gostring) : bool :=
  (length substr <=? length s)%nat
  && (string_eqb s substr
      || (length substr =? 0)%nat
      || ((length substr <? length s)%nat && containsHelper s substr)).

(** ** The test harness of the sender *)

Module Harness.

(** The fields of [testPragueSender] that its helpers read and write; the
    mock clock, the RTT statistics and the tracer are not read by the
    sender methods embedded here. *)
Record testPragueSender : Type := mkTestPragueSender {
  sender : pragueSender;
  bytesInFlight : Z;
  packetNumber : Z;
  ackedPacketNumber : Z
}.

(** [newTestPragueSender]; [initialMaxDatagramSize] is a constant of
    another test file of the package and is taken as a parameter. *)
Definition newTestPragueSender (K : protocolConstants)
    (initialMaxDatagramSize : Z) (l4s : bool) : testPragueSender :=
  {| sender := newPragueSender K initialMaxDatagramSize l4s;
     bytesInFlight := 0;
     packetNumber := 1;
     ackedPacketNumber := 0 |}.



(** The loop of [AckNPacketsWithECN]: [for range n] runs [n] times. *)
Fixpoint ackLoop (n : nat) (initialMaxDatagramSize : Z) (s : testPragueSender)
    : testPragueSender :=
  match n with
  | O => s
  | S n' =>
      let acked := Int64.add (ackedPacketNumber s) 1 in
      ackLoop n' initialMaxDatagramSize
        {| sender := OnPacketAcked (sender s) acked initialMaxDatagramSize
                       (bytesInFlight s) 0;
           bytesInFlight := bytesInFlight s;
           packetNumber := packetNumber s;
           ackedPacketNumber := acked |}
  end.

(** [AckNPacketsWithECN]; a negative [n] runs the loop zero times. *)
Definition AckNPacketsWithECN (initialMaxDatagramSize : Z)
    (s : testPragueSender) (n ecnMarkedPackets : Z) : testPragueSender :=
  let s := ackLoop (Z.to_nat n) initialMaxDatagramSize s in
  let snd := if 0 <? ecnMarkedPackets
             then OnECNFeedback (sender s)
                    (Int64.mul ecnMarkedPackets initialMaxDatagramSize)
             else sender s in
  {| sender := snd;
     bytesInFlight := Int64.wrap (bytesInFlight s
                                  - Int64.mul n initialMaxDatagramSize);
     packetNumber := packetNumber s;
     ackedPacketNumber := ackedPacketNumber s |}.

Definition AckNPackets (initialMaxDatagramSize : Z)
    (s : testPragueSender) (n : Z) : testPragueSender :=
  AckNPacketsWithECN initialMaxDatagramSize s n 0.



End Harness.

(** * Properties *)

(** ** Machine integers *)

Lemma wrap_small z :
  Int64.min_int <= z <= Int64.max_int -> Int64.wrap z = z.
Proof.
  unfold Int64.wrap, Int64.min_int, Int64.max_int; intros H.
  rewrite Z.mod_small; lia.
Qed.

Lemma wrap_range z : Int64.min_int <= Int64.wrap z <= Int64.max_int.
Proof.
  unfold Int64.wrap, Int64.min_int, Int64.max_int.
  pose proof (Z.mod_pos_bound (z + 2 ^ 63) (2 ^ 64) ltac:(lia)); lia.
Qed.

(** ** Binary64 arithmetic *)

Lemma fexp_eq e : fexp F64.prec F64.emax e = Z.max (e - 53) (-1074).
Proof. reflexivity. Qed.

Ltac pow_atoms :=
  repeat match goal with
         | |- context [2 ^ ?e] => let x := fresh "pw" in set (x := 2 ^ e) in *
         | H : context [2 ^ ?e] |- _ => let x := fresh "pw" in set (x := 2 ^ e) in *
         end.

Lemma digits2_pos_bounds p :
  2 ^ (Zpos (digits2_pos p) - 1) <= Zpos p < 2 ^ Zpos (digits2_pos p).
Proof.
  induction p as [p IH|p IH|]; cbn [digits2_pos].
  - rewrite Pos2Z.inj_succ, (Pos2Z.inj_xI p).
    pose proof (Pos2Z.is_pos (digits2_pos p)) as Hd.
    remember (Zpos (digits2_pos p)) as d eqn:E; clear E.
    unfold Z.succ. replace (d + 1 - 1) with ((d - 1) + 1) by lia.
    rewrite (Z.pow_add_r 2 d 1), (Z.pow_add_r 2 (d - 1) 1) by lia.
    change (2 ^ 1) with 2. pow_atoms; lia.
  - rewrite Pos2Z.inj_succ, (Pos2Z.inj_xO p).
    pose proof (Pos2Z.is_pos (digits2_pos p)) as Hd.
    remember (Zpos (digits2_pos p)) as d eqn:E; clear E.
    unfold Z.succ. replace (d + 1 - 1) with ((d - 1) + 1) by lia.
    rewrite (Z.pow_add_r 2 d 1), (Z.pow_add_r 2 (d - 1) 1) by lia.
    change (2 ^ 1) with 2. pow_atoms; lia.
  - cbn. lia.
Qed.

Lemma Zdigits2_bounds m :
  0 < m -> 2 ^ (Zdigits2 m - 1) <= m < 2 ^ Zdigits2 m.
Proof.
  destruct m as [|p|p]; try lia. intros _. apply digits2_pos_bounds.
Qed.

Lemma Zdigits2_pos m : 0 < m -> 0 < Zdigits2 m.
Proof. destruct m; cbn; lia. Qed.

Lemma pow2_lt_inv a b : 0 <= b -> 2 ^ a < 2 ^ b -> a < b.
Proof.
  intros Hb H. destruct (Z_lt_le_dec a b) as [|Hle]; [assumption|].
  pose proof (Z.pow_le_mono_r 2 b a ltac:(lia) Hle). lia.
Qed.

Lemma Zdigits2_unique m n :
  2 ^ (n - 1) <= m < 2 ^ n -> 0 < n -> Zdigits2 m = n.
Proof.
  intros [Hlo Hhi] Hn.
  assert (Hm : 0 < m) by (pose proof (Z.pow_pos_nonneg 2 (n - 1)); lia).
  pose proof (Zdigits2_bounds m Hm) as [Hlo' Hhi'].
  pose proof (Zdigits2_pos m Hm) as Hd.
  assert (Zdigits2 m - 1 < n) by (apply pow2_lt_inv; lia).
  assert (n - 1 < Zdigits2 m) by (apply pow2_lt_inv; lia).
  lia.
Qed.

Lemma Zdigits2_le m n : 0 < m -> 0 <= n -> m < 2 ^ n -> Zdigits2 m <= n.
Proof.
  intros Hm Hn H. pose proof (Zdigits2_bounds m Hm) as [Hlo _].
  assert (Zdigits2 m - 1 < n) by (apply pow2_lt_inv; lia). lia.
Qed.

Lemma Zdigits2_ge m n : 0 < m -> 2 ^ (n - 1) <= m -> n <= Zdigits2 m.
Proof.
  intros Hm H. pose proof (Zdigits2_bounds m Hm) as [_ Hhi].
  pose proof (Zdigits2_pos m Hm).
  destruct (Z_le_gt_dec n (Zdigits2 m)); [assumption|].
  assert (n - 1 < Zdigits2 m) by (apply pow2_lt_inv; lia). lia.
Qed.

Lemma Zdigits2_mul_pow2 m k :
  0 < m -> 0 <= k -> Zdigits2 (m * 2 ^ k) = Zdigits2 m + k.
Proof.
  intros Hm Hk. pose proof (Zdigits2_bounds m Hm) as [Hlo Hhi].
  pose proof (Zdigits2_pos m Hm).
  apply Zdigits2_unique; [|lia].
  replace (Zdigits2 m + k - 1) with ((Zdigits2 m - 1) + k) by lia.
  rewrite !Z.pow_add_r by lia.
  pose proof (Z.pow_pos_nonneg 2 k ltac:(lia) Hk). nia.
Qed.

Lemma Zdigits2_div_pow2 m k :
  0 < m -> 0 <= k -> k < Zdigits2 m -> Zdigits2 (m / 2 ^ k) = Zdigits2 m - k.
Proof.
  intros Hm Hk Hlt. pose proof (Zdigits2_bounds m Hm) as [Hlo Hhi].
  pose proof (Z.pow_pos_nonneg 2 k ltac:(lia) Hk) as Hp.
  apply Zdigits2_unique; [|lia]. split.
  - apply Z.div_le_lower_bound; [lia|].
    rewrite <- Z.pow_add_r by lia. replace (k + (Zdigits2 m - k - 1)) with (Zdigits2 m - 1) by lia. lia.
  - apply Z.div_lt_upper_bound; [lia|].
    rewrite <- Z.pow_add_r by lia. replace (k + (Zdigits2 m - k)) with (Zdigits2 m) by lia. lia.
Qed.

Lemma iter_pos_nat {A} (f : A -> A) p x :
  iter_pos f p x = Nat.iter (Pos.to_nat p) f x.
Proof.
  revert x; induction p as [p IH|p IH|]; intros x; cbn [iter_pos].
  - rewrite !IH, Pos2Nat.inj_xI.
    replace (S (2 * Pos.to_nat p))%nat with (Pos.to_nat p + (Pos.to_nat p + 1))%nat by lia.
    rewrite !Nat.iter_add. cbn. reflexivity.
  - rewrite !IH, Pos2Nat.inj_xO.
    replace (2 * Pos.to_nat p)%nat with (Pos.to_nat p + Pos.to_nat p)%nat by lia.
    rewrite Nat.iter_add. reflexivity.
  - reflexivity.
Qed.

Lemma shr_1_m mrs : 0 <= shr_m mrs -> shr_m (shr_1 mrs) = shr_m mrs / 2.
Proof.
  destruct mrs as [m r s]; cbn [shr_m]; intros Hm.
  destruct m as [|[p|p|]|p]; cbn [shr_1 shr_m]; try lia; try reflexivity.
  - rewrite (Pos2Z.inj_xI p). apply Z.div_unique with (r := 1); lia.
  - rewrite (Pos2Z.inj_xO p). apply Z.div_unique with (r := 0); lia.
Qed.

Lemma shr_iter_m n mrs :
  0 <= shr_m mrs ->
  shr_m (Nat.iter n shr_1 mrs) = shr_m mrs / 2 ^ Z.of_nat n.
Proof.
  intros Hm; induction n as [|n IH].
  - cbn. now rewrite Z.div_1_r.
  - change (Nat.iter (S n) shr_1 mrs) with (shr_1 (Nat.iter n shr_1 mrs)).
    rewrite shr_1_m.
    + rewrite IH, Nat2Z.inj_succ, Z.pow_succ_r by lia.
      rewrite Z.div_div by lia. f_equal. lia.
    + rewrite IH. apply Z.div_pos; [lia|]. apply Z.pow_pos_nonneg; lia.
Qed.

(** Shifting out zero bits keeps the record exact. *)
Lemma shr_iter_exact n m :
  0 <= m ->
  Nat.iter n shr_1 (Build_shr_record (m * 2 ^ Z.of_nat n) false false)
  = Build_shr_record m false false.
Proof.
  intros Hm; revert m Hm; induction n as [|n IH]; intros m Hm.
  - cbn. now rewrite Z.mul_1_r.
  - rewrite Nat2Z.inj_succ, Z.pow_succ_r by lia.
    replace (S n) with (n + 1)%nat by lia. rewrite Nat.iter_add.
    change (Nat.iter 1 shr_1 ?x) with (shr_1 x).
    replace (m * (2 * 2 ^ Z.of_nat n)) with ((2 * m) * 2 ^ Z.of_nat n) by ring.
    assert (Hs : shr_1 (Build_shr_record (2 * m * 2 ^ Z.of_nat n) false false) =
            Build_shr_record (m * 2 ^ Z.of_nat n) false false).
    { pose proof (Z.pow_pos_nonneg 2 (Z.of_nat n) ltac:(lia) ltac:(lia)).
      remember (m * 2 ^ Z.of_nat n) as q eqn:Hq.
      replace (2 * m * 2 ^ Z.of_nat n) with (2 * q) by (subst; ring).
      assert (0 <= q) by nia.
      destruct q as [|q|q]; try lia; reflexivity. }
    rewrite Hs. apply IH; lia.
Qed.

Lemma fexp_ge_emin e : emin <= fexp F64.prec F64.emax e.
Proof. rewrite fexp_eq; unfold emin; lia. Qed.

Lemma fexp_mono a b : a <= b -> fexp F64.prec F64.emax a <= fexp F64.prec F64.emax b.
Proof. rewrite !fexp_eq; lia. Qed.

Lemma shr_record_of_loc_m m l : shr_m (shr_record_of_loc m l) = m.
Proof. destruct l as [|[]]; reflexivity. Qed.

(** What [shr_fexp] does to a non-negative mantissa: nothing when the
    exponent is already large enough, a division by a power of two
    otherwise. *)
Lemma shr_fexp_spec m e l :
  0 <= m ->
  let k := fexp F64.prec F64.emax (Zdigits2 m + e) - e in
  (k <= 0 -> shr_fexp F64.prec F64.emax m e l = (shr_record_of_loc m l, e)) /\
  (0 < k -> exists mrs, shr_fexp F64.prec F64.emax m e l = (mrs, e + k) /\
                        shr_m mrs = m / 2 ^ k).
Proof.
  intros Hm k; unfold shr_fexp; fold k.
  destruct k as [|p|p] eqn:Hk; cbn [shr]; split; intros H; try lia; try reflexivity.
  exists (iter_pos shr_1 p (shr_record_of_loc m l)); split; [reflexivity|].
  rewrite iter_pos_nat, shr_iter_m, shr_record_of_loc_m, positive_nat_Z;
    [reflexivity | now rewrite shr_record_of_loc_m].
Qed.

Lemma shr_fexp_exact q e k :
  0 <= q -> 0 < k ->
  fexp F64.prec F64.emax (Zdigits2 (q * 2 ^ k) + e) - e = k ->
  shr_fexp F64.prec F64.emax (q * 2 ^ k) e loc_Exact
  = (Build_shr_record q false false, e + k).
Proof.
  intros Hq Hk E; unfold shr_fexp; rewrite E.
  destruct k as [|p|p]; try lia; cbn [shr shr_record_of_loc].
  rewrite iter_pos_nat. rewrite <- (positive_nat_Z p) at 1.
  now rewrite shr_iter_exact.
Qed.

Lemma round_nearest_even_cases m l :
  round_nearest_even m l = m \/ round_nearest_even m l = m + 1.
Proof.
  destruct l as [|[]]; cbn; auto. destruct (Z.even m); auto.
Qed.

(** The second normalisation step of [binary_round_aux]: the result has
    the sign asked for, its magnitude is bounded by that of the input, it is
    finite when the exponents leave room, and it is in canonical form when
    the input exponent is not above the canonical one. *)
Lemma renormalise_spec sx m1 e1 bound :
  0 <= m1 ->
  (0 < m1 -> Zdigits2 m1 + e1 <= bound) ->
  let r :=
    (let '(mrs, e2) := shr_fexp F64.prec F64.emax m1 e1 loc_Exact in
     match shr_m mrs with
     | Z0 => S754_zero sx
     | Zpos m => if e2 <=? F64.emax - F64.prec then S754_finite sx m e2 else S754_infinity sx
     | Zneg _ => S754_nan
     end) in
  rounded sx bound r /\
  (e1 <= F64.emax - F64.prec -> bound <= F64.emax -> is_inf r = false) /\
  (e1 <= fexp F64.prec F64.emax (Zdigits2 m1 + e1) -> valid_binary F64.prec F64.emax r = true).
Proof.
  intros Hm Hb r; subst r.
  destruct (shr_fexp_spec m1 e1 loc_Exact Hm) as [Hnone Hshift].
  set (k := fexp F64.prec F64.emax (Zdigits2 m1 + e1) - e1) in *.
  destruct (Z_le_gt_dec k 0) as [Hk|Hk].
  - rewrite (Hnone Hk); cbn [shr_record_of_loc shr_m].
    destruct m1 as [|p|p]; try lia;
      [repeat split; solve [constructor | reflexivity]|].
    destruct (e1 <=? F64.emax - F64.prec) eqn:He1.
    + split; [constructor; apply Hb; lia|]. split; [reflexivity|].
      intros Hc. cbn [valid_binary]. unfold bounded, canonical_mantissa.
      rewrite He1, andb_true_r. apply Z.eqb_eq. cbn [Zdigits2] in *. lia.
    + split; [constructor|]. split; [|reflexivity].
      intros; apply Z.leb_gt in He1; lia.
  - destruct (Hshift ltac:(lia)) as (mrs & -> & Hq). rewrite Hq.
    assert (Hpw : 0 < 2 ^ k) by (apply Z.pow_pos_nonneg; lia).
    pose proof (Z.div_pos m1 (2 ^ k) Hm Hpw) as Hq0.
    destruct (m1 / 2 ^ k) as [|p|p] eqn:Eq; try lia;
      [repeat split; solve [constructor | reflexivity]|].
    assert (Hm1 : 0 < m1) by (destruct m1; try lia; rewrite Zdiv_0_l in Eq; lia).
    assert (Hlt : k < Zdigits2 m1).
    { destruct (Z_lt_le_dec k (Zdigits2 m1)); [assumption|].
      pose proof (Zdigits2_bounds m1 Hm1) as [_ Hhi].
      assert (m1 < 2 ^ k).
      { eapply Z.lt_le_trans; [exact Hhi|]. apply Z.pow_le_mono_r; lia. }
      rewrite Z.div_small in Eq; lia. }
    pose proof (Zdigits2_div_pow2 m1 k Hm1 ltac:(lia) Hlt) as Hd.
    rewrite Eq in Hd. cbn [Zdigits2] in Hd. specialize (Hb Hm1).
    destruct (e1 + k <=? F64.emax - F64.prec) eqn:He1.
    + split; [constructor; lia|]. split; [reflexivity|].
      intros _. cbn [valid_binary]. unfold bounded, canonical_mantissa.
      rewrite He1, andb_true_r. apply Z.eqb_eq. rewrite Hd.
      replace (Zdigits2 m1 - k + (e1 + k)) with (Zdigits2 m1 + e1) by lia.
      subst k; lia.
    + split; [constructor|]. split; [|reflexivity].
      intros He Hbd; apply Z.leb_gt in He1. exfalso.
      subst k. rewrite fexp_eq in *. unfold F64.emax, F64.prec in *. lia.
Qed.

Lemma Zdigits2_succ m :
  0 <= m -> Zdigits2 m <= Zdigits2 (m + 1) <= Zdigits2 m + 1.
Proof.
  intros Hm. destruct (Z.eq_dec m 0) as [->|Hne]; [cbn; lia|].
  assert (H0 : 0 < m) by lia.
  pose proof (Zdigits2_bounds m H0) as [Hlo Hhi].
  pose proof (Zdigits2_pos m H0) as Hd. split.
  - apply Zdigits2_ge; lia.
  - apply Zdigits2_le; try lia.
    rewrite Z.pow_add_r by lia. change (2 ^ 1) with 2. pow_atoms; lia.
Qed.

Lemma Zdigits2_nonneg m : 0 <= Zdigits2 m.
Proof. destruct m; cbn; lia. Qed.

Lemma Zdigits2_mono a b : 0 <= a <= b -> Zdigits2 a <= Zdigits2 b.
Proof.
  intros [Ha Hab]. destruct (Z.eq_dec a 0) as [->|Hne]; [apply Zdigits2_nonneg|].
  apply Zdigits2_ge; [lia|]. pose proof (Zdigits2_bounds a ltac:(lia)). lia.
Qed.

(** [binary_round_aux] on a non-negative mantissa, whatever the location. *)
Lemma binary_round_aux_spec sx m e l :
  0 <= m ->
  let bound := Z.max (Zdigits2 m + e) emin + 1 in
  let r := binary_round_aux F64.prec F64.emax sx m e l in
  rounded sx bound r /\
  (e <= F64.emax - F64.prec -> bound <= F64.emax -> is_inf r = false) /\
  (e <= fexp F64.prec F64.emax (Zdigits2 m + e) -> valid_binary F64.prec F64.emax r = true).
Proof.
  intros Hm bound r; subst r; unfold binary_round_aux.
  destruct (shr_fexp_spec m e l Hm) as [Hnone Hshift].
  set (k := fexp F64.prec F64.emax (Zdigits2 m + e) - e) in *.
  pose proof (Zdigits2_nonneg m) as Hd0.
  destruct (Z_le_gt_dec k 0) as [Hk|Hk].
  - rewrite (Hnone Hk), shr_record_of_loc_m.
    set (m1 := round_nearest_even m _).
    assert (Hm1 : m1 = m \/ m1 = m + 1) by apply round_nearest_even_cases.
    pose proof (Zdigits2_succ m Hm) as Hs.
    assert (Hd1 : Zdigits2 m <= Zdigits2 m1 <= Zdigits2 m + 1)
      by (destruct Hm1 as [-> | ->]; lia).
    destruct (renormalise_spec sx m1 e bound ltac:(lia) ltac:(subst bound; lia))
      as (Hr & Hf & Hv).
    split; [exact Hr|]. split; [exact Hf|].
    intros Hpre. apply Hv.
    pose proof (fexp_mono (Zdigits2 m + e) (Zdigits2 m1 + e) ltac:(lia)). lia.
  - destruct (Hshift ltac:(lia)) as (mrs & -> & Hq).
    rewrite Hq. set (q := m / 2 ^ k) in *.
    set (m1 := round_nearest_even q _).
    assert (Hm1 : m1 = q \/ m1 = q + 1) by apply round_nearest_even_cases.
    assert (Hpw : 0 < 2 ^ k) by (apply Z.pow_pos_nonneg; lia).
    assert (Hq0 : 0 <= q) by (apply Z.div_pos; lia).
    pose proof (Zdigits2_succ q Hq0) as Hs.
    assert (Hd1 : Zdigits2 q <= Zdigits2 m1 <= Zdigits2 q + 1)
      by (destruct Hm1 as [-> | ->]; lia).
    assert (Hfe : e + k = fexp F64.prec F64.emax (Zdigits2 m + e)) by (subst k; lia).
    assert (Hdq : Zdigits2 q + (e + k) <= Z.max (Zdigits2 m + e) emin).
    { destruct (Z.eq_dec q 0) as [E|E].
      - rewrite E. cbn [Zdigits2]. rewrite Hfe, fexp_eq. unfold emin. lia.
      - assert (Hmp : 0 < m).
        { destruct (Z.eq_dec m 0) as [Em|Em]; [|lia].
          subst q. rewrite Em, Zdiv_0_l in E. lia. }
        assert (Hlt : k < Zdigits2 m).
        { destruct (Z_lt_le_dec k (Zdigits2 m)); [assumption|].
          pose proof (Zdigits2_bounds m Hmp) as [_ Hhi].
          assert (m < 2 ^ k).
          { eapply Z.lt_le_trans; [exact Hhi|]. apply Z.pow_le_mono_r; lia. }
          subst q. rewrite Z.div_small in E; lia. }
        subst q. rewrite Zdigits2_div_pow2 by lia. lia. }
    destruct (renormalise_spec sx m1 (e + k) bound ltac:(lia) ltac:(subst bound; lia))
      as (Hr & Hf & Hv).
    split; [exact Hr|]. split.
    + intros He Hbd. apply Hf; [|exact Hbd].
      rewrite Hfe, fexp_eq. subst bound. unfold F64.emax, F64.prec, emin in *. lia.
    + intros Hpre. apply Hv. rewrite Hfe at 1.
      destruct (Z.eq_dec q 0) as [E|E].
      * assert (fexp F64.prec F64.emax (Zdigits2 m + e) = emin).
        { assert (Hge : Zdigits2 m <= k).
          { destruct (Z_le_gt_dec (Zdigits2 m) k); [assumption|].
            assert (Hpos : 0 < m) by (destruct m; cbn in *; lia).
            assert (Zdigits2 q = Zdigits2 m - k)
              by (subst q; apply Zdigits2_div_pow2; lia).
            rewrite E in *. cbn [Zdigits2] in *. lia. }
          rewrite fexp_eq in *. unfold emin. lia. }
        pose proof (fexp_ge_emin (Zdigits2 m1 + (e + k))). lia.
      * assert (Hpos : 0 < m).
        { destruct (Z.eq_dec m 0) as [Em|Em]; [|lia].
          subst q. rewrite Em, Zdiv_0_l in E. lia. }
        assert (Hlt : k < Zdigits2 m).
        { destruct (Z_lt_le_dec k (Zdigits2 m)); [assumption|].
          pose proof (Zdigits2_bounds m Hpos) as [_ Hhi].
          assert (m < 2 ^ k).
          { eapply Z.lt_le_trans; [exact Hhi|]. apply Z.pow_le_mono_r; lia. }
          subst q. rewrite Z.div_small in E; lia. }
        assert (Zdigits2 q = Zdigits2 m - k)
          by (subst q; apply Zdigits2_div_pow2; lia).
        apply fexp_mono. lia.
Qed.

Lemma iter_xO_spec m d : Zpos (Pos.iter xO m d) = Zpos m * 2 ^ Zpos d.
Proof.
  rewrite Pos2Nat.inj_iter, <- (positive_nat_Z d).
  induction (Pos.to_nat d) as [|n IH].
  - cbn. lia.
  - cbn [nat_rect]. rewrite Pos2Z.inj_xO, IH, Nat2Z.inj_succ, Z.pow_succ_r by lia.
    ring.
Qed.

Lemma shl_align_spec m e e' :
  let '(m', e'') := shl_align m e e' in
  (e' < e -> Zpos m' = Zpos m * 2 ^ (e - e') /\ e'' = e') /\
  (e <= e' -> m' = m /\ e'' = e).
Proof.
  unfold shl_align. destruct (e' - e) as [|d|d] eqn:E; split; intros H; try lia;
    try (split; reflexivity).
  split; [|reflexivity]. rewrite iter_xO_spec. f_equal. f_equal. lia.
Qed.

Lemma binary_round_spec sx m e :
  let bound := Z.max (Zpos (digits2_pos m) + e) emin + 1 in
  let r := binary_round F64.prec F64.emax sx m e in
  rounded sx bound r /\
  (bound <= F64.emax -> is_inf r = false) /\
  valid_binary F64.prec F64.emax r = true.
Proof.
  intros bound r; subst r; unfold binary_round.
  pose proof (shl_align_spec m e (fexp F64.prec F64.emax (Zpos (digits2_pos m) + e))) as Hs.
  destruct (shl_align m e (fexp F64.prec F64.emax (Zpos (digits2_pos m) + e))) as [mz ez].
  destruct Hs as [Hlt Hge].
  pose proof (binary_round_aux_spec sx (Zpos mz) ez loc_Exact ltac:(lia)) as H.
  cbv zeta in H. cbn [Zdigits2] in H.
  destruct (Z_lt_le_dec (fexp F64.prec F64.emax (Zpos (digits2_pos m) + e)) e) as [Hc|Hc].
  - destruct (Hlt Hc) as [Hm He].
    assert (Hd : Zpos (digits2_pos mz) = Zpos (digits2_pos m) + (e - ez)).
    { change (Zdigits2 (Zpos mz) = Zdigits2 (Zpos m) + (e - ez)).
      rewrite Hm, He. apply Zdigits2_mul_pow2; lia. }
    rewrite Hd in H. replace (Zpos (digits2_pos m) + (e - ez) + ez)
      with (Zpos (digits2_pos m) + e) in H by lia.
    destruct H as (Hr & Hf & Hv). split; [exact Hr|]. split.
    + intros Hb. apply Hf; [|exact Hb].
      subst ez bound. rewrite fexp_eq. unfold F64.emax, F64.prec, emin in *. lia.
    + apply Hv; lia.
  - destruct (Hge Hc) as [-> ->].
    destruct H as (Hr & Hf & Hv). split; [exact Hr|]. split.
    + intros Hb. apply Hf; [|exact Hb].
      subst bound. rewrite fexp_eq in Hc. unfold F64.emax, F64.prec, emin in *. lia.
    + apply Hv; lia.
Qed.

(** ** Scaled values

    A finite binary64 in canonical form has an exponent of at least [emin],
    so [2 ^ 1074] times its value is an integer. *)

Lemma valid_finite_inv s m e :
  valid_binary F64.prec F64.emax (S754_finite s m e) = true ->
  emin <= e <= F64.emax - F64.prec /\ Zpos (digits2_pos m) <= F64.prec /\
  e = fexp F64.prec F64.emax (Zpos (digits2_pos m) + e).
Proof.
  cbn [valid_binary]. unfold bounded, canonical_mantissa.
  rewrite andb_true_iff, Z.eqb_eq, Z.leb_le. intros [Hc He].
  rewrite fexp_eq in *. unfold emin, F64.emax, F64.prec in *. lia.
Qed.

Lemma sval_finite_digits s m e :
  emin <= e ->
  Zdigits2 (Z.abs (sval (S754_finite s m e))) = Zpos (digits2_pos m) + e - emin.
Proof.
  intros He. cbn [sval].
  assert (Hp : 0 < 2 ^ (e - emin)) by (apply Z.pow_pos_nonneg; lia).
  replace (Z.abs (cond_Zopp s (Zpos m * 2 ^ (e - emin)))) with (Zpos m * 2 ^ (e - emin))
    by (destruct s; cbn [cond_Zopp]; nia).
  rewrite Zdigits2_mul_pow2 by lia. cbn [Zdigits2]. lia.
Qed.

Lemma lmag_nonneg x : 0 <= lmag x.
Proof. apply Zdigits2_nonneg. Qed.

Lemma sval_lt_lmag x : Z.abs (sval x) < 2 ^ lmag x.
Proof.
  unfold lmag. destruct (Z.eq_dec (Z.abs (sval x)) 0) as [->|H]; [cbn; lia|].
  apply Zdigits2_bounds. lia.
Qed.

(** A rounded, valid, finite result in terms of its scaled value. *)
Lemma rounded_sval sx bound r :
  rounded sx bound r -> valid_binary F64.prec F64.emax r = true -> is_inf r = false ->
  emin <= bound ->
  finite_ok r /\
  (if sx then sval r <= 0 else 0 <= sval r) /\
  lmag r <= bound - emin.
Proof.
  intros Hr Hv Hi Hb. destruct Hr as [| |m e Hm]; try discriminate.
  - cbn. repeat split; try lia. destruct sx; lia.
  - destruct (valid_finite_inv _ _ _ Hv) as (He & Hd & Hc).
    split; [exact Hv|]. split.
    + cbn [sval]. assert (0 < 2 ^ (e - emin)) by (apply Z.pow_pos_nonneg; lia).
      destruct sx; cbn [cond_Zopp]; nia.
    + unfold lmag. rewrite sval_finite_digits by lia. lia.
Qed.

Lemma shiftl_scaled m e :
  emin <= e -> Z.shiftl (Zpos m) e = (Zpos m * 2 ^ (e - emin)) / 2 ^ (- emin).
Proof.
  intros He. destruct (Z_le_gt_dec 0 e) as [H|H].
  - rewrite Z.shiftl_mul_pow2 by lia.
    replace (e - emin) with (e + - emin) by lia.
    rewrite Z.pow_add_r, Z.mul_assoc by (unfold emin; lia).
    rewrite Z.div_mul; [reflexivity|]. unfold emin; cbn; lia.
  - rewrite Z.shiftl_div_pow2 by lia.
    replace (- emin) with (- e + (e - emin)) by lia.
    rewrite Z.pow_add_r by (unfold emin in *; lia).
    rewrite Z.div_mul_cancel_r; [reflexivity| |];
      apply Z.pow_nonzero; unfold emin in *; lia.
Qed.

Lemma trunc_sval x :
  finite_ok x -> F64.trunc x = Some (Z.quot (sval x) (2 ^ (- emin))).
Proof.
  destruct x as [s|s| |s m e]; cbn [finite_ok F64.trunc sval]; intros H; try easy.
  destruct (valid_finite_inv _ _ _ H) as (He & _).
  rewrite shiftl_scaled by lia.
  assert (0 < 2 ^ (e - emin)) by (apply Z.pow_pos_nonneg; lia).
  assert (0 < 2 ^ (- emin)) by (unfold emin; cbn; lia).
  destruct s; cbn [cond_Zopp].
  - rewrite Z.quot_opp_l by lia. rewrite Z.quot_div_nonneg by nia. reflexivity.
  - rewrite Z.quot_div_nonneg by nia. reflexivity.
Qed.

Lemma sval_pos_finite m e : emin <= e -> 0 < Zpos m * 2 ^ (e - emin).
Proof. intros H. assert (0 < 2 ^ (e - emin)) by (apply Z.pow_pos_nonneg; lia). nia. Qed.

(** Canonical floats with a smaller exponent are smaller. *)
Lemma canonical_exp_lt m1 e1 m2 e2 s1 s2 :
  valid_binary F64.prec F64.emax (S754_finite s1 m1 e1) = true ->
  valid_binary F64.prec F64.emax (S754_finite s2 m2 e2) = true ->
  e1 < e2 ->
  Zpos m1 * 2 ^ (e1 - emin) < Zpos m2 * 2 ^ (e2 - emin).
Proof.
  intros H1 H2 Hlt.
  destruct (valid_finite_inv _ _ _ H1) as (He1 & Hd1 & Hc1).
  destruct (valid_finite_inv _ _ _ H2) as (He2 & Hd2 & Hc2).
  rewrite fexp_eq in Hc1, Hc2. unfold F64.prec, emin in *.
  assert (Hd : Zpos (digits2_pos m2) = 53) by lia.
  pose proof (digits2_pos_bounds m1) as [_ Hhi1].
  pose proof (digits2_pos_bounds m2) as [Hlo2 _]. rewrite Hd in Hlo2.
  assert (Hm1 : Zpos m1 < 2 ^ 53).
  { eapply Z.lt_le_trans; [exact Hhi1|]. apply Z.pow_le_mono_r; lia. }
  replace (e2 - -1074) with ((e1 - -1074) + (e2 - e1)) by lia.
  rewrite Z.pow_add_r by lia.
  assert (Hp : 0 < 2 ^ (e1 - -1074)) by (apply Z.pow_pos_nonneg; lia).
  assert (Hq : 2 ^ 1 <= 2 ^ (e2 - e1)) by (apply Z.pow_le_mono_r; lia).
  change (2 ^ 1) with 2 in Hq. change (2 ^ (53 - 1)) with 4503599627370496 in Hlo2.
  change (2 ^ 53) with 9007199254740992 in Hm1.
  set (P := 2 ^ (e1 - -1074)) in *. set (Q := 2 ^ (e2 - e1)) in *.
  assert (H3 : 9007199254740992 <= Zpos m2 * Q) by nia.
  assert (H4 : 9007199254740992 * P <= Zpos m2 * Q * P)
    by (apply Z.mul_le_mono_nonneg_r; lia).
  assert (H5 : Zpos m1 * P < 9007199254740992 * P)
    by (apply Z.mul_lt_mono_pos_r; lia).
  replace (Zpos m2 * (P * Q)) with (Zpos m2 * Q * P) by ring. lia.
Qed.

Lemma compare_sval x y :
  finite_ok x -> finite_ok y ->
  SFcompare x y = Some (sval x ?= sval y).
Proof.
  destruct x as [sx|sx| |sx mx ex], y as [sy|sy| |sy my ey];
    cbn [finite_ok]; intros Hx Hy; try easy.
  - destruct (valid_finite_inv _ _ _ Hy) as (He & _).
    pose proof (sval_pos_finite my ey ltac:(lia)).
    cbn [SFcompare sval]. f_equal. symmetry.
    destruct sy; cbn [cond_Zopp]; [apply Z.compare_gt_iff | apply Z.compare_lt_iff]; lia.
  - destruct (valid_finite_inv _ _ _ Hx) as (He & _).
    pose proof (sval_pos_finite mx ex ltac:(lia)).
    cbn [SFcompare sval]. f_equal. symmetry.
    destruct sx; cbn [cond_Zopp]; [apply Z.compare_lt_iff | apply Z.compare_gt_iff]; lia.
  - destruct (valid_finite_inv _ _ _ Hx) as (Hex & _).
    destruct (valid_finite_inv _ _ _ Hy) as (Hey & _).
    pose proof (sval_pos_finite mx ex ltac:(lia)).
    pose proof (sval_pos_finite my ey ltac:(lia)).
    cbn [SFcompare sval]. f_equal. symmetry.
    destruct sx, sy; cbn [cond_Zopp].
    + destruct (Z.compare_spec ex ey) as [E|E|E].
      * subst ey.
        assert (Hp : 0 < 2 ^ (ex - emin)) by (apply Z.pow_pos_nonneg; lia).
        rewrite Z.compare_opp, <- Zmult_compare_compat_r, Pos2Z.inj_compare by lia.
        apply Pos.compare_antisym.
      * apply Z.compare_gt_iff.
        pose proof (canonical_exp_lt _ _ _ _ _ _ Hx Hy E). lia.
      * apply Z.compare_lt_iff.
        pose proof (canonical_exp_lt _ _ _ _ _ _ Hy Hx E). lia.
    + apply Z.compare_lt_iff; lia.
    + apply Z.compare_gt_iff; lia.
    + destruct (Z.compare_spec ex ey) as [E|E|E].
      * subst ey.
        assert (Hp : 0 < 2 ^ (ex - emin)) by (apply Z.pow_pos_nonneg; lia).
        rewrite <- Zmult_compare_compat_r, Pos2Z.inj_compare by lia.
        reflexivity.
      * apply Z.compare_lt_iff. exact (canonical_exp_lt _ _ _ _ _ _ Hx Hy E).
      * apply Z.compare_gt_iff.
        pose proof (canonical_exp_lt _ _ _ _ _ _ Hy Hx E). lia.
Qed.

(** When the bits shifted out are zero, rounding is exact. *)
Lemma binary_round_aux_exact sx q k e :
  0 < q -> 0 <= k ->
  fexp F64.prec F64.emax (Zdigits2 (q * 2 ^ k) + e) = e + k ->
  e + k <= F64.emax - F64.prec ->
  binary_round_aux F64.prec F64.emax sx (q * 2 ^ k) e loc_Exact
  = S754_finite sx (Z.to_pos q) (e + k).
Proof.
  intros Hq Hk Hf He. unfold binary_round_aux.
  assert (Hd : Zdigits2 (q * 2 ^ k) = Zdigits2 q + k) by (apply Zdigits2_mul_pow2; lia).
  assert (Hstep1 : shr_fexp F64.prec F64.emax (q * 2 ^ k) e loc_Exact
                   = (Build_shr_record q false false, e + k)).
  { destruct (Z.eq_dec k 0) as [->|Hne].
    - rewrite Z.mul_1_r, Z.add_0_r in *.
      destruct (shr_fexp_spec q e loc_Exact ltac:(lia)) as [Hnone _].
      rewrite Hnone by lia. reflexivity.
    - apply shr_fexp_exact; lia. }
  rewrite Hstep1. cbn [shr_m loc_of_shr_record round_nearest_even].
  destruct (shr_fexp_spec q (e + k) loc_Exact ltac:(lia)) as [Hnone _].
  rewrite Hnone by (rewrite Hd in Hf; replace (Zdigits2 q + (e + k))
                      with (Zdigits2 q + k + e) by lia; lia).
  cbn [shr_record_of_loc shr_m].
  destruct q as [|p|p]; try lia.
  apply Z.leb_le in He. rewrite He. reflexivity.
Qed.

(** [binary_round] returns the canonical float of a value that has one. *)
Lemma binary_round_canonical sx m e q e2 :
  emin <= e ->
  valid_binary F64.prec F64.emax (S754_finite sx q e2) = true ->
  Zpos m * 2 ^ (e - emin) = Zpos q * 2 ^ (e2 - emin) ->
  binary_round F64.prec F64.emax sx m e = S754_finite sx q e2.
Proof.
  intros He Hv Hval. destruct (valid_finite_inv _ _ _ Hv) as (He2 & Hd2 & Hc2).
  assert (Hmag : Zpos (digits2_pos m) + e = Zpos (digits2_pos q) + e2).
  { assert (H : Zdigits2 (Zpos m * 2 ^ (e - emin)) = Zdigits2 (Zpos q * 2 ^ (e2 - emin)))
      by (now rewrite Hval).
    rewrite !Zdigits2_mul_pow2 in H by lia. cbn [Zdigits2] in H. lia. }
  unfold binary_round. rewrite Hmag, <- Hc2.
  pose proof (shl_align_spec m e e2) as Hs.
  destruct (shl_align m e e2) as [mz ez]. destruct Hs as [Hlt Hge].
  destruct (Z_lt_le_dec e2 e) as [Hc|Hc].
  - destruct (Hlt Hc) as [Hm ->].
    assert (Hq : Zpos mz = Zpos q).
    { rewrite Hm. replace (e - emin) with ((e - e2) + (e2 - emin)) in Hval by lia.
      rewrite Z.pow_add_r, Z.mul_assoc in Hval by lia.
      apply Z.mul_reg_r in Hval; [exact Hval|]. apply Z.pow_nonzero; lia. }
    rewrite Hq.
    pose proof (binary_round_aux_exact sx (Zpos q) 0 e2 ltac:(lia) ltac:(lia)) as H.
    rewrite Z.mul_1_r, Z.add_0_r in H. cbn [Zdigits2 Z.to_pos] in H.
    apply H; [symmetry; exact Hc2 | lia].
  - destruct (Hge Hc) as [-> ->].
    assert (Hq : Zpos m = Zpos q * 2 ^ (e2 - e)).
    { replace (e2 - emin) with ((e2 - e) + (e - emin)) in Hval by lia.
      rewrite Z.pow_add_r, Z.mul_assoc in Hval by lia.
      apply Z.mul_reg_r in Hval; [exact Hval|]. apply Z.pow_nonzero; lia. }
    rewrite Hq.
    pose proof (binary_round_aux_exact sx (Zpos q) (e2 - e) e ltac:(lia) ltac:(lia)) as H.
    replace (e + (e2 - e)) with e2 in H by lia. cbn [Z.to_pos] in H.
    apply H; [|lia].
    rewrite Zdigits2_mul_pow2 by lia. cbn [Zdigits2].
    replace (Zpos (digits2_pos q) + (e2 - e) + e) with (Zpos (digits2_pos q) + e2) by lia.
    symmetry; exact Hc2.
Qed.

(** A float with an integer value is the conversion of that integer. *)
Lemma of_int_canonical x z :
  finite_ok x -> sval x = z * 2 ^ (- emin) -> z <> 0 -> F64.of_int z = x.
Proof.
  destruct x as [s|s| |s m e]; cbn [finite_ok sval]; intros Hx Hs Hz; try easy.
  - assert (0 < 2 ^ (- emin)) by (unfold emin; cbn; lia). nia.
  - destruct (valid_finite_inv _ _ _ Hx) as (He & _).
    pose proof (sval_pos_finite m e ltac:(lia)) as Hp.
    assert (Hpw : 0 < 2 ^ (- emin)) by (unfold emin; cbn; lia).
    unfold F64.of_int, binary_normalize.
    destruct z as [|p|p]; try lia; destruct s; cbn [cond_Zopp] in Hs; try nia.
    + apply binary_round_canonical; [unfold emin; lia | exact Hx |].
      rewrite Z.sub_0_l. lia.
    + apply binary_round_canonical; [unfold emin; lia | exact Hx |].
      rewrite Z.sub_0_l. lia.
Qed.

(** Integers below [2 ^ 53] in magnitude convert exactly. *)
Lemma of_int_small z :
  Z.abs z < 2 ^ F64.prec ->
  F64.of_int z = small_float z /\ finite_ok (F64.of_int z) /\ sval (F64.of_int z) = z * 2 ^ (- emin).
Proof.
  intros Hz. destruct (Z.eq_dec z 0) as [->|Hne]; [cbn; auto|].
  assert (Hd : 0 < Zdigits2 z <= F64.prec).
  { destruct z as [|p|p]; try lia; cbn [Zdigits2]; split; try lia;
      change (Zdigits2 (Zpos p) <= F64.prec); apply Zdigits2_le; unfold F64.prec in *; lia. }
  set (d := Zdigits2 z) in *.
  assert (Hpw : 0 < 2 ^ (F64.prec - d)) by (apply Z.pow_pos_nonneg; lia).
  assert (Hv : finite_ok (small_float z) /\ sval (small_float z) = z * 2 ^ (- emin)).
  { assert (Hdig : forall p, Zdigits2 (Zpos p) = d ->
                   Zdigits2 (Zpos p * 2 ^ (F64.prec - d)) = F64.prec).
    { intros p Hp. rewrite Zdigits2_mul_pow2 by lia. lia. }
    assert (Hval : forall p, Zpos p * 2 ^ (F64.prec - d) * 2 ^ (d - F64.prec - emin)
                            = Zpos p * 2 ^ (- emin)).
    { intros p. rewrite <- Z.mul_assoc, <- Z.pow_add_r by (unfold emin, F64.prec in *; lia).
      f_equal. f_equal. lia. }
    destruct z as [|p|p]; try lia; cbn [small_float finite_ok sval valid_binary];
      fold d; change (Zdigits2 (Zpos p)) with d || change (Zdigits2 (Zneg p)) with d.
    - specialize (Hdig p eq_refl).
      assert (Hpos : 0 < Zpos p * 2 ^ (F64.prec - d)) by nia.
      split.
      + unfold bounded, canonical_mantissa.
        rewrite andb_true_iff, Z.eqb_eq, Z.leb_le.
        change (Zpos (digits2_pos ?x)) with (Zdigits2 (Zpos x)).
        rewrite Z2Pos.id by exact Hpos. rewrite Hdig, fexp_eq.
        unfold F64.prec, F64.emax in *. lia.
      + cbn [cond_Zopp]. rewrite Z2Pos.id by exact Hpos. apply Hval.
    - specialize (Hdig p eq_refl).
      assert (Hpos : 0 < Zpos p * 2 ^ (F64.prec - d)) by nia.
      change (- Zneg p) with (Zpos p).
      split.
      + unfold bounded, canonical_mantissa.
        rewrite andb_true_iff, Z.eqb_eq, Z.leb_le.
        change (Zpos (digits2_pos ?x)) with (Zdigits2 (Zpos x)).
        rewrite Z2Pos.id by exact Hpos. rewrite Hdig, fexp_eq.
        unfold F64.prec, F64.emax in *. lia.
      + cbn [cond_Zopp]. rewrite Z2Pos.id by exact Hpos. rewrite Hval.
        change (Zneg p) with (- Zpos p). ring. }
  destruct Hv as [Hok Hs].
  rewrite (of_int_canonical _ _ Hok Hs Hne). auto.
Qed.

(** ** Arithmetic on scaled values *)

Lemma approx_mag_weaken sgn b b' r :
  approx_mag sgn b r -> b <= b' -> approx_mag sgn b' r.
Proof. unfold approx_mag; intuition lia. Qed.

Lemma finite_approx x : finite_ok x -> approx_mag (sval x) (lmag x) x.
Proof. unfold approx_mag; intuition lia. Qed.

Lemma Zdigits2_abs_scaled S k :
  S <> 0 -> 0 <= k -> Zdigits2 (Z.abs (S * 2 ^ k)) = Zdigits2 (Z.abs S) + k.
Proof.
  intros HS Hk. assert (0 < 2 ^ k) by (apply Z.pow_pos_nonneg; lia).
  rewrite Z.abs_mul, (Z.abs_eq (2 ^ k)) by lia.
  apply Zdigits2_mul_pow2; lia.
Qed.

Lemma Zdigits2_abs_pos p : Zdigits2 (Z.abs (Zpos p)) = Zpos (digits2_pos p).
Proof. reflexivity. Qed.

Lemma binary_normalize_approx S ez szero :
  emin <= ez ->
  (S <> 0 -> Zdigits2 (Z.abs S) + ez <= F64.emax - 1) ->
  approx (S * 2 ^ (ez - emin)) (binary_normalize F64.prec F64.emax S ez szero).
Proof.
  intros He Hb. unfold approx.
  assert (Hpw : 0 < 2 ^ (ez - emin)) by (apply Z.pow_pos_nonneg; lia).
  destruct S as [|p|p]; unfold binary_normalize.
  - cbn. unfold approx_mag; cbn. repeat split; lia.
  - rewrite Zdigits2_abs_scaled by lia. specialize (Hb ltac:(lia)).
    cbn [Z.abs Zdigits2] in *.
    destruct (binary_round_spec false p ez) as (Hr & Hf & Hv).
    pose proof (Pos2Z.is_pos (digits2_pos p)).
    destruct (rounded_sval _ _ _ Hr Hv (Hf ltac:(lia)) ltac:(lia)) as (Hok & Hs & Hm).
    repeat split; try assumption; try lia.
  - rewrite Zdigits2_abs_scaled by lia. specialize (Hb ltac:(lia)).
    cbn [Z.abs Zdigits2] in *.
    destruct (binary_round_spec true p ez) as (Hr & Hf & Hv).
    pose proof (Pos2Z.is_pos (digits2_pos p)).
    destruct (rounded_sval _ _ _ Hr Hv (Hf ltac:(lia)) ltac:(lia)) as (Hok & Hs & Hm).
    repeat split; try assumption; try lia.
Qed.

Lemma shl_align_value m e ez :
  ez <= e -> emin <= ez ->
  Zpos (fst (shl_align m e ez)) * 2 ^ (ez - emin) = Zpos m * 2 ^ (e - emin).
Proof.
  intros Hle He. pose proof (shl_align_spec m e ez) as Hs.
  destruct (shl_align m e ez) as [m' e']. destruct Hs as [Hlt Hge]. cbn [fst].
  destruct (Z_lt_le_dec ez e) as [Hc|Hc].
  - destruct (Hlt Hc) as [-> _].
    rewrite <- Z.mul_assoc, <- Z.pow_add_r by lia. f_equal. f_equal. lia.
  - destruct (Hge Hc) as [-> _]. replace ez with e by lia. reflexivity.
Qed.

Lemma cond_Zopp_mul s a b : cond_Zopp s a * b = cond_Zopp s (a * b).
Proof. destruct s; cbn [cond_Zopp]; ring. Qed.

Lemma finite_exp_ge s m e : finite_ok (S754_finite s m e) -> emin <= e.
Proof. intros H. now destruct (valid_finite_inv _ _ _ H) as ((? & _) & _). Qed.

Lemma align_sum_fits S ez s :
  emin <= ez -> s = S * 2 ^ (ez - emin) -> magnitude_fits s ->
  S <> 0 -> Zdigits2 (Z.abs S) + ez <= F64.emax - 1.
Proof.
  unfold magnitude_fits. intros He -> Hf Hne.
  rewrite Zdigits2_abs_scaled in Hf by lia. lia.
Qed.

Lemma add_approx x y :
  finite_ok x -> finite_ok y -> magnitude_fits (sval x + sval y) ->
  approx (sval x + sval y) (F64.add x y).
Proof.
  intros Hx Hy Hfit. unfold F64.add.
  destruct x as [sx|sx| |sx mx ex], y as [sy|sy| |sy my ey];
    cbn [finite_ok] in Hx, Hy; try easy.
  - cbn [SFadd sval]. destruct sx, sy; cbn; unfold approx, approx_mag; cbn;
      repeat split; lia.
  - cbn [SFadd]. change (sval (S754_zero sx)) with 0. rewrite Z.add_0_l.
    eapply approx_mag_weaken; [apply finite_approx; exact Hy|]. unfold lmag; lia.
  - cbn [SFadd]. change (sval (S754_zero sy)) with 0. rewrite Z.add_0_r.
    eapply approx_mag_weaken; [apply finite_approx; exact Hx|]. unfold lmag; lia.
  - pose proof (finite_exp_ge _ _ _ Hx) as Hex.
    pose proof (finite_exp_ge _ _ _ Hy) as Hey.
    cbn [SFadd]. set (ez := Z.min ex ey).
    set (S := cond_Zopp sx (Zpos (fst (shl_align mx ex ez)))
              + cond_Zopp sy (Zpos (fst (shl_align my ey ez)))).
    assert (HS : sval (S754_finite sx mx ex) + sval (S754_finite sy my ey)
                 = S * 2 ^ (ez - emin)).
    { subst S. cbn [sval]. rewrite Z.mul_add_distr_r, !cond_Zopp_mul.
      rewrite !shl_align_value by (subst ez; lia). reflexivity. }
    rewrite HS in *. apply binary_normalize_approx; [subst ez; lia|].
    eapply align_sum_fits; [| reflexivity | exact Hfit]. subst ez; lia.
Qed.

Lemma sub_approx x y :
  finite_ok x -> finite_ok y -> magnitude_fits (sval x - sval y) ->
  approx (sval x - sval y) (F64.sub x y).
Proof.
  intros Hx Hy Hfit. unfold F64.sub.
  destruct x as [sx|sx| |sx mx ex], y as [sy|sy| |sy my ey];
    cbn [finite_ok] in Hx, Hy; try easy.
  - cbn [SFsub sval]. destruct sx, sy; cbn; unfold approx, approx_mag; cbn;
      repeat split; lia.
  - cbn [SFsub]. change (sval (S754_zero sx)) with 0. rewrite Z.sub_0_l.
    pose proof (finite_exp_ge _ _ _ Hy) as Hey.
    pose proof (sval_pos_finite my ey Hey) as Hp.
    unfold approx, approx_mag, lmag. cbn [finite_ok sval].
    replace (cond_Zopp (negb sy) (Zpos my * 2 ^ (ey - emin)))
      with (- cond_Zopp sy (Zpos my * 2 ^ (ey - emin)))
      by (destruct sy; cbn [negb cond_Zopp]; lia).
    rewrite !Z.abs_opp. repeat split; try lia.
    revert Hy. cbn [valid_binary]. auto.
  - cbn [SFsub]. change (sval (S754_zero sy)) with 0. rewrite Z.sub_0_r.
    eapply approx_mag_weaken; [apply finite_approx; exact Hx|]. unfold lmag; lia.
  - pose proof (finite_exp_ge _ _ _ Hx) as Hex.
    pose proof (finite_exp_ge _ _ _ Hy) as Hey.
    cbn [SFsub]. set (ez := Z.min ex ey).
    set (S := cond_Zopp sx (Zpos (fst (shl_align mx ex ez)))
              - cond_Zopp sy (Zpos (fst (shl_align my ey ez)))).
    assert (HS : sval (S754_finite sx mx ex) - sval (S754_finite sy my ey)
                 = S * 2 ^ (ez - emin)).
    { subst S. cbn [sval]. rewrite Z.mul_sub_distr_r, !cond_Zopp_mul.
      rewrite !shl_align_value by (subst ez; lia). reflexivity. }
    rewrite HS in *. apply binary_normalize_approx; [subst ez; lia|].
    eapply align_sum_fits; [| reflexivity | exact Hfit]. subst ez; lia.
Qed.

Lemma Zdigits2_mul a b :
  0 < a -> 0 < b ->
  Zdigits2 a + Zdigits2 b - 1 <= Zdigits2 (a * b) <= Zdigits2 a + Zdigits2 b.
Proof.
  intros Ha Hb.
  pose proof (Zdigits2_bounds a Ha) as [Hla Hha].
  pose proof (Zdigits2_bounds b Hb) as [Hlb Hhb].
  pose proof (Zdigits2_pos a Ha). pose proof (Zdigits2_pos b Hb).
  assert (Hpa : 0 < 2 ^ (Zdigits2 a - 1)) by (apply Z.pow_pos_nonneg; lia).
  assert (Hpb : 0 < 2 ^ (Zdigits2 b - 1)) by (apply Z.pow_pos_nonneg; lia).
  split.
  - apply Zdigits2_ge; [nia|].
    replace (Zdigits2 a + Zdigits2 b - 1 - 1)
      with ((Zdigits2 a - 1) + (Zdigits2 b - 1)) by lia.
    rewrite Z.pow_add_r by lia. nia.
  - apply Zdigits2_le; [nia | lia |].
    rewrite Z.pow_add_r by lia. nia.
Qed.

Lemma lmag_finite s m e :
  finite_ok (S754_finite s m e) ->
  lmag (S754_finite s m e) = Zpos (digits2_pos m) + e - emin.
Proof.
  intros H. unfold lmag. apply sval_finite_digits. eapply finite_exp_ge; exact H.
Qed.

Lemma sval_sign s m e :
  finite_ok (S754_finite s m e) ->
  if s then sval (S754_finite s m e) < 0 else 0 < sval (S754_finite s m e).
Proof.
  intros H. pose proof (sval_pos_finite m e (finite_exp_ge _ _ _ H)).
  cbn [sval]. destruct s; cbn [cond_Zopp]; lia.
Qed.

Lemma mul_approx x y :
  finite_ok x -> finite_ok y ->
  lmag x + lmag y + emin <= F64.emax - emin - 1 ->
  approx_mag (sval x * sval y) (Z.max (lmag x + lmag y + emin) 0 + 1) (F64.mul x y).
Proof.
  intros Hx Hy Hfit. unfold F64.mul.
  destruct x as [sx|sx| |sx mx ex], y as [sy|sy| |sy my ey];
    cbn [finite_ok] in Hx, Hy; try easy;
    try (cbn [SFmul]; unfold approx_mag; cbn [finite_ok sval lmag];
         rewrite ?Z.mul_0_l, ?Z.mul_0_r; cbn; repeat split; lia).
  cbn [SFmul].
  rewrite !lmag_finite in * by assumption.
  destruct (valid_finite_inv _ _ _ Hx) as (Hex & Hdx & Hcx).
  destruct (valid_finite_inv _ _ _ Hy) as (Hey & Hdy & Hcy).
  pose proof (Zdigits2_mul (Zpos mx) (Zpos my) ltac:(lia) ltac:(lia)) as HD.
  change (Zpos mx * Zpos my) with (Zpos (mx * my)) in HD. cbn [Zdigits2] in HD.
  pose proof (Pos2Z.is_pos (digits2_pos mx)). pose proof (Pos2Z.is_pos (digits2_pos my)).
  destruct (binary_round_aux_spec (xorb sx sy) (Zpos (mx * my)) (ex + ey) loc_Exact
              ltac:(lia)) as (Hr & Hf & Hv).
  cbn [Zdigits2] in Hr, Hf, Hv. rewrite fexp_eq in *.
  unfold F64.prec, F64.emax, emin in *.
  specialize (Hf ltac:(lia) ltac:(lia)). specialize (Hv ltac:(lia)).
  destruct (rounded_sval _ _ _ Hr Hv Hf ltac:(unfold emin; lia)) as (Hok & Hs & Hm).
  pose proof (sval_sign _ _ _ Hx) as Sx. pose proof (sval_sign _ _ _ Hy) as Sy.
  unfold approx_mag. split; [exact Hok|]. unfold emin in *.
  destruct sx, sy; cbn [xorb] in *; repeat split; intros; try lia; try nia.
Qed.

(** The quotient and exponent that [SFdiv] hands to the rounding step. *)
Lemma div_core_spec m1 e1 m2 e2 :
  0 < m1 -> 0 < m2 ->
  let X := Zdigits2 m1 + e1 - (Zdigits2 m2 + e2) in
  let '(q, e', l) := SFdiv_core_binary F64.prec F64.emax m1 e1 m2 e2 in
  0 <= q /\
  e' <= fexp F64.prec F64.emax (Zdigits2 q + e') /\
  (0 < q -> Zdigits2 q + e' <= X + 1) /\
  e' <= fexp F64.prec F64.emax X.
Proof.
  intros H1 H2 X. unfold SFdiv_core_binary. fold X.
  set (e' := Z.min (fexp F64.prec F64.emax X) (e1 - e2)).
  set (s := e1 - e2 - e').
  assert (Hs : 0 <= s) by (subst s e'; lia).
  set (m' := match s with Zpos _ => Z.shiftl m1 s | Z0 => m1 | Zneg _ => 0 end).
  assert (Hm' : m' = m1 * 2 ^ s).
  { subst m'. destruct s as [|p|p] eqn:E; try lia.
    rewrite Z.shiftl_mul_pow2 by lia. reflexivity. }
  clearbody m'.
  pose proof (Z.div_eucl_eq m' m2 ltac:(lia)) as Heq.
  pose proof (Z.mod_pos_bound m' m2 H2) as Hmod. unfold Z.modulo in Hmod.
  destruct (Z.div_eucl m' m2) as [q r].
  pose proof (Zdigits2_bounds m1 H1) as [Hl1 Hh1].
  pose proof (Zdigits2_bounds m2 H2) as [Hl2 Hh2].
  pose proof (Zdigits2_pos m1 H1) as Hd1. pose proof (Zdigits2_pos m2 H2) as Hd2.
  set (d1 := Zdigits2 m1) in *. set (d2 := Zdigits2 m2) in *.
  assert (Hps : 0 < 2 ^ s) by (apply Z.pow_pos_nonneg; lia).
  assert (Hq0 : 0 <= q) by nia.
  assert (Hup : 0 < q -> Zdigits2 q <= d1 + s - d2 + 1).
  { intros Hq.
    assert (Hlt : q * 2 ^ (d2 - 1) < 2 ^ (d1 + s)).
    { rewrite Z.pow_add_r by lia. nia. }
    assert (Hge : d2 - 1 < d1 + s).
    { apply pow2_lt_inv; [lia|]. nia. }
    apply Zdigits2_le; [lia | lia |].
    replace (d1 + s - d2 + 1) with ((d1 + s) - (d2 - 1)) by lia.
    assert (Hsplit : 2 ^ (d1 + s) = 2 ^ (d1 + s - (d2 - 1)) * 2 ^ (d2 - 1)).
    { rewrite <- Z.pow_add_r by lia. f_equal. lia. }
    assert (0 < 2 ^ (d2 - 1)) by (apply Z.pow_pos_nonneg; lia).
    rewrite Hsplit in Hlt. nia. }
  assert (Hlow : 1 <= d1 + s - d2 -> d1 + s - d2 <= Zdigits2 q).
  { intros Ha.
    assert (Hq : 2 ^ (d1 + s - d2 - 1) <= q).
    { assert (Hsplit : 2 ^ (d1 - 1 + s) = 2 ^ (d1 + s - d2 - 1) * 2 ^ d2).
      { rewrite <- Z.pow_add_r by lia. f_equal. lia. }
      assert (Hm1 : 2 ^ (d1 - 1 + s) <= m').
      { rewrite Hm', Z.pow_add_r by lia. nia. }
      assert (0 < 2 ^ (d1 + s - d2 - 1)) by (apply Z.pow_pos_nonneg; lia).
      set (A := 2 ^ (d1 + s - d2 - 1)) in *.
      destruct (Z_le_gt_dec A q); [assumption|].
      assert (q + 1 <= A) by lia.
      assert (m' < (q + 1) * m2) by nia.
      assert ((q + 1) * m2 <= A * m2) by (apply Z.mul_le_mono_nonneg_r; lia).
      assert (A * m2 < A * 2 ^ d2) by (apply Z.mul_lt_mono_pos_l; lia).
      lia. }
    apply Zdigits2_ge; [|exact Hq].
    assert (0 < 2 ^ (d1 + s - d2 - 1)) by (apply Z.pow_pos_nonneg; lia). lia. }
  pose proof (Zdigits2_nonneg q) as Hdq.
  split; [exact Hq0|]. split; [|split].
  - destruct (Z_le_gt_dec 1 (d1 + s - d2)) as [Ha|Ha].
    + specialize (Hlow Ha).
      pose proof (fexp_mono X (Zdigits2 q + e') ltac:(subst X s; lia)).
      subst e'. lia.
    + rewrite fexp_eq. subst s e' X. rewrite fexp_eq in *.
      unfold F64.prec, emin in *. lia.
  - intros Hq. specialize (Hup Hq). subst s X. lia.
  - subst e'. lia.
Qed.

Lemma div_approx x y :
  finite_ok x -> finite_ok y -> sval y <> 0 ->
  lmag x - lmag y <= F64.emax - 2 ->
  approx_mag (sval x * sval y) (Z.max (lmag x - lmag y + 1 - emin) 0 + 1)
    (F64.div x y).
Proof.
  intros Hx Hy Hne Hfit. unfold F64.div.
  destruct x as [sx|sx| |sx mx ex], y as [sy|sy| |sy my ey];
    cbn [finite_ok] in Hx, Hy; try easy;
    try (cbn [sval] in Hne; lia).
  - cbn [SFdiv]. unfold approx_mag; cbn [finite_ok sval lmag].
    rewrite Z.mul_0_l. cbn. repeat split; lia.
  - cbn [SFdiv].
    rewrite !lmag_finite in * by assumption.
    pose proof (div_core_spec (Zpos mx) ex (Zpos my) ey ltac:(lia) ltac:(lia)) as Hc.
    cbv zeta in Hc. cbn [Zdigits2] in Hc.
    destruct (SFdiv_core_binary F64.prec F64.emax (Zpos mx) ex (Zpos my) ey)
      as [[q e'] l].
    destruct Hc as (Hq & Hpre & Hup & He').
    destruct (binary_round_aux_spec (xorb sx sy) q e' l Hq) as (Hr & Hf & Hv).
    pose proof (Zdigits2_nonneg q) as Hdq.
    rewrite fexp_eq in *. unfold F64.prec, F64.emax, emin in *.
    assert (Hb : Z.max (Zdigits2 q + e') (-1074) + 1 <= 1024).
    { destruct (Z.eq_dec q 0) as [->|Hq']; [cbn [Zdigits2]; lia|].
      specialize (Hup ltac:(lia)). lia. }
    specialize (Hf ltac:(lia) Hb). specialize (Hv Hpre).
    destruct (rounded_sval _ _ _ Hr Hv Hf ltac:(unfold emin; lia)) as (Hok & Hs & Hm).
    pose proof (sval_sign _ _ _ Hx) as Sx. pose proof (sval_sign _ _ _ Hy) as Sy.
    unfold approx_mag. split; [exact Hok|]. unfold emin in *.
    assert (Hmag : lmag (binary_round_aux 53 1024 (xorb sx sy) q e' l)
                   <= Z.max (Zpos (digits2_pos mx) + ex - -1074
                             - (Zpos (digits2_pos my) + ey - -1074) + 1 - -1074) 0 + 1).
    { destruct (Z.eq_dec q 0) as [E|E].
      - subst q. cbn [Zdigits2] in Hm. lia.
      - specialize (Hup ltac:(lia)). lia. }
    destruct sx, sy; cbn [xorb] in *; repeat split; intros; try lia; try nia.
Qed.

Lemma div_pow2_pos m k :
  0 < m -> 0 <= k -> k < Zdigits2 m -> 0 < m / 2 ^ k.
Proof.
  intros Hm Hk Hlt. pose proof (Zdigits2_bounds m Hm) as [Hlo _].
  apply Z.div_str_pos. split; [apply Z.pow_pos_nonneg; lia|].
  eapply Z.le_trans; [|exact Hlo]. apply Z.pow_le_mono_r; lia.
Qed.

(** Above the subnormal threshold, rounding never produces a zero. *)
Lemma renormalise_nonzero sx m1 e1 :
  0 < m1 -> emin < Zdigits2 m1 + e1 ->
  is_zero
    (let '(mrs, e2) := shr_fexp F64.prec F64.emax m1 e1 loc_Exact in
     match shr_m mrs with
     | Z0 => S754_zero sx
     | Zpos m => if e2 <=? F64.emax - F64.prec then S754_finite sx m e2 else S754_infinity sx
     | Zneg _ => S754_nan
     end) = false.
Proof.
  intros Hm Hmag.
  destruct (shr_fexp_spec m1 e1 loc_Exact ltac:(lia)) as [Hnone Hshift].
  set (k := fexp F64.prec F64.emax (Zdigits2 m1 + e1) - e1) in *.
  destruct (Z_le_gt_dec k 0) as [Hk|Hk].
  - rewrite (Hnone Hk); cbn [shr_record_of_loc shr_m].
    destruct m1 as [|p|p]; try lia. destruct (e1 <=? _); reflexivity.
  - destruct (Hshift ltac:(lia)) as (mrs & -> & Hq). rewrite Hq.
    assert (Hlt : k < Zdigits2 m1).
    { subst k. rewrite fexp_eq. unfold F64.prec, emin in *. lia. }
    pose proof (div_pow2_pos m1 k Hm ltac:(lia) Hlt) as Hpos.
    destruct (m1 / 2 ^ k) as [|p|p]; try lia. destruct (_ <=? _); reflexivity.
Qed.

Lemma binary_round_aux_nonzero sx m e l :
  0 < m -> emin < Zdigits2 m + e ->
  is_zero (binary_round_aux F64.prec F64.emax sx m e l) = false.
Proof.
  intros Hm Hmag. unfold binary_round_aux.
  destruct (shr_fexp_spec m e l ltac:(lia)) as [Hnone Hshift].
  set (k := fexp F64.prec F64.emax (Zdigits2 m + e) - e) in *.
  destruct (Z_le_gt_dec k 0) as [Hk|Hk].
  - rewrite (Hnone Hk), shr_record_of_loc_m.
    set (m1 := round_nearest_even m _).
    assert (Hm1 : m1 = m \/ m1 = m + 1) by apply round_nearest_even_cases.
    pose proof (Zdigits2_succ m ltac:(lia)) as Hs.
    apply renormalise_nonzero; [lia|].
    destruct Hm1 as [-> | ->]; lia.
  - destruct (Hshift ltac:(lia)) as (mrs & -> & Hq). rewrite Hq.
    assert (Hlt : k < Zdigits2 m).
    { subst k. rewrite fexp_eq. unfold F64.prec, emin in *. lia. }
    pose proof (div_pow2_pos m k Hm ltac:(lia) Hlt) as Hpos.
    pose proof (Zdigits2_div_pow2 m k Hm ltac:(lia) Hlt) as Hd.
    set (q := m / 2 ^ k) in *.
    set (m1 := round_nearest_even q _).
    assert (Hm1 : m1 = q \/ m1 = q + 1) by apply round_nearest_even_cases.
    pose proof (Zdigits2_succ q ltac:(lia)) as Hs.
    apply renormalise_nonzero; [lia|].
    destruct Hm1 as [-> | ->]; lia.
Qed.

Lemma binary_round_nonzero sx m e :
  emin < Zpos (digits2_pos m) + e ->
  is_zero (binary_round F64.prec F64.emax sx m e) = false.
Proof.
  intros Hmag. unfold binary_round.
  pose proof (shl_align_spec m e (fexp F64.prec F64.emax (Zpos (digits2_pos m) + e))) as Hs.
  destruct (shl_align m e _) as [mz ez]. destruct Hs as [Hlt Hge].
  apply binary_round_aux_nonzero; [lia|]. cbn [Zdigits2].
  destruct (Z_lt_le_dec (fexp F64.prec F64.emax (Zpos (digits2_pos m) + e)) e) as [Hc|Hc].
  - destruct (Hlt Hc) as [Hm He].
    change (emin < Zdigits2 (Zpos mz) + ez). rewrite Hm, He.
    rewrite Zdigits2_mul_pow2 by lia. cbn [Zdigits2]. lia.
  - destruct (Hge Hc) as [-> ->]. exact Hmag.
Qed.

(** The conversion of any integer of moderate size. *)
Lemma of_int_approx z :
  Zdigits2 (Z.abs z) <= F64.emax - 1 ->
  approx (z * 2 ^ (- emin)) (F64.of_int z) /\
  (z <> 0 -> sval (F64.of_int z) <> 0).
Proof.
  intros Hz. split.
  - unfold F64.of_int.
    pose proof (binary_normalize_approx z 0 false ltac:(unfold emin; lia)
                  ltac:(intros; lia)) as H.
    rewrite Z.sub_0_l in H. exact H.
  - intros Hne. unfold F64.of_int, binary_normalize.
    destruct z as [|p|p]; try lia.
    + pose proof (binary_round_nonzero false p 0
                    ltac:(pose proof (Pos2Z.is_pos (digits2_pos p)); unfold emin; lia)) as Hnz.
      destruct (binary_round_spec false p 0) as (Hr & Hf & Hv).
      cbn [Z.abs Zdigits2] in Hz. specialize (Hf ltac:(unfold emin, F64.emax in *; lia)).
      destruct (binary_round F64.prec F64.emax false p 0) as [s|s| |s m e] eqn:E;
        try discriminate; [inversion Hr|].
      pose proof (sval_sign s m e Hv). destruct s; lia.
    + pose proof (binary_round_nonzero true p 0
                    ltac:(pose proof (Pos2Z.is_pos (digits2_pos p)); unfold emin; lia)) as Hnz.
      destruct (binary_round_spec true p 0) as (Hr & Hf & Hv).
      cbn [Z.abs Zdigits2] in Hz. specialize (Hf ltac:(unfold emin, F64.emax in *; lia)).
      destruct (binary_round F64.prec F64.emax true p 0) as [s|s| |s m e] eqn:E;
        try discriminate; [inversion Hr|].
      pose proof (sval_sign s m e Hv). destruct s; lia.
Qed.

Lemma SC_pos : 0 < SC.
Proof. unfold SC, emin. apply Z.pow_pos_nonneg; lia. Qed.

Lemma ltb_sval x y :
  finite_ok x -> finite_ok y -> F64.ltb x y = (sval x <? sval y).
Proof.
  intros Hx Hy. unfold F64.ltb, SFltb. rewrite (compare_sval x y Hx Hy).
  unfold Z.ltb. destruct (sval x ?= sval y); reflexivity.
Qed.

Lemma leb_sval x y :
  finite_ok x -> finite_ok y -> F64.leb x y = (sval x <=? sval y).
Proof.
  intros Hx Hy. unfold F64.leb, SFleb. rewrite (compare_sval x y Hx Hy).
  unfold Z.leb. destruct (sval x ?= sval y); reflexivity.
Qed.

Lemma eqb_sval x y :
  finite_ok x -> finite_ok y -> F64.eqb x y = (sval x =? sval y).
Proof.
  intros Hx Hy. unfold F64.eqb, SFeqb. rewrite (compare_sval x y Hx Hy).
  rewrite Z.eqb_compare. reflexivity.
Qed.

Lemma max_sval x y :
  finite_ok x -> finite_ok y ->
  finite_ok (F64.max x y) /\ sval (F64.max x y) = Z.max (sval x) (sval y).
Proof.
  intros Hx Hy.
  assert (Hgen : finite_ok (if F64.ltb y x then x else y) /\
                 sval (if F64.ltb y x then x else y) = Z.max (sval x) (sval y)).
  { rewrite (ltb_sval y x Hy Hx). destruct (Z.ltb_spec (sval y) (sval x)); split;
      try assumption; lia. }
  destruct x as [sx|sx| |sx mx ex], y as [sy|sy| |sy my ey];
    cbn [finite_ok] in Hx, Hy; try easy; try exact Hgen.
  cbn [F64.max]. destruct sx; cbn; auto.
Qed.

Lemma to_int_sval x :
  finite_ok x ->
  Int64.min_int * SC <= sval x < (Int64.max_int + 1) * SC ->
  F64.to_int x = Z.quot (sval x) SC.
Proof.
  intros Hx Hr. unfold F64.to_int. rewrite (trunc_sval x Hx). fold SC.
  pose proof SC_pos as Hsc.
  assert (Hin : Int64.in_range (Z.quot (sval x) SC) = true).
  { unfold Int64.in_range. rewrite andb_true_iff, !Z.leb_le.
    unfold Int64.min_int, Int64.max_int in *.
    destruct (Z_le_gt_dec 0 (sval x)) as [Hs|Hs].
    - rewrite Z.quot_div_nonneg by lia. split.
      + pose proof (Z.div_pos (sval x) SC Hs Hsc). lia.
      + assert (sval x / SC < 2 ^ 63 - 1 + 1); [|lia].
        apply Z.div_lt_upper_bound; lia.
    - assert (E : sval x ÷ SC = - ((- sval x) / SC)).
      { rewrite <- (Z.opp_involutive (sval x)) at 1.
        rewrite Z.quot_opp_l by lia. rewrite Z.quot_div_nonneg by lia. reflexivity. }
      rewrite E. split.
      + assert (- sval x / SC <= 2 ^ 63); [|lia].
        apply Z.div_le_upper_bound; lia.
      + pose proof (Z.div_pos (- sval x) SC ltac:(lia) Hsc). lia. }
  rewrite Hin. reflexivity.
Qed.

Lemma to_int_exact x z :
  finite_ok x -> sval x = z * SC -> Int64.min_int <= z <= Int64.max_int ->
  F64.to_int x = z.
Proof.
  intros Hx Hs Hz. pose proof SC_pos.
  rewrite to_int_sval by (try assumption; rewrite Hs; unfold Int64.min_int, Int64.max_int in *; nia).
  rewrite Hs. apply Z.quot_mul. lia.
Qed.

Lemma to_int_nonneg x k :
  finite_ok x -> 0 <= sval x < 2 ^ k * SC -> 0 <= k <= 63 ->
  F64.to_int x = sval x / SC /\ 0 <= F64.to_int x < 2 ^ k.
Proof.
  intros Hx Hs Hk. pose proof SC_pos as Hsc.
  assert (Hp : 2 ^ k <= 2 ^ 63) by (apply Z.pow_le_mono_r; lia).
  rewrite to_int_sval; [|assumption|unfold Int64.min_int, Int64.max_int; nia].
  rewrite Z.quot_div_nonneg by lia. split; [reflexivity|]. split.
  - apply Z.div_pos; lia.
  - apply Z.div_lt_upper_bound; lia.
Qed.

Lemma approx_mag_bound sgn b r :
  approx_mag sgn b r -> Z.abs (sval r) < 2 ^ b.
Proof.
  intros (_ & _ & _ & Hm). pose proof (sval_lt_lmag r). pose proof (lmag_nonneg r).
  eapply Z.lt_le_trans; [eassumption|]. apply Z.pow_le_mono_r; lia.
Qed.

Lemma Zdigits2_abs_le s k : 0 <= k -> Z.abs s < 2 ^ k -> Zdigits2 (Z.abs s) <= k.
Proof.
  intros Hk H. destruct (Z.eq_dec (Z.abs s) 0) as [->|Hne]; [cbn; lia|].
  apply Zdigits2_le; lia.
Qed.

(** What rounding an exact value [s] of at most [k] digits gives. *)
Lemma approx_le s k r :
  approx s r -> 0 <= k -> Z.abs s < 2 ^ k ->
  finite_ok r /\ (0 <= s -> 0 <= sval r) /\ (s <= 0 -> sval r <= 0) /\
  Z.abs (sval r) < 2 ^ (k + 1).
Proof.
  intros H Hk Hs. pose proof (Zdigits2_abs_le s k Hk Hs) as Hd.
  pose proof (approx_mag_bound _ _ _ (approx_mag_weaken _ _ (k + 1) _ H ltac:(lia))).
  destruct H as (Hok & Hp & Hn & _). auto.
Qed.

Lemma magnitude_fits_le s k :
  0 <= k <= F64.emax - emin - 1 -> Z.abs s < 2 ^ k -> magnitude_fits s.
Proof.
  intros Hk Hs. unfold magnitude_fits.
  pose proof (Zdigits2_abs_le s k ltac:(lia) Hs). lia.
Qed.

Lemma mul_half s m e :
  finite_ok (S754_finite s m e) -> Zpos (digits2_pos m) = F64.prec -> emin < e ->
  F64.mul (S754_finite s m e) F64.half = S754_finite s m (e - 1) /\
  finite_ok (S754_finite s m (e - 1)).
Proof.
  intros Hx Hd He. destruct (valid_finite_inv _ _ _ Hx) as (Hex & _ & _).
  unfold F64.mul, F64.half. cbn [SFmul]. rewrite xorb_false_r.
  change (Zpos (m * 4503599627370496)) with (Zpos m * 2 ^ 52).
  pose proof (binary_round_aux_exact s (Zpos m) 52 (e + -53) ltac:(lia) ltac:(lia)) as H.
  replace (e + -53 + 52) with (e - 1) in H by lia. cbn [Z.to_pos] in H.
  split.
  - apply H; [|unfold F64.emax, F64.prec in *; lia].
    rewrite Zdigits2_mul_pow2 by lia. cbn [Zdigits2]. rewrite Hd, fexp_eq.
    unfold F64.prec, emin in *. lia.
  - cbn [finite_ok valid_binary]. unfold bounded, canonical_mantissa.
    rewrite andb_true_iff, Z.eqb_eq, Z.leb_le, Hd, fexp_eq.
    unfold F64.prec, F64.emax, emin in *. lia.
Qed.

(** Halving a small non-negative integer in floating point is exact. *)
Lemma mul_half_small z :
  0 <= z < 2 ^ F64.prec ->
  finite_ok (F64.mul (F64.of_int z) F64.half) /\
  2 * sval (F64.mul (F64.of_int z) F64.half) = z * SC.
Proof.
  intros Hz. destruct (Z.eq_dec z 0) as [->|Hne]; [cbn; auto|].
  destruct (of_int_small z ltac:(lia)) as (Hsm & Hok & Hs).
  rewrite Hsm in *. destruct z as [|p|p]; try lia. cbn [small_float] in *.
  set (d := Zdigits2 (Zpos p)) in *.
  assert (Hd : 0 < d <= F64.prec).
  { subst d. split; [cbn; lia|]. apply Zdigits2_le; unfold F64.prec in *; lia. }
  set (m := Z.to_pos (Zpos p * 2 ^ (F64.prec - d))) in *.
  assert (Hm : Zpos m = Zpos p * 2 ^ (F64.prec - d)).
  { subst m. apply Z2Pos.id.
    assert (0 < 2 ^ (F64.prec - d)) by (apply Z.pow_pos_nonneg; lia). nia. }
  assert (Hdm : Zpos (digits2_pos m) = F64.prec).
  { change (Zdigits2 (Zpos m) = F64.prec). rewrite Hm, Zdigits2_mul_pow2 by lia.
    fold d. lia. }
  destruct (mul_half false m (d - F64.prec) Hok Hdm
              ltac:(unfold emin, F64.prec in *; lia)) as [-> Hok'].
  split; [exact Hok'|].
  unfold SC. cbn [sval cond_Zopp] in *. rewrite <- Hs.
  replace (d - F64.prec - emin) with ((d - F64.prec - 1 - emin) + 1)
    by lia.
  rewrite (Z.pow_add_r 2 (d - F64.prec - 1 - emin) 1) by (unfold emin, F64.prec in *; lia).
  change (2 ^ 1) with 2. ring.
Qed.

(** The integer part of a canonical float converts back exactly. *)
Lemma of_int_trunc_exact x :
  finite_ok x ->
  let z := Z.quot (sval x) SC in
  finite_ok (F64.of_int z) /\ sval (F64.of_int z) = z * SC.
Proof.
  intros Hx z. pose proof SC_pos as Hsc.
  destruct x as [s|s| |s m e]; cbn [finite_ok] in Hx; try contradiction.
  - assert (E : z = 0) by (subst z; apply Z.quot_0_l; lia).
    rewrite E. cbn; auto.
  - destruct (valid_finite_inv _ _ _ Hx) as (He & Hd & Hc).
    pose proof (sval_pos_finite m e ltac:(lia)) as Hp.
    destruct (Z_le_gt_dec 0 e) as [Hpos|Hneg].
    + assert (Hz : sval (S754_finite s m e) = z * SC).
      { subst z. cbn [sval]. unfold SC.
        replace (e - emin) with (e + - emin) by lia.
        rewrite Z.pow_add_r by (unfold emin; lia). fold SC.
        rewrite Z.mul_assoc, <- cond_Zopp_mul, Z.quot_mul by lia. reflexivity. }
      assert (Hne : z <> 0).
      { intros E. rewrite E in Hz. pose proof (sval_sign _ _ _ Hx). destruct s; lia. }
      rewrite (of_int_canonical (S754_finite s m e) z Hx Hz Hne).
      split; [exact Hx | exact Hz].
    + assert (Hz : Z.abs z < 2 ^ F64.prec).
      { subst z. cbn [sval].
        assert (Hlt : Zpos m * 2 ^ (e - emin) < 2 ^ F64.prec * SC).
        { pose proof (digits2_pos_bounds m) as [_ Hhi].
          assert (Zpos m < 2 ^ F64.prec).
          { eapply Z.lt_le_trans; [exact Hhi|]. apply Z.pow_le_mono_r; lia. }
          assert (2 ^ (e - emin) <= SC) by (apply Z.pow_le_mono_r; lia).
          assert (0 < 2 ^ (e - emin)) by (apply Z.pow_pos_nonneg; lia).
          nia. }
        assert (0 < 2 ^ F64.prec) by (apply Z.pow_pos_nonneg; unfold F64.prec; lia).
        destruct s; cbn [cond_Zopp].
        - rewrite Z.quot_opp_l, Z.abs_opp by lia.
          rewrite Z.quot_div_nonneg by lia.
          rewrite Z.abs_eq by (apply Z.div_pos; lia).
          apply Z.div_lt_upper_bound; lia.
        - rewrite Z.quot_div_nonneg by lia.
          rewrite Z.abs_eq by (apply Z.div_pos; lia).
          apply Z.div_lt_upper_bound; lia. }
      destruct (of_int_small z Hz) as (_ & Hok & Hs). split; assumption.
Qed.

Lemma add_neg x y :
  finite_ok x -> finite_ok y -> sval x + sval y < 0 ->
  F64.add x y = S754_infinity true \/
  (finite_ok (F64.add x y) /\ sval (F64.add x y) <= 0).
Proof.
  intros Hx Hy Hs. unfold F64.add.
  destruct x as [sx|sx| |sx mx ex], y as [sy|sy| |sy my ey];
    cbn [finite_ok] in Hx, Hy; try contradiction.
  - cbn [sval] in Hs. lia.
  - cbn [SFadd]. right. change (sval (S754_zero sx)) with 0 in Hs. split; [assumption|lia].
  - cbn [SFadd]. right. change (sval (S754_zero sy)) with 0 in Hs. split; [assumption|lia].
  - pose proof (finite_exp_ge _ _ _ Hx) as Hex.
    pose proof (finite_exp_ge _ _ _ Hy) as Hey.
    cbn [SFadd]. set (ez := Z.min ex ey).
    set (S := cond_Zopp sx (Zpos (fst (shl_align mx ex ez)))
              + cond_Zopp sy (Zpos (fst (shl_align my ey ez)))).
    assert (HS : sval (S754_finite sx mx ex) + sval (S754_finite sy my ey)
                 = S * 2 ^ (ez - emin)).
    { subst S. cbn [sval]. rewrite Z.mul_add_distr_r, !cond_Zopp_mul.
      rewrite !shl_align_value by (subst ez; lia). reflexivity. }
    assert (Hp : 0 < 2 ^ (ez - emin)) by (apply Z.pow_pos_nonneg; subst ez; lia).
    assert (HSneg : S < 0) by nia.
    clearbody S. destruct S as [|p|p]; try lia.
    unfold binary_normalize.
    destruct (binary_round_spec true p ez) as (Hr & _ & Hv).
    destruct Hr as [| |m e Hm]; [right; cbn; split; [exact I|lia] | left; reflexivity |].
    right. split; [exact Hv|]. pose proof (sval_sign true m e Hv). cbn beta iota in *. lia.
Qed.

(** ** Frame lemmas: fields that a call leaves alone *)

(** Reads a field through a setter without unfolding the setter elsewhere. *)
Ltac get_set_at s :=
  match goal with
  | |- context [?f (s ?p ?v)] =>
      first [ change (f (s p v)) with (f p) | change (f (s p v)) with v ]
  end.

Ltac get_set :=
  repeat first
    [ get_set_at set_alpha | get_set_at set_congestionWindow
    | get_set_at set_slowStartThreshold | get_set_at set_cwndCarry
    | get_set_at set_largestSentPacketNumber
    | get_set_at set_largestAckedPacketNumber
    | get_set_at set_largestSentAtLastCutback
    | get_set_at set_ecnMarkedBytes | get_set_at set_totalAckedBytes
    | get_set_at set_inSlowStart | get_set_at set_inRecovery
    | get_set_at set_lastCutbackExitedSlowstart
    | get_set_at set_maxDatagramSize ].

Ltac break_if :=
  match goal with
  | |- context [if ?b then _ else _] => destruct b eqn:?
  end.

(** Closes [field (call p ..) = field p] once the call is unfolded. *)
Ltac frame_solve :=
  cbv zeta;
  repeat (get_set; try reflexivity; try break_if).

Section Frames.

Variable K : protocolConstants.

Lemma MaybeExitSlowStart_inRecovery p :
  inRecovery (MaybeExitSlowStart p) = inRecovery p.
Proof. unfold MaybeExitSlowStart; frame_solve. Qed.

Lemma pragueAdditiveIncrease_inRecovery p a :
  inRecovery (pragueAdditiveIncrease p a) = inRecovery p.
Proof. unfold pragueAdditiveIncrease; frame_solve. Qed.

Lemma OnPacketAcked_inRecovery p n a f t :
  inRecovery (OnPacketAcked p n a f t) = inRecovery p.
Proof.
  unfold OnPacketAcked; cbv zeta.
  repeat break_if;
    rewrite ?MaybeExitSlowStart_inRecovery, ?pragueAdditiveIncrease_inRecovery;
    get_set; reflexivity.
Qed.

Lemma updateAlpha_l4sEnabled p : l4sEnabled (updateAlpha p) = l4sEnabled p.
Proof. unfold updateAlpha; frame_solve. Qed.

Lemma applyECN_l4sEnabled p :
  l4sEnabled (applyECNCongestionResponse p) = l4sEnabled p.
Proof. unfold applyECNCongestionResponse; frame_solve. Qed.

Lemma updateAlpha_initialMax p :
  initialMaxCongestionWindow (updateAlpha p) = initialMaxCongestionWindow p.
Proof. unfold updateAlpha; frame_solve. Qed.

Lemma applyECN_initialMax p :
  initialMaxCongestionWindow (applyECNCongestionResponse p)
  = initialMaxCongestionWindow p.
Proof. unfold applyECNCongestionResponse; frame_solve. Qed.

Lemma updateAlpha_inSlowStart p : inSlowStart (updateAlpha p) = inSlowStart p.
Proof. unfold updateAlpha; frame_solve. Qed.

Lemma applyECN_inSlowStart p :
  inSlowStart p = false -> inSlowStart (applyECNCongestionResponse p) = false.
Proof.
  intros H; unfold applyECNCongestionResponse; cbv zeta.
  repeat (get_set; try assumption; try reflexivity; try break_if).
Qed.

End Frames.

(** ** Properties of whole runs *)

Lemma run_app K p cs1 cs2 :
  run K p (cs1 ++ cs2) =
  match run K p cs1 with Some p' => run K p' cs2 | None => None end.
Proof.
  revert p; induction cs1 as [|c cs1 IH]; intros p; cbn; [reflexivity|].
  destruct (step K p c); [apply IH | reflexivity].
Qed.

(** A property that every call preserves holds after every run. *)
Lemma run_preserves K (P : pragueSender -> Prop) :
  (forall p c p', P p -> step K p c = Some p' -> P p') ->
  forall cs p p', P p -> run K p cs = Some p' -> P p'.
Proof.
  intros Hstep cs; induction cs as [|c cs IH]; intros p p' HP Hrun; cbn in Hrun.
  - now inversion Hrun; subst.
  - destruct (step K p c) as [q|] eqn:Hq; [|discriminate].
    eapply IH; [eapply Hstep; eassumption | exact Hrun].
Qed.

(** One subgoal per method, with the panic of [SetMaxDatagramSize] gone. *)
Ltac step_cases Hstep :=
  match type of Hstep with
  | step _ _ ?c = Some _ =>
      destruct c; cbn [step] in Hstep;
      [ inversion Hstep; subst; clear Hstep
      | inversion Hstep; subst; clear Hstep
      | inversion Hstep; subst; clear Hstep
      | inversion Hstep; subst; clear Hstep
      | inversion Hstep; subst; clear Hstep
      | unfold SetMaxDatagramSize in Hstep;
        match type of Hstep with
        | (if ?b then _ else _) = _ => destruct b eqn:?; [discriminate|]
        end;
        inversion Hstep; subst; clear Hstep
      | inversion Hstep; subst; clear Hstep ]
  end.

Ltac unfold_calls :=
  unfold OnPacketSent, OnPacketAcked, pragueAdditiveIncrease,
    MaybeExitSlowStart, OnCongestionEvent, OnRetransmissionTimeout,
    OnECNFeedback.

Lemma step_l4sEnabled K p c p' :
  step K p c = Some p' -> l4sEnabled p' = l4sEnabled p.
Proof.
  intros H; step_cases H; unfold_calls; cbv zeta;
    repeat (rewrite ?applyECN_l4sEnabled, ?updateAlpha_l4sEnabled; get_set;
            try reflexivity; try break_if).
Qed.

Lemma step_initialMaxCongestionWindow K p c p' :
  step K p c = Some p' ->
  initialMaxCongestionWindow p' = initialMaxCongestionWindow p.
Proof.
  intros H; step_cases H; unfold_calls; cbv zeta;
    repeat (rewrite ?applyECN_initialMax, ?updateAlpha_initialMax; get_set;
            try reflexivity; try break_if).
Qed.

Lemma step_inSlowStart K p c p' :
  step K p c = Some p' -> inSlowStart p = false -> inSlowStart p' = false.
Proof.
  intros H Hs; step_cases H; unfold_calls; cbv zeta;
    repeat (get_set; try assumption; try reflexivity; try congruence;
            try (apply applyECN_inSlowStart; rewrite updateAlpha_inSlowStart);
            try break_if).
Qed.

Lemma run_l4sEnabled K cs p p' :
  run K p cs = Some p' -> l4sEnabled p' = l4sEnabled p.
Proof.
  intros Hrun.
  apply (run_preserves K (fun q => l4sEnabled q = l4sEnabled p)) with (3 := Hrun);
    [|reflexivity].
  intros q c q' Hq Hs; rewrite (step_l4sEnabled _ _ _ _ Hs); exact Hq.
Qed.

Lemma run_initialMaxCongestionWindow K cs p p' :
  run K p cs = Some p' ->
  initialMaxCongestionWindow p' = initialMaxCongestionWindow p.
Proof.
  intros Hrun.
  apply (run_preserves K
           (fun q => initialMaxCongestionWindow q = initialMaxCongestionWindow p))
    with (3 := Hrun); [|reflexivity].
  intros q c q' Hq Hs; rewrite (step_initialMaxCongestionWindow _ _ _ _ Hs);
    exact Hq.
Qed.

Lemma run_inSlowStart K cs p p' :
  run K p cs = Some p' -> inSlowStart p = false -> inSlowStart p' = false.
Proof.
  intros Hrun Hs.
  apply (run_preserves K (fun q => inSlowStart q = false)) with (3 := Hrun);
    [|exact Hs].
  intros q c q' Hq Hst; exact (step_inSlowStart _ _ _ _ Hst Hq).
Qed.

(** ** Bounds for the sender's arithmetic *)

(** Above the subnormal threshold, rounding does not lower the magnitude. *)
Lemma renormalise_lower sx m1 e1 :
  0 < m1 -> emin < Zdigits2 m1 + e1 ->
  mag_at_least (Zdigits2 m1 + e1)
    (let '(mrs, e2) := shr_fexp F64.prec F64.emax m1 e1 loc_Exact in
     match shr_m mrs with
     | Z0 => S754_zero sx
     | Zpos m => if e2 <=? F64.emax - F64.prec then S754_finite sx m e2 else S754_infinity sx
     | Zneg _ => S754_nan
     end).
Proof.
  intros Hm Hmag.
  destruct (shr_fexp_spec m1 e1 loc_Exact ltac:(lia)) as [Hnone Hshift].
  set (k := fexp F64.prec F64.emax (Zdigits2 m1 + e1) - e1) in *.
  destruct (Z_le_gt_dec k 0) as [Hk|Hk].
  - rewrite (Hnone Hk); cbn [shr_record_of_loc shr_m].
    destruct m1 as [|p|p]; try lia. destruct (e1 <=? _); cbn in *; lia.
  - destruct (Hshift ltac:(lia)) as (mrs & -> & Hq). rewrite Hq.
    assert (Hlt : k < Zdigits2 m1).
    { subst k. rewrite fexp_eq. unfold F64.prec, emin in *. lia. }
    pose proof (div_pow2_pos m1 k Hm ltac:(lia) Hlt) as Hpos.
    pose proof (Zdigits2_div_pow2 m1 k Hm ltac:(lia) Hlt) as Hd.
    destruct (m1 / 2 ^ k) as [|p|p]; try lia.
    destruct (_ <=? _); cbn [mag_at_least Zdigits2] in *; lia.
Qed.

Lemma binary_round_aux_lower sx m e l :
  0 < m -> emin < Zdigits2 m + e ->
  mag_at_least (Zdigits2 m + e) (binary_round_aux F64.prec F64.emax sx m e l).
Proof.
  intros Hm Hmag. unfold binary_round_aux.
  destruct (shr_fexp_spec m e l ltac:(lia)) as [Hnone Hshift].
  set (k := fexp F64.prec F64.emax (Zdigits2 m + e) - e) in *.
  assert (Hmono : forall n x, mag_at_least n x -> Zdigits2 m + e <= n ->
                              mag_at_least (Zdigits2 m + e) x).
  { intros n [s|s| |s m' e'] H Hle; cbn in *; try assumption; lia. }
  destruct (Z_le_gt_dec k 0) as [Hk|Hk].
  - rewrite (Hnone Hk), shr_record_of_loc_m.
    set (m1 := round_nearest_even m _).
    assert (Hm1 : m1 = m \/ m1 = m + 1) by apply round_nearest_even_cases.
    pose proof (Zdigits2_succ m ltac:(lia)) as Hs.
    assert (Hd1 : Zdigits2 m <= Zdigits2 m1) by (destruct Hm1 as [-> | ->]; lia).
    eapply Hmono; [apply renormalise_lower; lia | lia].
  - destruct (Hshift ltac:(lia)) as (mrs & -> & Hq). rewrite Hq.
    assert (Hlt : k < Zdigits2 m).
    { subst k. rewrite fexp_eq. unfold F64.prec, emin in *. lia. }
    pose proof (div_pow2_pos m k Hm ltac:(lia) Hlt) as Hpos.
    pose proof (Zdigits2_div_pow2 m k Hm ltac:(lia) Hlt) as Hd.
    set (q := m / 2 ^ k) in *.
    set (m1 := round_nearest_even q _).
    assert (Hm1 : m1 = q \/ m1 = q + 1) by apply round_nearest_even_cases.
    pose proof (Zdigits2_succ q ltac:(lia)) as Hs.
    assert (Hd1 : Zdigits2 q <= Zdigits2 m1) by (destruct Hm1 as [-> | ->]; lia).
    eapply Hmono; [apply renormalise_lower; lia | lia].
Qed.

Lemma binary_round_lower sx m e :
  emin < Zpos (digits2_pos m) + e ->
  mag_at_least (Zpos (digits2_pos m) + e) (binary_round F64.prec F64.emax sx m e).
Proof.
  intros Hmag. unfold binary_round.
  pose proof (shl_align_spec m e (fexp F64.prec F64.emax (Zpos (digits2_pos m) + e))) as Hs.
  destruct (shl_align m e _) as [mz ez]. destruct Hs as [Hlt Hge].
  assert (E : Zdigits2 (Zpos mz) + ez = Zpos (digits2_pos m) + e).
  { destruct (Z_lt_le_dec (fexp F64.prec F64.emax (Zpos (digits2_pos m) + e)) e) as [Hc|Hc].
    - destruct (Hlt Hc) as [Hm He]. rewrite Hm, He.
      rewrite Zdigits2_mul_pow2 by lia. cbn [Zdigits2]. lia.
    - destruct (Hge Hc) as [-> ->]. reflexivity. }
  rewrite <- E. apply binary_round_aux_lower; [lia|]. rewrite E. exact Hmag.
Qed.

(** The conversion of a positive integer is positive and at least as large
    in magnitude. *)
Lemma of_int_pos z :
  0 < z -> Zdigits2 z <= F64.emax - 1 ->
  finite_ok (F64.of_int z) /\ 0 < sval (F64.of_int z) /\
  Zdigits2 z - emin <= lmag (F64.of_int z) <= Zdigits2 z - emin + 1.
Proof.
  intros Hz Hd. destruct (of_int_approx z ltac:(rewrite Z.abs_eq by lia; exact Hd))
    as [(Hok & Hp & _ & Hm) Hnz].
  specialize (Hnz ltac:(lia)). specialize (Hp ltac:(pose proof SC_pos; unfold SC in *; nia)).
  split; [exact Hok|]. split; [lia|].
  rewrite Zdigits2_abs_scaled in Hm by (unfold emin; lia).
  rewrite Z.abs_eq in Hm by lia. split; [|lia].
  destruct z as [|p|p]; try lia.
  pose proof (binary_round_lower false p 0
                ltac:(pose proof (Pos2Z.is_pos (digits2_pos p)); unfold emin; lia)) as Hl.
  unfold F64.of_int, binary_normalize in *.
  destruct (binary_round F64.prec F64.emax false p 0) as [s|s| |s m e];
    cbn [finite_ok mag_at_least] in *; try contradiction; try (cbn in Hnz; lia).
  rewrite lmag_finite by exact Hok. cbn [Zdigits2]. lia.
Qed.

(** *** Magnitude bookkeeping *)

Lemma lmag_le x k : 0 <= k -> Z.abs (sval x) < 2 ^ k -> lmag x <= k.
Proof. intros; unfold lmag; now apply Zdigits2_abs_le. Qed.

Lemma lmag_lt x k : lmag x <= k -> Z.abs (sval x) < 2 ^ k.
Proof.
  intros H. pose proof (sval_lt_lmag x). pose proof (lmag_nonneg x).
  eapply Z.lt_le_trans; [eassumption|]. apply Z.pow_le_mono_r; lia.
Qed.

Lemma pow2_max_sum a b : 0 <= a -> 0 <= b -> 2 ^ a + 2 ^ b <= 2 ^ (Z.max a b + 1).
Proof.
  intros Ha Hb. rewrite Z.pow_add_r by lia. change (2 ^ 1) with 2.
  assert (Hc : a <= Z.max a b /\ b <= Z.max a b) by lia.
  remember (Z.max a b) as c eqn:Ec. clear Ec.
  pose proof (Z.pow_le_mono_r 2 a c ltac:(lia) ltac:(lia)).
  pose proof (Z.pow_le_mono_r 2 b c ltac:(lia) ltac:(lia)).
  pow_atoms; lia.
Qed.

Lemma add_mag x y a b :
  finite_ok x -> finite_ok y -> lmag x <= a -> lmag y <= b ->
  Z.max a b + 1 <= F64.emax - emin - 1 ->
  approx_mag (sval x + sval y) (Z.max a b + 2) (F64.add x y).
Proof.
  intros Hx Hy Ha Hb Hfit.
  pose proof (lmag_nonneg x). pose proof (lmag_nonneg y).
  pose proof (lmag_lt x a Ha) as Hxa. pose proof (lmag_lt y b Hb) as Hyb.
  pose proof (pow2_max_sum a b ltac:(lia) ltac:(lia)) as Hsum.
  assert (Hc : 0 <= Z.max a b + 1) by lia.
  remember (Z.max a b) as c eqn:Ec. clear Ec.
  assert (Hs : Z.abs (sval x + sval y) < 2 ^ (c + 1)) by (pow_atoms; lia).
  pose proof (Zdigits2_abs_le _ _ Hc Hs) as Hd.
  eapply approx_mag_weaken; [apply add_approx; try assumption|lia].
  unfold magnitude_fits. lia.
Qed.

Lemma sub_mag x y a b :
  finite_ok x -> finite_ok y -> lmag x <= a -> lmag y <= b ->
  Z.max a b + 1 <= F64.emax - emin - 1 ->
  approx_mag (sval x - sval y) (Z.max a b + 2) (F64.sub x y).
Proof.
  intros Hx Hy Ha Hb Hfit.
  pose proof (lmag_nonneg x). pose proof (lmag_nonneg y).
  pose proof (lmag_lt x a Ha) as Hxa. pose proof (lmag_lt y b Hb) as Hyb.
  pose proof (pow2_max_sum a b ltac:(lia) ltac:(lia)) as Hsum.
  assert (Hc : 0 <= Z.max a b + 1) by lia.
  remember (Z.max a b) as c eqn:Ec. clear Ec.
  assert (Hs : Z.abs (sval x - sval y) < 2 ^ (c + 1)) by (pow_atoms; lia).
  pose proof (Zdigits2_abs_le _ _ Hc Hs) as Hd.
  eapply approx_mag_weaken; [apply sub_approx; try assumption|lia].
  unfold magnitude_fits. lia.
Qed.

Lemma mul_mag x y a b :
  finite_ok x -> finite_ok y -> lmag x <= a -> lmag y <= b ->
  a + b + emin <= F64.emax - emin - 1 ->
  approx_mag (sval x * sval y) (Z.max (a + b + emin) 0 + 1) (F64.mul x y).
Proof.
  intros Hx Hy Ha Hb Hfit.
  eapply approx_mag_weaken; [apply mul_approx; try assumption; lia|lia].
Qed.

Lemma div_mag x y a b :
  finite_ok x -> finite_ok y -> sval y <> 0 -> lmag x <= a -> b <= lmag y ->
  a - b <= F64.emax - 2 ->
  approx_mag (sval x * sval y) (Z.max (a - b + 1 - emin) 0 + 1) (F64.div x y).
Proof.
  intros Hx Hy Hne Ha Hb Hfit.
  eapply approx_mag_weaken; [apply div_approx; try assumption; lia|lia].
Qed.

Lemma of_int_mag z j :
  Z.abs z < 2 ^ j -> 0 <= j <= F64.emax - 2 ->
  approx_mag z (j - emin + 1) (F64.of_int z).
Proof.
  intros Hz Hj. pose proof (Zdigits2_abs_le z j ltac:(lia) Hz) as Hd.
  destruct (of_int_approx z ltac:(lia)) as [(Hok & Hp & Hn & Hm) _].
  pose proof SC_pos as Hsc. unfold SC in Hsc.
  unfold approx_mag. split; [exact Hok|]. split; [|split].
  - intros; apply Hp; nia.
  - intros; apply Hn; nia.
  - destruct (Z.eq_dec z 0) as [->|Hne].
    + cbn in *. unfold emin. lia.
    + rewrite Zdigits2_abs_scaled in Hm by (unfold emin; lia). lia.
Qed.

Lemma to_int_mag sgn k r :
  approx_mag sgn k r -> 0 <= sgn -> - emin <= k <= 63 - emin ->
  F64.to_int r = sval r / SC /\ 0 <= F64.to_int r < 2 ^ (k + emin).
Proof.
  intros H Hs Hk. pose proof (approx_mag_bound _ _ _ H) as Hb.
  destruct H as (Hok & Hp & _ & _). specialize (Hp Hs).
  apply to_int_nonneg; [exact Hok | | lia].
  split; [exact Hp|]. unfold SC. rewrite <- Z.pow_add_r by (unfold emin in *; lia).
  replace (k + emin + - emin) with k by lia. lia.
Qed.

(** *** Exact conversions of small integers *)

Lemma of_int_exact z :
  Z.abs z < 2 ^ 53 -> finite_ok (F64.of_int z) /\ sval (F64.of_int z) = z * SC.
Proof. intros H. destruct (of_int_small z H) as (_ & Hok & Hs). auto. Qed.

Lemma to_int_of_small_max a b :
  Z.abs a < 2 ^ 53 -> Z.abs b < 2 ^ 53 ->
  F64.to_int (F64.max (F64.of_int a) (F64.of_int b)) = Z.max a b.
Proof.
  intros Ha Hb. destruct (of_int_exact a Ha) as [Hoa Hsa].
  destruct (of_int_exact b Hb) as [Hob Hsb].
  destruct (max_sval _ _ Hoa Hob) as [Hok Hs].
  apply to_int_exact; [exact Hok | |unfold Int64.min_int, Int64.max_int; lia].
  rewrite Hs, Hsa, Hsb. pose proof SC_pos. nia.
Qed.

Lemma to_int_half z :
  0 <= z < 2 ^ 53 ->
  F64.to_int (F64.mul (F64.of_int z) pragueBeta) = z / 2.
Proof.
  intros Hz. unfold pragueBeta.
  destruct (mul_half_small z Hz) as [Hok Hs].
  pose proof SC_pos as Hsc.
  assert (Hnn : 0 <= sval (F64.mul (F64.of_int z) F64.half)) by nia.
  destruct (to_int_nonneg _ 53 Hok ltac:(nia) ltac:(lia)) as [-> _].
  assert (E : SC = 2 * 2 ^ 1073) by reflexivity.
  assert (Hh : 0 < 2 ^ 1073) by (apply Z.pow_pos_nonneg; lia).
  assert (Es : sval (F64.mul (F64.of_int z) F64.half) = z * 2 ^ 1073) by lia.
  rewrite Es, E. apply Z.div_mul_cancel_r; lia.
Qed.

Lemma minCongestionWindow_small p :
  Int64.min_int <= 2 * maxDatagramSize p <= Int64.max_int ->
  minCongestionWindow p = 2 * maxDatagramSize p.
Proof. intros H. unfold minCongestionWindow, Int64.mul, pragueMinCwnd. now apply wrap_small. Qed.

(** *** The loss response *)

Lemma OnCongestionEvent_ignored p n l f :
  n <= largestSentAtLastCutback p -> OnCongestionEvent p n l f = p.
Proof.
  intros H. unfold OnCongestionEvent. apply Z.leb_le in H. now rewrite H.
Qed.

Lemma OnCongestionEvent_fields p n l f :
  largestSentAtLastCutback p < n ->
  let p' := OnCongestionEvent p n l f in
  slowStartThreshold p'
  = F64.to_int (F64.mul (F64.of_int (congestionWindow p)) pragueBeta) /\
  congestionWindow p'
  = F64.to_int (F64.max (F64.of_int (minCongestionWindow p))
                        (F64.of_int (slowStartThreshold p'))) /\
  inSlowStart p' = false /\
  inRecovery p' = true /\
  largestSentAtLastCutback p' = largestSentPacketNumber p.
Proof.
  intros Hn p'. subst p'. unfold OnCongestionEvent.
  apply Z.leb_gt in Hn. rewrite Hn. cbv zeta.
  get_set. unfold minCongestionWindow at 1. get_set.
  repeat split; reflexivity.
Qed.

Lemma OnCongestionEvent_reacts p n l f :
  largestSentAtLastCutback p < n ->
  0 <= congestionWindow p < 2 ^ 53 ->
  0 <= maxDatagramSize p < 2 ^ 52 ->
  let p' := OnCongestionEvent p n l f in
  slowStartThreshold p' = congestionWindow p / 2 /\
  congestionWindow p' = Z.max (2 * maxDatagramSize p) (congestionWindow p / 2) /\
  inSlowStart p' = false /\
  inRecovery p' = true /\
  largestSentAtLastCutback p' = largestSentPacketNumber p /\
  lastCutbackExitedSlowstart p' = inSlowStart p /\
  maxDatagramSize p' = maxDatagramSize p /\
  alpha p' = alpha p /\ cwndCarry p' = cwndCarry p /\
  alphaGain p' = alphaGain p /\ totalAckedBytes p' = totalAckedBytes p /\
  ecnMarkedBytes p' = ecnMarkedBytes p /\ l4sEnabled p' = l4sEnabled p.
Proof.
  intros Hn Hc Hm p'. subst p'. unfold OnCongestionEvent.
  apply Z.leb_gt in Hn. rewrite Hn. cbv zeta.
  assert (Hhalf : 0 <= congestionWindow p / 2 < 2 ^ 52).
  { split; [apply Z.div_pos; lia|]. apply Z.div_lt_upper_bound; lia. }
  get_set. unfold minCongestionWindow at 1. get_set.
  fold (minCongestionWindow p).
  rewrite (minCongestionWindow_small p) by (unfold Int64.min_int, Int64.max_int; lia).
  rewrite to_int_half by lia.
  rewrite to_int_of_small_max by lia.
  repeat split; reflexivity.
Qed.

(** *** The marking fraction estimate *)

Lemma int64_digits z : int64_ok z -> Z.abs z < 2 ^ 64.
Proof. unfold int64_ok, Int64.min_int, Int64.max_int. lia. Qed.

Lemma markingFraction_ok p :
  int64_ok (ecnMarkedBytes p) -> 0 < totalAckedBytes p <= Int64.max_int ->
  finite_ok (markingFraction p) /\ lmag (markingFraction p) <= 1140.
Proof.
  intros He Ht. unfold markingFraction.
  pose proof (of_int_mag (ecnMarkedBytes p) 64 (int64_digits _ He)
                ltac:(unfold F64.emax; lia)) as (Hoe & _ & _ & Hme).
  assert (Hd : 0 < Zdigits2 (totalAckedBytes p) <= 63).
  { split; [apply Zdigits2_pos; lia|].
    apply Zdigits2_le; unfold Int64.max_int in *; lia. }
  destruct (of_int_pos (totalAckedBytes p) ltac:(lia) ltac:(unfold F64.emax; lia))
    as (Hot & Hpt & Hlt & _).
  pose proof (div_mag _ _ (64 - emin + 1) (1 - emin) Hoe Hot ltac:(lia) Hme
                ltac:(lia) ltac:(unfold F64.emax, emin; lia)) as (Hok & _ & _ & Hm).
  split; [exact Hok|]. unfold emin in Hm. lia.
Qed.

Lemma alpha_ok_lmag a : alpha_ok a -> lmag a <= 1075.
Proof.
  intros [_ [H0 H1]]. apply lmag_le; [lia|].
  unfold SC, emin in H1. change (- -1074) with 1074 in H1.
  assert (2 ^ 1074 < 2 ^ 1075) by (apply Z.pow_lt_mono_r; lia). lia.
Qed.

Lemma ewma_ok a f :
  alpha_ok a -> finite_ok f -> lmag f <= 1140 -> finite_ok (ewma a f).
Proof.
  intros Ha Hf Hm. pose proof (alpha_ok_lmag a Ha) as Hla. destruct Ha as [Hoa _].
  unfold ewma.
  assert (Hc : finite_ok (F64.sub F64.one pragueAlphaGain) /\
               lmag (F64.sub F64.one pragueAlphaGain) <= 1074)
    by (vm_compute; split; [reflexivity | discriminate]).
  assert (Hg : finite_ok pragueAlphaGain /\ lmag pragueAlphaGain <= 1071)
    by (vm_compute; split; [reflexivity | discriminate]).
  destruct Hc as [Hoc Hlc]. destruct Hg as [Hog Hlg].
  pose proof (mul_mag _ _ 1074 1075 Hoc Hoa Hlc Hla
                ltac:(unfold F64.emax, emin; lia)) as (Ho1 & _ & _ & Hm1).
  pose proof (mul_mag _ _ 1071 1140 Hog Hf Hlg Hm
                ltac:(unfold F64.emax, emin; lia)) as (Ho2 & _ & _ & Hm2).
  unfold emin in Hm1, Hm2.
  pose proof (add_mag _ _ 1076 1138 Ho1 Ho2 ltac:(lia) ltac:(lia)
                ltac:(unfold F64.emax, emin; lia)) as (Hok & _).
  exact Hok.
Qed.

Lemma one_ok : finite_ok F64.one /\ sval F64.one = SC.
Proof. vm_compute. split; reflexivity. Qed.

Lemma clamp01_ok x : finite_ok x -> alpha_ok (clamp01 x).
Proof.
  intros Hx. destruct one_ok as [Ho1 Hs1]. pose proof SC_pos as Hsc.
  assert (Hz : finite_ok F64.zero) by exact I.
  unfold clamp01. cbv zeta.
  rewrite (ltb_sval x F64.zero Hx Hz). change (sval F64.zero) with 0.
  destruct (Z.ltb_spec (sval x) 0) as [Hneg|Hpos].
  - rewrite (ltb_sval F64.one F64.zero Ho1 Hz), Hs1. change (sval F64.zero) with 0.
    destruct (Z.ltb_spec SC 0); [lia|]. split; [exact Hz|]. cbn. lia.
  - rewrite (ltb_sval F64.one x Ho1 Hx), Hs1.
    destruct (Z.ltb_spec SC (sval x)); split; try assumption; lia.
Qed.

Lemma alphaUpdate_spec_ok a f :
  alpha_ok a -> finite_ok f -> lmag f <= 1140 -> alpha_ok (alphaUpdate_spec a f).
Proof.
  intros Ha Hf Hm. unfold alphaUpdate_spec. apply clamp01_ok.
  destruct (_ && _); [apply one_ok | now apply ewma_ok].
Qed.

(** Case analysis on a condition that contains no other conditional. *)
Ltac break_if_inner :=
  match goal with
  | |- context [if ?b then _ else _] =>
      lazymatch b with
      | context [if _ then _ else _] => fail
      | _ => destruct b eqn:?
      end
  end.

Lemma updateAlpha_alpha p :
  totalAckedBytes p <> 0 -> alphaGain p = pragueAlphaGain ->
  alpha (updateAlpha p) = alphaUpdate_spec (alpha p) (markingFraction p).
Proof.
  intros Ht Hg. unfold updateAlpha, alphaUpdate_spec, clamp01, ewma, markingFraction.
  apply Z.eqb_neq in Ht. rewrite Ht, Hg. cbv zeta.
  repeat (get_set; try reflexivity; try break_if_inner).
Qed.

(** Fields that [updateAlpha] and the ECN response leave alone. *)

Lemma updateAlpha_alphaGain p : alphaGain (updateAlpha p) = alphaGain p.
Proof. unfold updateAlpha; frame_solve. Qed.

Lemma updateAlpha_ecnMarkedBytes p : ecnMarkedBytes (updateAlpha p) = ecnMarkedBytes p.
Proof. unfold updateAlpha; frame_solve. Qed.

Lemma updateAlpha_totalAckedBytes p : totalAckedBytes (updateAlpha p) = totalAckedBytes p.
Proof. unfold updateAlpha; frame_solve. Qed.

Lemma applyECN_alpha p : alpha (applyECNCongestionResponse p) = alpha p.
Proof. unfold applyECNCongestionResponse; frame_solve. Qed.

Lemma applyECN_alphaGain p : alphaGain (applyECNCongestionResponse p) = alphaGain p.
Proof. unfold applyECNCongestionResponse; frame_solve. Qed.

Lemma updateAlpha_alpha_ok p :
  sample_ok p -> 0 < totalAckedBytes p -> alpha_ok (alpha (updateAlpha p)).
Proof.
  intros (Ha & Hg & He & Ht) Hpos.
  rewrite updateAlpha_alpha by (try assumption; lia).
  destruct (markingFraction_ok p He ltac:(unfold int64_ok in Ht; lia)) as [Hf Hm].
  now apply alphaUpdate_spec_ok.
Qed.

Lemma int64_ok_add a b : int64_ok (Int64.add a b).
Proof. apply wrap_range. Qed.

Lemma int64_ok_0 : int64_ok 0.
Proof. unfold int64_ok, Int64.min_int, Int64.max_int. lia. Qed.

Lemma OnECNFeedback_sample_ok p x : sample_ok p -> sample_ok (OnECNFeedback p x).
Proof.
  intros Hp. pose proof Hp as (Ha & Hg & He & Ht). unfold OnECNFeedback.
  destruct (negb (l4sEnabled p)); [exact Hp|]. cbv zeta.
  set (q := set_ecnMarkedBytes p (Int64.add (ecnMarkedBytes p) x)).
  assert (Hq : sample_ok q).
  { unfold sample_ok, q. get_set.
    split; [exact Ha|split; [exact Hg|split; [apply int64_ok_add|exact Ht]]]. }
  destruct (Z.ltb_spec 0 (totalAckedBytes q)) as [Hpos|_]; [|exact Hq].
  unfold sample_ok. get_set.
  rewrite applyECN_alpha, applyECN_alphaGain, updateAlpha_alphaGain.
  split; [now apply updateAlpha_alpha_ok|].
  split; [apply Hq|]. split; apply int64_ok_0.
Qed.

Lemma step_sample_ok K p c p' :
  sample_ok p -> step K p c = Some p' -> sample_ok p'.
Proof.
  intros Hp H. pose proof Hp as (Ha & Hg & He & Ht).
  step_cases H; try (now apply OnECNFeedback_sample_ok);
    unfold_calls; unfold sample_ok; cbv zeta;
    repeat (get_set; try break_if_inner);
    (split; [exact Ha|split; [exact Hg|split; [exact He|]]]);
    first [exact Ht | apply int64_ok_add].
Qed.

Lemma newPragueSender_sample_ok K mds l4s : sample_ok (newPragueSender K mds l4s).
Proof.
  unfold sample_ok, newPragueSender; cbn.
  pose proof SC_pos. repeat split; try apply int64_ok_0; cbn; lia.
Qed.

Lemma run_sample_ok K mds l4s cs p :
  run K (newPragueSender K mds l4s) cs = Some p -> sample_ok p.
Proof.
  intros Hrun.
  apply (run_preserves K sample_ok) with (3 := Hrun);
    [|apply newPragueSender_sample_ok].
  intros q c q' Hq Hs. exact (step_sample_ok K q c q' Hq Hs).
Qed.

Lemma alpha_ok_leb a :
  alpha_ok a -> F64.leb F64.zero a = true /\ F64.leb a F64.one = true.
Proof.
  intros [Hok [H0 H1]]. destruct one_ok as [Ho1 Hs1].
  rewrite (leb_sval F64.zero a I Hok), (leb_sval a F64.one Hok Ho1), Hs1.
  change (sval F64.zero) with 0. split; apply Z.leb_le; assumption.
Qed.

(** *** The window floor *)

Lemma to_int_max_floor X m :
  finite_ok X -> lmag X <= 63 - emin -> 0 <= m < 2 ^ 53 ->
  m <= F64.to_int (F64.max X (F64.of_int m)).
Proof.
  intros HX Hl Hm. pose proof SC_pos as Hsc.
  destruct (of_int_exact m ltac:(lia)) as [Hom Hsm].
  destruct (max_sval X (F64.of_int m) HX Hom) as [Hok Hs].
  pose proof (lmag_lt X _ Hl) as Hlt.
  assert (E : 2 ^ (63 - emin) = 2 ^ 63 * SC)
    by (unfold SC, emin; rewrite <- Z.pow_add_r by lia; reflexivity).
  rewrite E in Hlt.
  assert (Hr : m * SC <= sval (F64.max X (F64.of_int m)) < 2 ^ 63 * SC).
  { rewrite Hs, Hsm. split; [lia|]. apply Z.max_lub_lt; [lia|].
    apply Z.mul_lt_mono_pos_r; lia. }
  rewrite to_int_sval by (try assumption; unfold Int64.min_int, Int64.max_int; nia).
  rewrite Z.quot_div_nonneg by nia.
  apply Z.div_le_lower_bound; lia.
Qed.

Lemma carry_add c D :
  carry_ok c -> finite_ok D -> lmag D <= 1133 ->
  F64.add c D = S754_infinity true \/
  (finite_ok (F64.add c D) /\ sval (F64.add c D) <= 0) \/
  (finite_ok (F64.add c D) /\ 0 <= sval (F64.add c D) /\ lmag (F64.add c D) <= 1135).
Proof.
  intros [-> | [Hc Hlt]] HD Hl.
  - left. destruct D; cbn [finite_ok] in HD; try contradiction; reflexivity.
  - destruct (Z_lt_le_dec (sval c + sval D) 0) as [Hneg|Hpos].
    + destruct (add_neg c D Hc HD Hneg) as [H|H]; auto.
    + right; right. pose proof (lmag_lt D _ Hl) as HDlt.
      assert (Hsum : Z.abs (sval c + sval D) < 2 ^ 1134).
      { assert (E1 : 2 * SC <= 2 ^ 1133).
        { unfold SC, emin. change (- -1074) with 1074.
          change 2 with (2 ^ 1) at 1. rewrite <- Z.pow_add_r by lia.
          apply Z.pow_le_mono_r; lia. }
        assert (E2 : 2 ^ 1134 = 2 * 2 ^ 1133)
          by (change 1134 with (1 + 1133); rewrite Z.pow_add_r by lia; reflexivity).
        pose proof SC_pos. rewrite E2. lia. }
      pose proof (Zdigits2_abs_le _ 1134 ltac:(lia) Hsum) as Hd.
      pose proof (add_approx c D Hc HD
                    ltac:(unfold magnitude_fits, F64.emax, emin; lia))
        as (Hok & Hp & _ & Hm).
      split; [exact Hok|]. split; [apply Hp; lia | lia].
Qed.

Lemma carry_reduce cn :
  finite_ok cn -> SC <= sval cn -> lmag cn <= 1135 ->
  0 <= F64.to_int cn < 2 ^ 61 /\
  finite_ok (F64.of_int (F64.to_int cn)) /\
  lmag (F64.of_int (F64.to_int cn)) <= 1135 /\
  carry_ok (F64.sub cn (F64.of_int (F64.to_int cn))).
Proof.
  intros Hok Hge Hl. pose proof SC_pos as Hsc.
  pose proof (lmag_lt cn _ Hl) as Hlt.
  assert (E : 2 ^ 1135 = 2 ^ 61 * SC)
    by (unfold SC, emin; rewrite <- Z.pow_add_r by lia; reflexivity).
  destruct (to_int_nonneg cn 61 Hok ltac:(lia) ltac:(lia)) as [Hred Hrange].
  pose proof (of_int_trunc_exact cn Hok) as Ht. cbv zeta in Ht.
  rewrite Z.quot_div_nonneg in Ht by lia. rewrite <- Hred in Ht.
  destruct Ht as [Hor Hsr].
  set (red := F64.to_int cn) in *.
  pose proof (Z.div_mod (sval cn) SC ltac:(lia)) as Hdm.
  pose proof (Z.mod_pos_bound (sval cn) SC Hsc) as Hmod.
  rewrite <- Hred in Hdm.
  split; [exact Hrange|]. split; [exact Hor|]. split.
  - apply lmag_le; [lia|]. rewrite Hsr. nia.
  - right.
    assert (Hs : 0 <= sval cn - sval (F64.of_int red) < SC) by (rewrite Hsr; lia).
    assert (Habs : Z.abs (sval cn - sval (F64.of_int red)) < 2 ^ 1074)
      by (change (2 ^ 1074) with SC; lia).
    pose proof (sub_approx cn (F64.of_int red) Hok Hor
                  (magnitude_fits_le _ 1074 ltac:(unfold F64.emax, emin; lia) Habs))
      as Ha.
    destruct (approx_le _ 1074 _ Ha ltac:(lia) Habs) as (Hf & _ & _ & Hb).
    split; [exact Hf|].
    assert (E2 : 2 ^ (1074 + 1) = 2 * SC)
      by (rewrite Z.pow_add_r by lia; change (2 ^ 1074) with SC; lia).
    lia.
Qed.

Lemma updateAlpha_maxDatagramSize p : maxDatagramSize (updateAlpha p) = maxDatagramSize p.
Proof. unfold updateAlpha; frame_solve. Qed.

Lemma updateAlpha_congestionWindow p : congestionWindow (updateAlpha p) = congestionWindow p.
Proof. unfold updateAlpha; frame_solve. Qed.

Lemma updateAlpha_cwndCarry p : cwndCarry (updateAlpha p) = cwndCarry p.
Proof. unfold updateAlpha; frame_solve. Qed.

Lemma applyECN_maxDatagramSize p :
  maxDatagramSize (applyECNCongestionResponse p) = maxDatagramSize p.
Proof. unfold applyECNCongestionResponse; frame_solve. Qed.

Lemma applyECN_ecnMarkedBytes p :
  ecnMarkedBytes (applyECNCongestionResponse p) = ecnMarkedBytes p.
Proof. unfold applyECNCongestionResponse; frame_solve. Qed.

Lemma applyECN_totalAckedBytes p :
  totalAckedBytes (applyECNCongestionResponse p) = totalAckedBytes p.
Proof. unfold applyECNCongestionResponse; frame_solve. Qed.

(** The reduced window of the ECN response before the floor is applied:
    finite, whatever the carry was. *)
Lemma reductionFactor_ok a :
  alpha_ok a ->
  finite_ok (F64.sub F64.one (F64.div a F64.two)) /\
  lmag (F64.sub F64.one (F64.div a F64.two)) <= 1077.
Proof.
  intros Ha. pose proof (alpha_ok_lmag a Ha) as Hla. destruct Ha as [Hoa _].
  destruct one_ok as [Ho1 Hs1].
  assert (H2 : finite_ok F64.two /\ sval F64.two <> 0 /\ 1076 <= lmag F64.two)
    by (vm_compute; repeat split; discriminate).
  destruct H2 as (Ho2 & Hn2 & Hl2).
  pose proof (div_mag a F64.two 1075 1076 Hoa Ho2 Hn2 Hla Hl2
                ltac:(unfold F64.emax; lia)) as (Hoh & _ & _ & Hlh).
  unfold emin in Hlh.
  assert (Hl1 : lmag F64.one <= 1075) by (vm_compute; discriminate).
  pose proof (sub_mag F64.one _ 1075 1075 Ho1 Hoh Hl1 ltac:(lia)
                ltac:(unfold F64.emax, emin; lia)) as (Hok & _ & _ & Hl).
  split; [exact Hok | lia].
Qed.

Lemma applyECN_floor p :
  alpha_ok (alpha p) -> carry_ok (cwndCarry p) ->
  0 < maxDatagramSize p < 2 ^ 16 ->
  2 * maxDatagramSize p <= congestionWindow p < 2 ^ 53 ->
  2 * maxDatagramSize p <= congestionWindow (applyECNCongestionResponse p) /\
  carry_ok (cwndCarry (applyECNCongestionResponse p)).
Proof.
  intros Ha Hc Hm Hw. pose proof SC_pos as Hsc.
  unfold applyECNCongestionResponse.
  destruct (F64.leb (alpha p) F64.zero); [split; [lia | exact Hc]|].
  cbv zeta. get_set.
  destruct (reductionFactor_ok (alpha p) Ha) as [HoB HlB].
  set (B := F64.sub F64.one (F64.div (alpha p) F64.two)) in *.
  destruct (of_int_exact (congestionWindow p) ltac:(lia)) as [HoA HsA].
  set (A := F64.of_int (congestionWindow p)) in *.
  assert (HlA : lmag A <= 1127).
  { apply lmag_le; [lia|]. rewrite HsA.
    assert (E : 2 ^ 1127 = 2 ^ 53 * SC)
      by (unfold SC, emin; rewrite <- Z.pow_add_r by lia; reflexivity).
    rewrite E. nia. }
  pose proof (mul_mag A B 1127 1077 HoA HoB HlA HlB
                ltac:(unfold F64.emax, emin; lia)) as (HoN & _ & _ & HlN).
  unfold emin in HlN.
  set (N0 := F64.mul A B) in *.
  pose proof (sub_mag A N0 1127 1131 HoA HoN HlA ltac:(lia)
                ltac:(unfold F64.emax, emin; lia)) as (HoD & _ & _ & HlD).
  set (D := F64.sub A N0) in *.
  assert (Hmin : minCongestionWindow p = 2 * maxDatagramSize p)
    by (apply minCongestionWindow_small; unfold Int64.min_int, Int64.max_int; lia).
  assert (Hfl : forall X, finite_ok X -> lmag X <= 1137 ->
                2 * maxDatagramSize p
                <= F64.to_int (F64.max X (F64.of_int (2 * maxDatagramSize p)))).
  { intros X HX HlX. apply to_int_max_floor; [exact HX | unfold emin; lia | lia]. }
  destruct (carry_add (cwndCarry p) D Hc HoD ltac:(lia)) as [Hcn | [Hcn | Hcn]];
    set (cn := F64.add (cwndCarry p) D) in *.
  - rewrite Hcn. change (F64.leb F64.one (S754_infinity true)) with false.
    cbv beta iota. unfold minCongestionWindow at 1. get_set.
    fold (minCongestionWindow p). rewrite Hmin.
    split; [|left; destruct (inSlowStart _); get_set; reflexivity].
    destruct (inSlowStart _); get_set; apply Hfl; try assumption; lia.
  - destruct Hcn as [Hocn Hscn]. destruct one_ok as [Ho1 Hs1].
    rewrite (leb_sval F64.one cn Ho1 Hocn), Hs1.
    destruct (Z.leb_spec SC (sval cn)) as [Hge|_]; [lia|].
    cbv beta iota. unfold minCongestionWindow at 1. get_set.
    fold (minCongestionWindow p). rewrite Hmin.
    split; [|right; destruct (inSlowStart _); get_set; split; try assumption; lia].
    destruct (inSlowStart _); get_set; apply Hfl; try assumption; lia.
  - destruct Hcn as (Hocn & Hscn & Hlcn). destruct one_ok as [Ho1 Hs1].
    rewrite (leb_sval F64.one cn Ho1 Hocn), Hs1.
    destruct (Z.leb_spec SC (sval cn)) as [Hge|Hlt].
    + destruct (carry_reduce cn Hocn Hge Hlcn) as (Hred & Hor & Hlr & Hcr).
      pose proof (sub_mag N0 _ 1131 1135 HoN Hor ltac:(lia) Hlr
                    ltac:(unfold F64.emax, emin; lia)) as (HoX & _ & _ & HlX).
      cbv beta iota. unfold minCongestionWindow at 1. get_set.
      fold (minCongestionWindow p). rewrite Hmin.
      split; [|destruct (inSlowStart _); get_set; exact Hcr].
      destruct (inSlowStart _); get_set; apply Hfl; try assumption; lia.
    + cbv beta iota. unfold minCongestionWindow at 1. get_set.
      fold (minCongestionWindow p). rewrite Hmin.
      split; [|right; destruct (inSlowStart _); get_set; split; try assumption; lia].
      destruct (inSlowStart _); get_set; apply Hfl; try assumption; lia.
Qed.

(** The bytes additive increase counts: between 0 and 2^36. *)
Lemma unmarkedBytes_range a ackedBytes :
  alpha_ok a -> 0 <= ackedBytes < 2 ^ 32 ->
  0 <= F64.to_int (F64.mul (F64.of_int ackedBytes) (F64.sub F64.one a)) < 2 ^ 36.
Proof.
  intros [Hoa [Ha0 Ha1]] Hb. pose proof SC_pos as Hsc.
  destruct one_ok as [Ho1 Hs1].
  assert (Habs : Z.abs (sval F64.one - sval a) < 2 ^ 1075).
  { rewrite Hs1. assert (E : 2 ^ 1075 = 2 * SC)
      by (change 1075 with (1 + 1074); rewrite Z.pow_add_r by lia; reflexivity).
    lia. }
  pose proof (sub_approx F64.one a Ho1 Hoa
                (magnitude_fits_le _ 1075 ltac:(unfold F64.emax, emin; lia) Habs))
    as Hsub.
  destruct (approx_le _ 1075 _ Hsub ltac:(lia) Habs) as (Hoc & Hpc & _ & Hbc).
  specialize (Hpc ltac:(lia)).
  pose proof (lmag_le _ (1075 + 1) ltac:(lia) Hbc) as Hlc.
  destruct (of_int_exact ackedBytes ltac:(lia)) as [Hob Hsb].
  assert (Hlb : lmag (F64.of_int ackedBytes) <= 1106).
  { apply lmag_le; [lia|]. rewrite Hsb.
    assert (E : 2 ^ 1106 = 2 ^ 32 * SC)
      by (unfold SC, emin; rewrite <- Z.pow_add_r by lia; reflexivity).
    rewrite E. nia. }
  pose proof (mul_mag _ _ 1106 1076 Hob Hoc Hlb Hlc
                ltac:(unfold F64.emax, emin; lia)) as Hmul.
  unfold emin in Hmul.
  destruct (to_int_mag _ _ _ (approx_mag_weaken _ _ 1110 _ Hmul ltac:(lia))
              ltac:(rewrite Hsb; nia) ltac:(unfold emin; lia)) as [_ Hr].
  unfold emin in Hr. exact Hr.
Qed.

Lemma increase_range mds unmarked cwnd :
  0 < mds < 2 ^ 16 -> 0 <= unmarked < 2 ^ 36 -> 0 < cwnd < 2 ^ 53 ->
  0 <= F64.to_int (F64.div (F64.mul (F64.of_int mds) (F64.of_int unmarked))
                           (F64.of_int cwnd)) < 2 ^ 54.
Proof.
  intros Hm Hu Hc. pose proof SC_pos as Hsc.
  destruct (of_int_exact mds ltac:(lia)) as [Hom Hsm].
  destruct (of_int_exact unmarked ltac:(lia)) as [Hou Hsu].
  assert (Hlm : lmag (F64.of_int mds) <= 1090).
  { apply lmag_le; [lia|]. rewrite Hsm.
    assert (E : 2 ^ 1090 = 2 ^ 16 * SC)
      by (unfold SC, emin; rewrite <- Z.pow_add_r by lia; reflexivity).
    rewrite E. nia. }
  assert (Hlu : lmag (F64.of_int unmarked) <= 1110).
  { apply lmag_le; [lia|]. rewrite Hsu.
    assert (E : 2 ^ 1110 = 2 ^ 36 * SC)
      by (unfold SC, emin; rewrite <- Z.pow_add_r by lia; reflexivity).
    rewrite E. nia. }
  pose proof (mul_mag _ _ 1090 1110 Hom Hou Hlm Hlu
                ltac:(unfold F64.emax, emin; lia)) as HM.
  unfold emin in HM.
  assert (HMs : 0 <= sval (F64.mul (F64.of_int mds) (F64.of_int unmarked))).
  { destruct HM as (_ & Hp & _). apply Hp. rewrite Hsm, Hsu. nia. }
  destruct HM as (HoM & _ & _ & HlM).
  assert (Hd : 0 < Zdigits2 cwnd <= 53)
    by (split; [apply Zdigits2_pos; lia | apply Zdigits2_le; lia]).
  destruct (of_int_pos cwnd ltac:(lia) ltac:(unfold F64.emax; lia))
    as (Hoc & Hpc & Hlc & _).
  pose proof (div_mag _ _ 1127 1075 HoM Hoc ltac:(lia) ltac:(lia)
                ltac:(unfold emin in Hlc; lia) ltac:(unfold F64.emax; lia)) as Hdiv.
  unfold emin in Hdiv.
  destruct (to_int_mag _ _ _ (approx_mag_weaken _ _ 1128 _ Hdiv ltac:(lia))
              ltac:(nia) ltac:(unfold emin; lia)) as [_ Hr].
  unfold emin in Hr. exact Hr.
Qed.

Lemma pragueAdditiveIncrease_floor p ackedBytes :
  alpha_ok (alpha p) -> 0 < maxDatagramSize p < 2 ^ 16 ->
  0 < congestionWindow p < 2 ^ 53 -> 0 <= ackedBytes < 2 ^ 32 ->
  congestionWindow p <= congestionWindow (pragueAdditiveIncrease p ackedBytes).
Proof.
  intros Ha Hm Hc Hb. unfold pragueAdditiveIncrease.
  destruct (_ <=? _); [lia|]. cbv zeta. get_set.
  match goal with
  | |- context [F64.of_int (if ?b then ?x else ?y)] =>
      set (unmarked := if b then x else y);
      assert (Hu : 0 <= unmarked < 2 ^ 36)
        by (subst unmarked; destruct b; [now apply unmarkedBytes_range | lia])
  end.
  pose proof (increase_range _ _ _ Hm Hu Hc) as Hi.
  unfold Int64.add. rewrite wrap_small by (unfold Int64.min_int, Int64.max_int; lia).
  lia.
Qed.

(** Fields that an acknowledgement leaves alone. *)

Lemma pragueAdditiveIncrease_maxDatagramSize p a :
  maxDatagramSize (pragueAdditiveIncrease p a) = maxDatagramSize p.
Proof. unfold pragueAdditiveIncrease; frame_solve. Qed.

Lemma pragueAdditiveIncrease_cwndCarry p a :
  cwndCarry (pragueAdditiveIncrease p a) = cwndCarry p.
Proof. unfold pragueAdditiveIncrease; frame_solve. Qed.

Lemma OnPacketAcked_maxDatagramSize p n a f t :
  maxDatagramSize (OnPacketAcked p n a f t) = maxDatagramSize p.
Proof.
  unfold OnPacketAcked, MaybeExitSlowStart; cbv zeta.
  repeat (rewrite ?pragueAdditiveIncrease_maxDatagramSize; get_set;
          try reflexivity; try break_if_inner).
Qed.

Lemma OnPacketAcked_cwndCarry p n a f t :
  cwndCarry (OnPacketAcked p n a f t) = cwndCarry p.
Proof.
  unfold OnPacketAcked, MaybeExitSlowStart; cbv zeta.
  repeat (rewrite ?pragueAdditiveIncrease_cwndCarry; get_set;
          try reflexivity; try break_if_inner).
Qed.

Lemma OnPacketAcked_floor p n a f t :
  alpha_ok (alpha p) -> 0 < maxDatagramSize p < 2 ^ 16 ->
  0 < congestionWindow p < 2 ^ 53 -> 0 <= a < 2 ^ 32 ->
  congestionWindow p <= congestionWindow (OnPacketAcked p n a f t).
Proof.
  intros Ha Hm Hc Hb. unfold OnPacketAcked, MaybeExitSlowStart; cbv zeta.
  assert (Hss : congestionWindow p <= Int64.add (congestionWindow p) a).
  { unfold Int64.add. rewrite wrap_small by (unfold Int64.min_int, Int64.max_int; lia).
    lia. }
  repeat (get_set; try break_if_inner); try lia;
    (eapply Z.le_trans; [|apply pragueAdditiveIncrease_floor]); get_set;
    try assumption; lia.
Qed.

Lemma OnECNFeedback_floor p x :
  floor_ok p -> congestionWindow p < 2 ^ 53 ->
  maxDatagramSize (OnECNFeedback p x) = maxDatagramSize p /\
  2 * maxDatagramSize p <= congestionWindow (OnECNFeedback p x) /\
  carry_ok (cwndCarry (OnECNFeedback p x)).
Proof.
  intros (Hs & Hm & Hf & Hc) Hw. pose proof Hs as (Ha & Hg & He & Ht).
  unfold OnECNFeedback.
  destruct (negb (l4sEnabled p)); [auto|]. cbv zeta.
  set (q := set_ecnMarkedBytes p (Int64.add (ecnMarkedBytes p) x)).
  assert (Hq : sample_ok q).
  { unfold sample_ok, q. get_set.
    split; [exact Ha|split; [exact Hg|split; [apply int64_ok_add|exact Ht]]]. }
  destruct (Z.ltb_spec 0 (totalAckedBytes q)) as [Hpos|_];
    [|unfold q; get_set; auto].
  get_set. rewrite applyECN_maxDatagramSize, updateAlpha_maxDatagramSize.
  split; [reflexivity|].
  assert (Hmq : maxDatagramSize q = maxDatagramSize p) by reflexivity.
  rewrite <- Hmq, <- (updateAlpha_maxDatagramSize q).
  apply applyECN_floor.
  - now apply updateAlpha_alpha_ok.
  - rewrite updateAlpha_cwndCarry. exact Hc.
  - rewrite updateAlpha_maxDatagramSize. exact Hm.
  - rewrite updateAlpha_maxDatagramSize, updateAlpha_congestionWindow.
    unfold q; get_set. lia.
Qed.

(** Every call made under [call_ok] keeps the window floor. *)
Lemma step_floor_ok K p c p' :
  floor_ok p -> call_ok p c -> step K p c = Some p' -> floor_ok p'.
Proof.
  intros Hp [Hw Hc] H.
  pose proof (step_sample_ok K p c p' (proj1 Hp) H) as Hs'.
  pose proof Hp as (Hs & Hm & Hf & Hcr).
  unfold floor_ok. split; [exact Hs'|]. clear Hs'.
  assert (Hmin : minCongestionWindow p = 2 * maxDatagramSize p)
    by (apply minCongestionWindow_small; unfold Int64.min_int, Int64.max_int; lia).
  step_cases H.
  - unfold OnPacketSent. repeat (get_set; try break_if_inner); auto.
  - unfold MaybeExitSlowStart. repeat (get_set; try break_if_inner); auto.
  - rewrite OnPacketAcked_maxDatagramSize, OnPacketAcked_cwndCarry.
    split; [exact Hm|]. split; [|exact Hcr].
    eapply Z.le_trans; [exact Hf|]. apply OnPacketAcked_floor; try assumption;
      [apply Hs | lia].
  - match goal with
    | |- context [OnCongestionEvent p ?n ?l ?f] =>
        destruct (Z_le_gt_dec n (largestSentAtLastCutback p)) as [Hle|Hgt];
        [ rewrite (OnCongestionEvent_ignored p n l f Hle); auto
        | destruct (OnCongestionEvent_reacts p n l f ltac:(lia) ltac:(lia) ltac:(lia))
            as (_ & Hcw & _ & _ & _ & _ & Hmd & _ & Hcc & _);
          rewrite Hcw, Hmd, Hcc; split; [exact Hm|]; split; [lia | exact Hcr] ]
    end.
  - unfold OnRetransmissionTimeout; cbv zeta. unfold minCongestionWindow at 1.
    get_set. fold (minCongestionWindow p). rewrite Hmin.
    split; [exact Hm|]. split; [lia | exact Hcr].
  - destruct Hc as [Hsz Hcase].
    match goal with Hlt : (_ <? _) = false |- _ => apply Z.ltb_ge in Hlt end.
    match goal with
    | |- context [if ?b then _ else _] => destruct b eqn:Hb
    end.
    + get_set. unfold minCongestionWindow. get_set.
      unfold Int64.mul, pragueMinCwnd.
      rewrite wrap_small by (unfold Int64.min_int, Int64.max_int; lia).
      split; [lia|]. split; [lia | exact Hcr].
    + get_set. apply Z.eqb_neq in Hb.
      split; [lia|]. split; [|exact Hcr].
      destruct Hcase as [Heq|Hge]; [contradiction | exact Hge].
  - destruct (OnECNFeedback_floor p ecnBytes Hp Hw) as (Hmd & Hfl & Hcc).
    rewrite Hmd. auto.
Qed.

(** The window floor holds on a fresh sender for a plausible datagram
    size. *)
Lemma newPragueSender_floor_ok K mds l4s :
  0 < mds < 2 ^ 16 -> floor_ok (newPragueSender K mds l4s).
Proof.
  intros Hm. unfold floor_ok. split; [apply newPragueSender_sample_ok|].
  unfold newPragueSender; cbn [maxDatagramSize congestionWindow cwndCarry].
  unfold Int64.mul, pragueInitialCwnd.
  rewrite wrap_small by (unfold Int64.min_int, Int64.max_int; lia).
  split; [exact Hm|]. split; [lia|].
  right. pose proof SC_pos. split; [exact I | cbn; lia].
Qed.

Lemma run_floor_ok K cs : forall p p',
  floor_ok p -> calls_ok K p cs -> run K p cs = Some p' -> floor_ok p'.
Proof.
  induction cs as [|c cs IH]; intros p p' Hp Hok Hrun; cbn in Hrun, Hok.
  - now inversion Hrun; subst.
  - destruct Hok as [Hc Hrest].
    destruct (step K p c) as [q|] eqn:Hq; [|discriminate].
    eapply IH; [eapply step_floor_ok; eassumption | exact Hrest | exact Hrun].
Qed.

Lemma calls_ok_app_l K cs1 cs2 : forall p,
  calls_ok K p (cs1 ++ cs2) -> calls_ok K p cs1.
Proof.
  induction cs1 as [|c cs1 IH]; intros p H; cbn in *; [exact I|].
  destruct H as [Hc Hrest]. split; [exact Hc|].
  destruct (step K p c); [now apply IH | exact I].
Qed.

(** * The specification's claims *)

(** C1 (code deviates): the claim bounds one ECN response by the factor
    [1 - alpha/2], so a window of 50400 bytes with [alpha = 1] should stay at
    25200 or more, and the cold-start window of 38400 should become 19200.
    The sender subtracts the reduction a second time through [cwndCarry] and
    lands on the minimum window of 2400 bytes in both cases. *)
Theorem C1_ecn_response_reduces_twice :
  alpha (OnECNFeedback acked12000 2400) = F64.one /\
  congestionWindow acked12000 = 50400 /\
  congestionWindow (OnECNFeedback acked12000 2400) = 2400 /\
  Z.max (minCongestionWindow acked12000) (congestionWindow acked12000 / 2)
    = 25200 /\
  congestionWindow coldStart = 38400 /\
  alpha (OnECNFeedback coldStart 2400) = F64.one /\
  congestionWindow (OnECNFeedback coldStart 2400) = 2400.
Proof. vm_compute. repeat split; reflexivity. Qed.

(** C2 (code deviates): the claim says an acknowledgement for a packet sent
    after the last cutback clears [inRecovery].  No branch of
    [OnPacketAcked] writes the flag: it keeps its value on every call, and in
    the specification's scenario (loss with 200 as largest sent packet, then
    packet 201 acknowledged) the sender still reports recovery. *)
Theorem C2_ack_never_clears_recovery :
  (forall p number ackedBytes priorInFlight eventTime,
      inRecovery (OnPacketAcked p number ackedBytes priorInFlight eventTime)
      = inRecovery p) /\
  inRecovery afterLoss = true /\
  largestSentAtLastCutback afterLoss = 200 /\
  InRecovery (OnPacketAcked afterLoss 201 1200 0 0) = true.
Proof.
  split; [intros; apply OnPacketAcked_inRecovery|].
  vm_compute; repeat split; reflexivity.
Qed.

(** C3 (as stated, fails): after a retransmission timeout the window is
    the minimum, 2400 bytes; an acknowledgement of 200 bytes raises it to
    2500; raising the datagram size from 1200 to 1452 then leaves the
    window alone, because it is not equal to the old minimum, and 2500 is
    below the new minimum of 2904. *)
Lemma C3_counterexample :
  exists p,
    run quicgo_protocol fresh1200 raiseAfterTimeout = Some p /\
    maxDatagramSize p = 1452 /\
    congestionWindow p = 2500 /\
    ~ (2 * maxDatagramSize p <= congestionWindow p).
Proof.
  eexists. split; [vm_compute; reflexivity|].
  cbn. repeat split; lia.
Qed.

(** C3 (amended): start from a fresh sender whose datagram size is
    positive and below 2^16, and make calls such that the window is below
    2^53 bytes whenever a call is made, every acknowledgement is for at
    least 0 and less than 2^32 bytes, and the datagram size is set to a
    size below 2^16 only when the window equals the minimum window or
    already holds two datagrams of the new size.  Then after every call
    that has returned the window is at least two datagrams. *)
Theorem C3_window_floor :
  forall K mds l4s cs1 cs2 p,
    0 < mds < 2 ^ 16 ->
    calls_ok K (newPragueSender K mds l4s) (cs1 ++ cs2) ->
    run K (newPragueSender K mds l4s) cs1 = Some p ->
    2 * maxDatagramSize p <= congestionWindow p.
Proof.
  intros K mds l4s cs1 cs2 p Hm Hok Hrun.
  apply calls_ok_app_l in Hok.
  pose proof (run_floor_ok K cs1 _ p (newPragueSender_floor_ok K mds l4s Hm) Hok Hrun)
    as (_ & _ & Hf & _).
  exact Hf.
Qed.

Lemma C3_window_floor_witness :
  exists p,
    run quicgo_protocol fresh1200
      [CallRetransmissionTimeout true; CallSetMaxDatagramSize 1452;
       CallPacketAcked 1 200 0 0; CallECNFeedback 100] = Some p /\
    2 * maxDatagramSize p <= congestionWindow p.
Proof.
  eexists. split; [vm_compute; reflexivity|].
  apply (C3_window_floor quicgo_protocol 1200 true
           [CallRetransmissionTimeout true; CallSetMaxDatagramSize 1452;
            CallPacketAcked 1 200 0 0; CallECNFeedback 100]
           [CallCongestionEvent 5 1452 0]).
  - lia.
  - vm_compute. intuition (try reflexivity; try discriminate).
  - vm_compute. reflexivity.
Defined.

(** C4 (as stated, fails): from [alpha = 1.0] a sample with 1200 marked
    bytes of 12000 has marking fraction 0.1, and the moving average with gain
    1/16 gives 0.9375 + 0.00625: the new [alpha] is the binary64 nearest to
    0.94375, below the 0.95625 of the claim.  And where a sample has more
    marked than acknowledged bytes the moving average exceeds 1 and
    [alpha] is the clamp's 1, not the average. *)
Lemma C4_counterexample :
  (alpha steadySample = F64.one /\
   markingFraction steadySample = decimal5 10000 /\
   alpha (updateAlpha steadySample) = decimal5 94375 /\
   alpha (updateAlpha steadySample) <> decimal5 95625 /\
   F64.ltb (alpha (updateAlpha steadySample)) (decimal5 95625) = true) /\
  (alpha overMarkedSample = F64.one /\
   alpha (updateAlpha overMarkedSample) = F64.one /\
   alpha (updateAlpha overMarkedSample)
   <> ewma (alpha overMarkedSample) (markingFraction overMarkedSample)).
Proof.
  vm_compute. repeat split; try reflexivity; discriminate.
Qed.

(** C4 (amended): in every state a run of calls on a fresh sender reaches,
    [updateAlpha] on a non-empty sample sets [alpha] to the clamp to [0, 1]
    of: 1 when [alpha] was 0 and the marking fraction is positive, the moving
    average [(1 - 1/16) * alpha + (1/16) * f] otherwise; [alpha] is a finite
    number of [0, 1] in every such state, after [updateAlpha] on a sample
    window with acknowledged bytes and after every [OnECNFeedback]; and in
    the steady scenario, from [alpha = 1.0] and a 10% sample, the new
    [alpha] is the binary64 nearest to 0.94375. *)
Theorem C4_alpha_update :
  forall K mds l4s cs p,
    run K (newPragueSender K mds l4s) cs = Some p ->
    (totalAckedBytes p <> 0 ->
     alpha (updateAlpha p) = alphaUpdate_spec (alpha p) (markingFraction p)) /\
    (0 < totalAckedBytes p ->
     alpha_ok (alpha (updateAlpha p)) /\
     F64.leb F64.zero (alpha (updateAlpha p)) = true /\
     F64.leb (alpha (updateAlpha p)) F64.one = true) /\
    (forall x,
        alpha_ok (alpha (OnECNFeedback p x)) /\
        F64.leb F64.zero (alpha (OnECNFeedback p x)) = true /\
        F64.leb (alpha (OnECNFeedback p x)) F64.one = true) /\
    alpha (updateAlpha steadySample) = decimal5 94375 /\
    option_map alpha (run quicgo_protocol fresh1200 steadyCalls)
    = Some (decimal5 94375).
Proof.
  intros K mds l4s cs p Hrun.
  pose proof (run_sample_ok K mds l4s cs p Hrun) as Hp.
  split; [|split; [|split; [|split]]].
  - intros Ht. apply updateAlpha_alpha; [exact Ht | apply Hp].
  - intros Ht. pose proof (updateAlpha_alpha_ok p Hp Ht) as Ha.
    split; [exact Ha | now apply alpha_ok_leb].
  - intros x. destruct (OnECNFeedback_sample_ok p x Hp) as [Ha _].
    split; [exact Ha | now apply alpha_ok_leb].
  - vm_compute. reflexivity.
  - vm_compute. reflexivity.
Qed.

Lemma C4_alpha_update_witness :
  let p := OnPacketAcked (OnECNFeedback acked12000 2400) 2 12000 0 0 in
  (totalAckedBytes p <> 0 ->
   alpha (updateAlpha p) = alphaUpdate_spec (alpha p) (markingFraction p)) /\
  (0 < totalAckedBytes p ->
   alpha_ok (alpha (updateAlpha p)) /\
   F64.leb F64.zero (alpha (updateAlpha p)) = true /\
   F64.leb (alpha (updateAlpha p)) F64.one = true) /\
  (forall x,
      alpha_ok (alpha (OnECNFeedback p x)) /\
      F64.leb F64.zero (alpha (OnECNFeedback p x)) = true /\
      F64.leb (alpha (OnECNFeedback p x)) F64.one = true) /\
  alpha (updateAlpha steadySample) = decimal5 94375 /\
  option_map alpha (run quicgo_protocol fresh1200 steadyCalls)
  = Some (decimal5 94375).
Proof.
  exact (C4_alpha_update quicgo_protocol 1200 true
           [CallPacketAcked 1 12000 0 0; CallECNFeedback 2400;
            CallPacketAcked 2 12000 0 0] _ eq_refl).
Defined.

(** C5: a sender built with L4S disabled never has the flag set, and with
    the flag unset [OnECNFeedback] returns the sender it was given, whatever
    the argument: no field changes, [alpha] and the window included. *)
Theorem C5_no_ecn_response_without_l4s :
  forall K mds cs p x,
    run K (newPragueSender K mds false) cs = Some p ->
    l4sEnabled p = false /\
    OnECNFeedback p x = p /\
    alpha (OnECNFeedback p x) = alpha p /\
    congestionWindow (OnECNFeedback p x) = congestionWindow p.
Proof.
  intros K mds cs p x Hrun.
  assert (Hl : l4sEnabled p = false)
    by (rewrite (run_l4sEnabled _ _ _ _ Hrun); reflexivity).
  assert (He : OnECNFeedback p x = p)
    by (unfold OnECNFeedback; rewrite Hl; reflexivity).
  now rewrite He.
Qed.

Lemma C5_no_ecn_response_without_l4s_witness :
  let p := OnPacketAcked (newPragueSender quicgo_protocol 1200 false) 1 1200 0 0 in
  l4sEnabled p = false /\
  OnECNFeedback p 2400 = p /\
  alpha (OnECNFeedback p 2400) = alpha p /\
  congestionWindow (OnECNFeedback p 2400) = congestionWindow p.
Proof.
  exact (C5_no_ecn_response_without_l4s quicgo_protocol 1200
           [CallPacketAcked 1 1200 0 0] _ 2400 eq_refl).
Defined.

(** C6 (as stated, fails): the halving goes through binary64.  A window
    of 2^53 + 3 bytes, which one acknowledgement in slow start reaches, is
    not a binary64 number: it converts to 2^53 + 4, and the loss report sets
    the threshold to 2^52 + 2, not to the half 2^52 + 1.  And with a
    datagram size of 2^62 bytes twice the size wraps around to -2^63, so
    the window after a loss is the threshold 19200, far below two
    datagrams. *)
Lemma C6_counterexample :
  (largestSentAtLastCutback hugeWindow < 1 /\
   congestionWindow hugeWindow = 2 ^ 53 + 3 /\
   congestionWindow hugeWindow / 2 = 2 ^ 52 + 1 /\
   slowStartThreshold (OnCongestionEvent hugeWindow 1 1200 0) = 2 ^ 52 + 2) /\
  (SetMaxDatagramSize fresh1200 (2 ^ 62) = Some hugeDatagram /\
   largestSentAtLastCutback hugeDatagram < 1 /\
   congestionWindow hugeDatagram = 38400 /\
   congestionWindow (OnCongestionEvent hugeDatagram 1 1200 0) = 19200 /\
   Z.max (2 * maxDatagramSize hugeDatagram) (congestionWindow hugeDatagram / 2)
   = 2 ^ 63).
Proof.
  vm_compute. repeat split; reflexivity.
Qed.

(** C6 (amended): a loss report for a packet number at or below
    [largestSentAtLastCutback] returns the sender it was given, so a
    repeated report changes nothing.  A report above it leaves slow start,
    enters recovery and records the largest sent packet number; and when
    the window is at least 0 and below 2^53 bytes and the datagram size at
    least 0 and below 2^52 bytes, it sets the slow-start threshold to half
    the window, rounded down, and the window to the larger of two
    datagrams and that threshold. *)
Theorem C6_loss_reaction :
  forall p number lostBytes priorInFlight,
    (number <= largestSentAtLastCutback p ->
     OnCongestionEvent p number lostBytes priorInFlight = p /\
     OnCongestionEvent (OnCongestionEvent p number lostBytes priorInFlight)
       number lostBytes priorInFlight
     = OnCongestionEvent p number lostBytes priorInFlight) /\
    (largestSentAtLastCutback p < number ->
     let p' := OnCongestionEvent p number lostBytes priorInFlight in
     inSlowStart p' = false /\
     inRecovery p' = true /\
     largestSentAtLastCutback p' = largestSentPacketNumber p) /\
    (largestSentAtLastCutback p < number ->
     0 <= congestionWindow p < 2 ^ 53 ->
     0 <= maxDatagramSize p < 2 ^ 52 ->
     let p' := OnCongestionEvent p number lostBytes priorInFlight in
     slowStartThreshold p' = congestionWindow p / 2 /\
     congestionWindow p'
     = Z.max (2 * maxDatagramSize p) (congestionWindow p / 2) /\
     inSlowStart p' = false /\
     inRecovery p' = true /\
     largestSentAtLastCutback p' = largestSentPacketNumber p).
Proof.
  intros p n l f. split; [|split].
  - intros H. rewrite !(OnCongestionEvent_ignored p n l f H). auto.
  - intros Hn p'.
    destruct (OnCongestionEvent_fields p n l f Hn) as (_ & _ & Hss & Hr & Hl).
    fold p' in Hss, Hr, Hl. auto.
  - intros Hn Hc Hm p'.
    destruct (OnCongestionEvent_reacts p n l f Hn Hc Hm)
      as (Hs & Hw & Hss & Hr & Hl & _).
    fold p' in Hs, Hw, Hss, Hr, Hl. auto.
Qed.

Lemma C6_loss_reaction_witness :
  (OnCongestionEvent afterLoss 100 1200 0 = afterLoss /\
   OnCongestionEvent (OnCongestionEvent afterLoss 100 1200 0) 100 1200 0
   = OnCongestionEvent afterLoss 100 1200 0) /\
  (let p' := OnCongestionEvent hugeWindow 1 1200 0 in
   inSlowStart p' = false /\
   inRecovery p' = true /\
   largestSentAtLastCutback p' = largestSentPacketNumber hugeWindow) /\
  (let p' := OnCongestionEvent fresh1200 1 1200 0 in
   slowStartThreshold p' = congestionWindow fresh1200 / 2 /\
   congestionWindow p'
   = Z.max (2 * maxDatagramSize fresh1200) (congestionWindow fresh1200 / 2) /\
   inSlowStart p' = false /\
   inRecovery p' = true /\
   largestSentAtLastCutback p' = largestSentPacketNumber fresh1200).
Proof.
  split; [|split].
  - apply (proj1 (C6_loss_reaction afterLoss 100 1200 0)). vm_compute. discriminate.
  - apply (proj1 (proj2 (C6_loss_reaction hugeWindow 1 1200 0))).
    vm_compute. reflexivity.
  - apply (proj2 (proj2 (C6_loss_reaction fresh1200 1 1200 0))).
    + vm_compute. reflexivity.
    + vm_compute. split; [discriminate | reflexivity].
    + vm_compute. split; [discriminate | reflexivity].
Defined.

(** C7: on short-header packets of a path where ECN is usable the selector
    answers ECT(1) exactly when L4S is enabled and the algorithm is Prague,
    and ECT(0) in every other case; on long-header packets it answers
    Not-ECT whatever the other inputs are. *)
Theorem C7_ecn_mode_selector :
  (forall l4s alg,
      ECNMode true l4s alg true = protocol.ECT1 <->
      l4s = true /\ alg = protocol.CongestionControlPrague) /\
  (forall l4s alg,
      ~ (l4s = true /\ alg = protocol.CongestionControlPrague) ->
      ECNMode true l4s alg true = protocol.ECT0) /\
  (forall ecn l4s alg, ECNMode ecn l4s alg false = protocol.ECNNon).
Proof.
  split; [|split].
  - intros l4s alg; destruct l4s, alg; cbn; split;
      try discriminate; try (intros [? ?]; discriminate); auto.
  - intros l4s alg H; destruct l4s, alg; cbn; try reflexivity;
      exfalso; apply H; auto.
  - reflexivity.
Qed.

(** C8: validation fails, with the one L4S-requires-Prague error, exactly
    when L4S is enabled and the algorithm is not Prague; every other
    configuration (and the nil configuration) passes; and defaulting a
    configuration with L4S enabled selects Prague, whatever the algorithm
    field held, so the defaulted configuration passes. *)
Theorem C8_config_validation :
  (forall c,
      validateConfigExample (Some c) = Some ErrL4SRequiresPrague <->
      quic.EnableL4S c = true /\
      quic.CongestionControlAlgorithm c <> protocol.CongestionControlPrague) /\
  (forall c,
      ~ (quic.EnableL4S c = true /\
         quic.CongestionControlAlgorithm c <> protocol.CongestionControlPrague) ->
      validateConfigExample (Some c) = None) /\
  validateConfigExample None = None /\
  (forall algZero c,
      quic.EnableL4S c = true ->
      quic.CongestionControlAlgorithm (populateConfigExample algZero (Some c))
      = protocol.CongestionControlPrague) /\
  (forall algZero c,
      validateConfigExample (Some (populateConfigExample algZero c)) = None).
Proof.
  split; [|split; [|split; [|split]]].
  - intros [l a ? ?]; destruct l, a; cbn; split;
      try discriminate; try (intros [? ?]; congruence);
      intros _; split; [reflexivity | discriminate].
  - intros [l a ? ?] H; destruct l, a; cbn in *;
      try reflexivity; exfalso; apply H; split; [reflexivity | discriminate].
  - reflexivity.
  - intros algZero c H; unfold populateConfigExample; cbn; rewrite H; reflexivity.
  - intros algZero [c|]; [destruct c as [l a ? ?]; destruct l, a | destruct algZero];
      reflexivity.
Qed.

(** C9: outside slow start, once the window has reached the initial
    maximum congestion window (the constant [DefaultInitialMaxStreamData]
    every sender is built with), [OnPacketAcked] leaves the window as it
    is: additive increase stops at this cap. *)
Theorem C9_additive_increase_cap :
  forall K mds l4s cs p number ackedBytes priorInFlight eventTime,
    run K (newPragueSender K mds l4s) cs = Some p ->
    inSlowStart p = false ->
    DefaultInitialMaxStreamData K <= congestionWindow p ->
    initialMaxCongestionWindow p = DefaultInitialMaxStreamData K /\
    congestionWindow (OnPacketAcked p number ackedBytes priorInFlight eventTime)
    = congestionWindow p.
Proof.
  intros K mds l4s cs p n a f t Hrun Hss Hcap.
  assert (Hi : initialMaxCongestionWindow p = DefaultInitialMaxStreamData K)
    by (rewrite (run_initialMaxCongestionWindow _ _ _ _ Hrun); reflexivity).
  split; [exact Hi|].
  unfold OnPacketAcked, pragueAdditiveIncrease; cbv zeta.
  destruct (largestAckedPacketNumber p <? n);
    repeat (get_set; try reflexivity; try break_if);
    try congruence;
    repeat match goal with
           | H : context [_ (set_totalAckedBytes _ _)] |- _ => revert H
           | H : context [_ (set_largestAckedPacketNumber _ _)] |- _ => revert H
           end; get_set; intros; try congruence; rewrite ?Hi in *; lia.
Qed.

Lemma C9_additive_increase_cap_witness :
  let p := OnCongestionEvent (OnPacketAcked fresh1200 1 2000000 0 0) 2 1200 0 in
  initialMaxCongestionWindow p = 524288 /\
  congestionWindow (OnPacketAcked p 3 1200 0 0) = congestionWindow p.
Proof.
  refine (C9_additive_increase_cap quicgo_protocol 1200 true
            [CallPacketAcked 1 2000000 0 0; CallCongestionEvent 2 1200 0]
            _ 3 1200 0 0 eq_refl _ _).
  - vm_compute; reflexivity.
  - vm_compute; discriminate.
Defined.

(** C10: a sender starts in slow start, no call turns [inSlowStart] from
    false to true, so after it is first false it is false after every later
    run of calls; and it is false after a retransmission timeout. *)
Theorem C10_slow_start_never_reentered :
  (forall K mds l4s, inSlowStart (newPragueSender K mds l4s) = true) /\
  (forall K p c p',
      step K p c = Some p' -> inSlowStart p = false -> inSlowStart p' = false) /\
  (forall K p cs p',
      run K p cs = Some p' -> inSlowStart p = false -> inSlowStart p' = false) /\
  (forall K p r, inSlowStart (OnRetransmissionTimeout K p r) = false).
Proof.
  repeat split.
  - intros K p c p'; apply step_inSlowStart.
  - intros K p cs p'; apply run_inSlowStart.
Qed.

Lemma C10_slow_start_never_reentered_witness :
  inSlowStart fresh1200 = true /\
  inSlowStart (OnPacketAcked (OnRetransmissionTimeout quicgo_protocol fresh1200 true)
                 1 1200 0 0) = false.
Proof.
  split.
  - exact (proj1 C10_slow_start_never_reentered quicgo_protocol 1200 true).
  - exact (proj1 (proj2 (proj2 C10_slow_start_never_reentered)) quicgo_protocol
             (OnRetransmissionTimeout quicgo_protocol fresh1200 true)
             [CallPacketAcked 1 1200 0 0] _ eq_refl eq_refl).
Defined.

(** * Further properties of the sender *)

Lemma sender_eta p :
  mkPragueSender (alpha p) (alphaGain p) (congestionWindow p)
    (slowStartThreshold p) (cwndCarry p) (virtualRTTMin p)
    (largestSentPacketNumber p) (largestAckedPacketNumber p)
    (largestSentAtLastCutback p) (ecnMarkedBytes p) (totalAckedBytes p)
    (l4sEnabled p) (inSlowStart p) (inRecovery p)
    (lastCutbackExitedSlowstart p) (maxDatagramSize p)
    (initialCongestionWindow p) (initialMaxCongestionWindow p) = p.
Proof. destruct p; reflexivity. Qed.

(** Two senders with the same fields are the same sender. *)
Lemma sender_ext p q :
  alpha p = alpha q -> alphaGain p = alphaGain q ->
  congestionWindow p = congestionWindow q ->
  slowStartThreshold p = slowStartThreshold q ->
  cwndCarry p = cwndCarry q -> virtualRTTMin p = virtualRTTMin q ->
  largestSentPacketNumber p = largestSentPacketNumber q ->
  largestAckedPacketNumber p = largestAckedPacketNumber q ->
  largestSentAtLastCutback p = largestSentAtLastCutback q ->
  ecnMarkedBytes p = ecnMarkedBytes q -> totalAckedBytes p = totalAckedBytes q ->
  l4sEnabled p = l4sEnabled q -> inSlowStart p = inSlowStart q ->
  inRecovery p = inRecovery q ->
  lastCutbackExitedSlowstart p = lastCutbackExitedSlowstart q ->
  maxDatagramSize p = maxDatagramSize q ->
  initialCongestionWindow p = initialCongestionWindow q ->
  initialMaxCongestionWindow p = initialMaxCongestionWindow q ->
  p = q.
Proof. destruct p, q; cbn; intros; subst; reflexivity. Qed.

(** Closes [call p .. = setters p ..] field by field. *)
Ltac by_fields := apply sender_ext; get_set; try reflexivity; try lia.

(** *** What each method may write *)

Ltac use_ltb :=
  repeat match goal with
         | H : (_ <? _) = true |- _ => apply Z.ltb_lt in H
         | H : (_ <? _) = false |- _ => apply Z.ltb_ge in H
         | H : (_ <=? _) = true |- _ => apply Z.leb_le in H
         | H : (_ <=? _) = false |- _ => apply Z.leb_gt in H
         end.

Lemma OnPacketAcked_writes p n a f t :
  OnPacketAcked p n a f t
  = set_inSlowStart
      (set_congestionWindow
         (set_totalAckedBytes
            (set_largestAckedPacketNumber p (Z.max (largestAckedPacketNumber p) n))
            (Int64.add (totalAckedBytes p) a))
         (congestionWindow (OnPacketAcked p n a f t)))
      (inSlowStart (OnPacketAcked p n a f t)).
Proof.
  apply sender_ext; get_set; try reflexivity;
    unfold OnPacketAcked, MaybeExitSlowStart, pragueAdditiveIncrease; cbv zeta;
    repeat (get_set; try reflexivity; try break_if_inner);
    use_ltb; lia.
Qed.

Lemma updateAlpha_frame {A} (f : pragueSender -> A) p :
  (forall q v, f (set_alpha q v) = f q) -> f (updateAlpha p) = f p.
Proof.
  intros H. unfold updateAlpha. cbv zeta.
  repeat (get_set; rewrite ?H; try reflexivity; try break_if_inner).
Qed.

Lemma applyECN_frame {A} (f : pragueSender -> A) p :
  (forall q v, f (set_cwndCarry q v) = f q) ->
  (forall q v, f (set_congestionWindow q v) = f q) ->
  (forall q v, f (set_inSlowStart q v) = f q) ->
  f (applyECNCongestionResponse p) = f p.
Proof.
  intros H1 H2 H3. unfold applyECNCongestionResponse. cbv zeta.
  repeat (get_set; rewrite ?H1, ?H2, ?H3; try reflexivity; try break_if_inner).
Qed.

Lemma OnECNFeedback_frame {A} (f : pragueSender -> A) p x :
  (forall q v, f (set_alpha q v) = f q) ->
  (forall q v, f (set_cwndCarry q v) = f q) ->
  (forall q v, f (set_congestionWindow q v) = f q) ->
  (forall q v, f (set_inSlowStart q v) = f q) ->
  (forall q v, f (set_ecnMarkedBytes q v) = f q) ->
  (forall q v, f (set_totalAckedBytes q v) = f q) ->
  f (OnECNFeedback p x) = f p.
Proof.
  intros H1 H2 H3 H4 H5 H6. unfold OnECNFeedback. cbv zeta.
  destruct (negb (l4sEnabled p)); [reflexivity|].
  destruct (0 <? _); rewrite ?H6, ?H5; [|reflexivity].
  rewrite (applyECN_frame f) by assumption.
  rewrite (updateAlpha_frame f) by assumption.
  apply H5.
Qed.

Lemma OnPacketAcked_frame {A} (f : pragueSender -> A) p n a b t :
  (forall q v, f (set_congestionWindow q v) = f q) ->
  (forall q v, f (set_inSlowStart q v) = f q) ->
  (forall q v, f (set_largestAckedPacketNumber q v) = f q) ->
  (forall q v, f (set_totalAckedBytes q v) = f q) ->
  f (OnPacketAcked p n a b t) = f p.
Proof.
  intros H1 H2 H3 H4. rewrite OnPacketAcked_writes. now rewrite H2, H1, H4, H3.
Qed.

(** *** Packet numbers *)





(** *** Acknowledgements *)

(** X2: every acknowledgement is counted: [OnPacketAcked] raises
    [largestAckedPacketNumber] to the acknowledged number if that is larger
    and adds the acknowledged bytes to [totalAckedBytes] in all of its
    branches, and besides these two it can write only the window and the
    slow-start flag.  While the sender is in recovery an acknowledgement for
    a packet sent before the cutback leaves even those two as they are. *)
Theorem X2_ack_accounting :
  forall p number ackedBytes priorInFlight eventTime,
    let p' := OnPacketAcked p number ackedBytes priorInFlight eventTime in
    largestAckedPacketNumber p' = Z.max (largestAckedPacketNumber p) number /\
    totalAckedBytes p' = Int64.add (totalAckedBytes p) ackedBytes /\
    p' = set_inSlowStart
           (set_congestionWindow
              (set_totalAckedBytes
                 (set_largestAckedPacketNumber p
                    (Z.max (largestAckedPacketNumber p) number))
                 (Int64.add (totalAckedBytes p) ackedBytes))
              (congestionWindow p'))
           (inSlowStart p') /\
    (inRecovery p = true -> number <= largestSentAtLastCutback p ->
     congestionWindow p' = congestionWindow p /\
     inSlowStart p' = inSlowStart p).
Proof.
  intros p n a f t p'. subst p'.
  pose proof (OnPacketAcked_writes p n a f t) as Hw.
  split; [rewrite Hw; reflexivity|]. split; [rewrite Hw; reflexivity|].
  split; [exact Hw|].
  intros Hr Hn. apply Z.leb_le in Hn.
  unfold OnPacketAcked. cbv zeta. get_set.
  destruct (largestAckedPacketNumber p <? n); get_set; rewrite Hr, Hn;
    cbn [andb]; get_set; auto.
Qed.

Lemma X2_ack_accounting_witness :
  let p' := OnPacketAcked afterLoss 150 1200 0 0 in
  congestionWindow p' = congestionWindow afterLoss /\
  inSlowStart p' = inSlowStart afterLoss.
Proof.
  apply (X2_ack_accounting afterLoss 150 1200 0 0).
  - vm_compute. reflexivity.
  - vm_compute. discriminate.
Defined.

(** X3: in slow start, outside the frozen part of recovery, an
    acknowledgement of [ackedBytes >= 0] bytes grows the window by exactly
    that many bytes (as long as the sum is an [int64]), and the sender
    leaves slow start with this call exactly when [alpha] is positive or
    the grown window has reached the slow-start threshold. *)
Theorem X3_slow_start_growth :
  forall p number ackedBytes priorInFlight eventTime,
    inSlowStart p = true ->
    inRecovery p && (number <=? largestSentAtLastCutback p) = false ->
    0 <= ackedBytes ->
    Int64.min_int <= congestionWindow p ->
    congestionWindow p + ackedBytes <= Int64.max_int ->
    let p' := OnPacketAcked p number ackedBytes priorInFlight eventTime in
    congestionWindow p' = congestionWindow p + ackedBytes /\
    (inSlowStart p' = false <->
     F64.ltb F64.zero (alpha p) = true \/
     slowStartThreshold p <= congestionWindow p + ackedBytes).
Proof.
  intros p n a f t Hss Hrec Ha Hlo Hhi p'. subst p'.
  assert (Hadd : Int64.add (congestionWindow p) a = congestionWindow p + a)
    by (unfold Int64.add; apply wrap_small; lia).
  unfold OnPacketAcked, MaybeExitSlowStart. cbv zeta. get_set.
  destruct (largestAckedPacketNumber p <? n); get_set; rewrite Hrec, Hss, Hadd;
    cbn [andb];
    destruct (F64.ltb F64.zero (alpha p)); cbn [orb];
    try (destruct (Z.leb_spec (slowStartThreshold p) (congestionWindow p + a)));
    get_set; (split; [reflexivity|]); rewrite ?Hss;
    split; intros; auto; try discriminate; try lia;
    match goal with H : _ \/ _ |- _ => destruct H; [discriminate | lia] end.
Qed.

Lemma X3_slow_start_growth_witness :
  let p' := OnPacketAcked fresh1200 1 1200 0 0 in
  congestionWindow p' = congestionWindow fresh1200 + 1200 /\
  (inSlowStart p' = false <->
   F64.ltb F64.zero (alpha fresh1200) = true \/
   slowStartThreshold fresh1200 <= congestionWindow fresh1200 + 1200).
Proof.
  apply (X3_slow_start_growth fresh1200 1 1200 0 0).
  - vm_compute. reflexivity.
  - vm_compute. reflexivity.
  - lia.
  - vm_compute. discriminate.
  - vm_compute. discriminate.
Defined.

(** *** Loss, timeout and datagram size *)

Lemma step_largestSentAtLastCutback K p c p' :
  step K p c = Some p' -> keepsCutback c = true ->
  largestSentAtLastCutback p' = largestSentAtLastCutback p.
Proof.
  intros H Hk; step_cases H; try discriminate.
  - unfold OnPacketSent; frame_solve.
  - unfold MaybeExitSlowStart; frame_solve.
  - apply (OnPacketAcked_frame largestSentAtLastCutback); reflexivity.
  - frame_solve.
  - apply (OnECNFeedback_frame largestSentAtLastCutback); reflexivity.
Qed.

Lemma run_largestSentAtLastCutback K cs : forall p p',
  run K p cs = Some p' -> forallb keepsCutback cs = true ->
  largestSentAtLastCutback p' = largestSentAtLastCutback p.
Proof.
  induction cs as [|c cs IH]; intros p p' Hrun Hk; cbn in Hrun, Hk.
  - now inversion Hrun.
  - apply andb_true_iff in Hk. destruct Hk as [Hc Hcs].
    destruct (step K p c) as [q|] eqn:Hq; [|discriminate].
    rewrite (IH q p' Hrun Hcs). exact (step_largestSentAtLastCutback K p c q Hq Hc).
Qed.

(** X4: a retransmission timeout sets the window to the minimum window,
    the threshold to half the old window, leaves slow start and forgets the
    last cutback, whatever its argument, and writes nothing else; it does
    not enter recovery by itself.  Since the forgotten cutback is the
    invalid packet number, the next loss report for any valid packet
    number is reacted to: the sender is in recovery after it. *)
Theorem X4_timeout_then_loss :
  forall K p packetsRetransmitted,
    OnRetransmissionTimeout K p packetsRetransmitted
    = set_congestionWindow
        (set_slowStartThreshold
           (set_inSlowStart
              (set_largestSentAtLastCutback p (InvalidPacketNumber K)) false)
           (Int64.div (congestionWindow p) 2))
        (minCongestionWindow p) /\
    (0 <= congestionWindow p <= Int64.max_int ->
     slowStartThreshold (OnRetransmissionTimeout K p packetsRetransmitted)
     = congestionWindow p / 2) /\
    (0 <= maxDatagramSize p < 2 ^ 62 ->
     congestionWindow (OnRetransmissionTimeout K p packetsRetransmitted)
     = 2 * maxDatagramSize p) /\
    (forall number lostBytes priorInFlight,
        InvalidPacketNumber K < number ->
        let q := OnCongestionEvent
                   (OnRetransmissionTimeout K p packetsRetransmitted)
                   number lostBytes priorInFlight in
        inRecovery q = true /\
        inSlowStart q = false /\
        largestSentAtLastCutback q = largestSentPacketNumber p).
Proof.
  intros K p r. split; [reflexivity|]. split; [|split].
  - intros Hc. unfold OnRetransmissionTimeout. cbv zeta. get_set.
    unfold Int64.div. rewrite Z.quot_div_nonneg by lia.
    apply wrap_small.
    pose proof (Z.div_pos (congestionWindow p) 2 ltac:(lia) ltac:(lia)).
    pose proof (Z.div_le_upper_bound (congestionWindow p) 2 (congestionWindow p)
                  ltac:(lia) ltac:(lia)).
    unfold Int64.min_int, Int64.max_int in *. lia.
  - intros Hm. unfold OnRetransmissionTimeout. cbv zeta. get_set.
    unfold minCongestionWindow. get_set. unfold Int64.mul, pragueMinCwnd.
    apply wrap_small. unfold Int64.min_int, Int64.max_int. lia.
  - intros n l f Hn q.
    destruct (OnCongestionEvent_fields (OnRetransmissionTimeout K p r) n l f)
      as (_ & _ & Hss & Hr & Hl).
    { unfold OnRetransmissionTimeout. cbv zeta. get_set. exact Hn. }
    fold q in Hss, Hr, Hl. rewrite Hl. auto.
Qed.

Lemma X4_timeout_then_loss_witness :
  slowStartThreshold (OnRetransmissionTimeout quicgo_protocol fresh1200 true)
  = congestionWindow fresh1200 / 2 /\
  congestionWindow (OnRetransmissionTimeout quicgo_protocol fresh1200 true)
  = 2 * maxDatagramSize fresh1200 /\
  (let q := OnCongestionEvent
              (OnRetransmissionTimeout quicgo_protocol fresh1200 true) 0 1200 0 in
   inRecovery q = true /\
   inSlowStart q = false /\
   largestSentAtLastCutback q = largestSentPacketNumber fresh1200).
Proof.
  pose proof (X4_timeout_then_loss quicgo_protocol fresh1200 true)
    as (_ & H1 & H2 & H3).
  split; [|split].
  - apply H1. vm_compute. split; discriminate.
  - apply H2. vm_compute. split; [discriminate | reflexivity].
  - apply (H3 0 1200 0). vm_compute. reflexivity.
Defined.

(** X5: one reaction per flight.  After a loss report that was reacted
    to, and through any later calls other than a further loss report or a
    timeout, a loss report for every packet that had been sent when the
    window was cut is ignored: it returns the sender unchanged. *)
Theorem X5_one_reaction_per_flight :
  forall K p number lostBytes priorInFlight cs q number' lostBytes' priorInFlight',
    largestSentAtLastCutback p < number ->
    forallb keepsCutback cs = true ->
    run K (OnCongestionEvent p number lostBytes priorInFlight) cs = Some q ->
    number' <= largestSentPacketNumber p ->
    largestSentAtLastCutback q = largestSentPacketNumber p /\
    OnCongestionEvent q number' lostBytes' priorInFlight' = q.
Proof.
  intros K p n l f cs q n' l' f' Hn Hk Hrun Hn'.
  destruct (OnCongestionEvent_fields p n l f Hn) as (_ & _ & _ & _ & Hl).
  cbv zeta in Hl.
  pose proof (run_largestSentAtLastCutback K cs _ q Hrun Hk) as Hq.
  rewrite Hl in Hq. split; [exact Hq|].
  apply OnCongestionEvent_ignored. lia.
Qed.

Lemma X5_one_reaction_per_flight_witness :
  let p := OnPacketSent fresh1200 0 0 50 1200 true in
  exists q,
    run quicgo_protocol (OnCongestionEvent p 10 1200 0)
      [CallPacketAcked 11 1200 0 0; CallPacketSent 0 0 51 1200 true;
       CallECNFeedback 100] = Some q /\
    largestSentAtLastCutback q = largestSentPacketNumber p /\
    OnCongestionEvent q 50 1200 0 = q.
Proof.
  intros p. eexists. split; [vm_compute; reflexivity|].
  apply (X5_one_reaction_per_flight quicgo_protocol p 10 1200 0
           [CallPacketAcked 11 1200 0 0; CallPacketSent 0 0 51 1200 true;
            CallECNFeedback 100]).
  - vm_compute. reflexivity.
  - reflexivity.
  - vm_compute. reflexivity.
  - vm_compute. discriminate.
Defined.

(** X6: [SetMaxDatagramSize] panics exactly when the new size is below
    the current one.  Otherwise it stores the size, moves a window that was
    the minimum window to the new minimum window, leaves any other window
    alone and writes nothing else; so a sender at its minimum window stays
    at its minimum window, and setting the current size again returns the
    sender unchanged. *)
Theorem X6_set_max_datagram_size :
  forall p size,
    (SetMaxDatagramSize p size = None <-> size < maxDatagramSize p) /\
    (maxDatagramSize p <= size ->
     exists q,
       SetMaxDatagramSize p size = Some q /\
       maxDatagramSize q = size /\
       q = set_congestionWindow (set_maxDatagramSize p size) (congestionWindow q) /\
       (congestionWindow p = minCongestionWindow p ->
        congestionWindow q = minCongestionWindow q) /\
       (congestionWindow p <> minCongestionWindow p ->
        congestionWindow q = congestionWindow p)) /\
    SetMaxDatagramSize p (maxDatagramSize p) = Some p.
Proof.
  intros p size. unfold SetMaxDatagramSize. cbv zeta. split; [|split].
  - destruct (Z.ltb_spec size (maxDatagramSize p)); split; intros; try easy; lia.
  - intros Hle. destruct (Z.ltb_spec size (maxDatagramSize p)); [lia|].
    eexists. split; [reflexivity|].
    destruct (Z.eqb_spec (congestionWindow p) (minCongestionWindow p)) as [E|E];
      get_set; (split; [reflexivity|]); (split; [by_fields|]);
      split; intros; try contradiction; try reflexivity.
  - rewrite Z.ltb_irrefl. f_equal.
    destruct (Z.eqb_spec (congestionWindow p) (minCongestionWindow p)) as [E|E];
      by_fields.
Qed.

Lemma X6_set_max_datagram_size_witness :
  let p := OnRetransmissionTimeout quicgo_protocol fresh1200 true in
  exists q,
    SetMaxDatagramSize p 1452 = Some q /\
    maxDatagramSize q = 1452 /\
    q = set_congestionWindow (set_maxDatagramSize p 1452) (congestionWindow q) /\
    (congestionWindow p = minCongestionWindow p ->
     congestionWindow q = minCongestionWindow q) /\
    (congestionWindow p <> minCongestionWindow p ->
     congestionWindow q = congestionWindow p).
Proof.
  intros p. apply (X6_set_max_datagram_size p 1452). vm_compute. discriminate.
Defined.

(** *** Configuration *)

Lemma step_untouched {A} (f : pragueSender -> A) K p c p' :
  untouched f -> step K p c = Some p' -> f p' = f p.
Proof.
  intros (Ha & Hw & Ht & Hc & Hs & Hk & Hl & He & Hb & Hi & Hr & Hx & Hm) H.
  step_cases H.
  - unfold OnPacketSent. repeat (rewrite ?Hs; try reflexivity; try break_if_inner).
  - unfold MaybeExitSlowStart. repeat (rewrite ?Hi; try reflexivity; try break_if_inner).
  - now apply OnPacketAcked_frame.
  - unfold OnCongestionEvent. destruct (_ <=? _); [reflexivity|]. cbv zeta.
    now rewrite Hw, Ht, Hl, Hr, Hi, Hx.
  - unfold OnRetransmissionTimeout. cbv zeta. now rewrite Hw, Ht, Hi, Hl.
  - destruct (_ =? _); now rewrite ?Hw, Hm.
  - now apply OnECNFeedback_frame.
Qed.

Lemma run_untouched {A} (f : pragueSender -> A) K cs p p' :
  untouched f -> run K p cs = Some p' -> f p' = f p.
Proof.
  intros Hf Hrun.
  apply (run_preserves K (fun q => f q = f p)) with (3 := Hrun); [|reflexivity].
  intros q c q' Hq Hs. rewrite (step_untouched f K q c q' Hf Hs). exact Hq.
Qed.

Ltac untouched_field := unfold untouched; repeat split; reflexivity.

Lemma step_maxDatagramSize K p c p' :
  step K p c = Some p' -> maxDatagramSize p <= maxDatagramSize p'.
Proof.
  intros H.
  assert (Hsame : forall q : pragueSender, maxDatagramSize q = maxDatagramSize p ->
                  maxDatagramSize p <= maxDatagramSize q) by (intros; lia).
  step_cases H.
  - apply Hsame. unfold OnPacketSent; frame_solve.
  - apply Hsame. unfold MaybeExitSlowStart; frame_solve.
  - apply Hsame. apply (OnPacketAcked_frame maxDatagramSize); reflexivity.
  - apply Hsame. unfold OnCongestionEvent; frame_solve.
  - apply Hsame. unfold OnRetransmissionTimeout; frame_solve.
  - use_ltb. destruct (_ =? _); get_set; lia.
  - apply Hsame. apply (OnECNFeedback_frame maxDatagramSize); reflexivity.
Qed.

(** X7: what is configured stays configured.  Over every run of calls
    the gain of the moving average, the virtual RTT floor, the L4S flag and
    the initial and maximum initial windows keep the values the sender
    started with, and the datagram size never decreases; a fresh sender
    starts with gain 1/16, a floor of 25 ms and a window of 32 datagrams. *)
Theorem X7_configuration_is_constant :
  forall K cs p p',
    run K p cs = Some p' ->
    alphaGain p' = alphaGain p /\
    virtualRTTMin p' = virtualRTTMin p /\
    l4sEnabled p' = l4sEnabled p /\
    initialCongestionWindow p' = initialCongestionWindow p /\
    initialMaxCongestionWindow p' = initialMaxCongestionWindow p /\
    maxDatagramSize p <= maxDatagramSize p' /\
    (forall mds l4s,
        p = newPragueSender K mds l4s ->
        alphaGain p' = pragueAlphaGain /\
        virtualRTTMin p' = 25000000 /\
        initialCongestionWindow p' = Int64.mul 32 mds).
Proof.
  intros K cs p p' Hrun.
  pose proof (run_untouched alphaGain K cs p p' ltac:(untouched_field) Hrun) as H1.
  pose proof (run_untouched virtualRTTMin K cs p p' ltac:(untouched_field) Hrun) as H2.
  pose proof (run_untouched l4sEnabled K cs p p' ltac:(untouched_field) Hrun) as H3.
  pose proof (run_untouched initialCongestionWindow K cs p p'
                ltac:(untouched_field) Hrun) as H4.
  pose proof (run_untouched initialMaxCongestionWindow K cs p p'
                ltac:(untouched_field) Hrun) as H5.
  repeat (split; [assumption|]). split.
  - apply (run_preserves K (fun q => maxDatagramSize p <= maxDatagramSize q))
      with (3 := Hrun); [|lia].
    intros q c q' Hq Hs. pose proof (step_maxDatagramSize K q c q' Hs). lia.
  - intros mds l4s ->. rewrite H1, H2, H4. repeat split.
Qed.

Lemma X7_configuration_is_constant_witness :
  exists p',
    run quicgo_protocol fresh1200
      [CallPacketAcked 1 12000 0 0; CallECNFeedback 2400;
       CallSetMaxDatagramSize 1452; CallRetransmissionTimeout true] = Some p' /\
    alphaGain p' = pragueAlphaGain /\
    virtualRTTMin p' = 25000000 /\
    maxDatagramSize fresh1200 <= maxDatagramSize p'.
Proof.
  eexists. split; [vm_compute; reflexivity|].
  match goal with
  | |- alphaGain ?q = _ /\ _ =>
      pose proof (X7_configuration_is_constant quicgo_protocol
                    [CallPacketAcked 1 12000 0 0; CallECNFeedback 2400;
                     CallSetMaxDatagramSize 1452; CallRetransmissionTimeout true]
                    fresh1200 q eq_refl)
        as (_ & _ & _ & _ & _ & Hm & Hnew)
  end.
  destruct (Hnew 1200 true eq_refl) as (Hg & Hv & _).
  split; [exact Hg|]. split; [exact Hv | exact Hm].
Defined.

(** X8: the virtual RTT of every sender that a run of calls on a fresh
    sender reaches is the larger of the smoothed RTT and 25 ms, hence
    positive, whatever the smoothed RTT is; so [BandwidthEstimate] never
    takes its zero branch and is [BandwidthFromDelta] of the window and
    that virtual RTT. *)
Theorem X8_virtual_rtt_floor :
  forall K mds l4s cs p BandwidthFromDelta srtt,
    run K (newPragueSender K mds l4s) cs = Some p ->
    getVirtualRTT p srtt = Z.max srtt 25000000 /\
    0 < getVirtualRTT p srtt /\
    BandwidthEstimate BandwidthFromDelta p srtt
    = BandwidthFromDelta (congestionWindow p) (Z.max srtt 25000000).
Proof.
  intros K mds l4s cs p B srtt Hrun.
  pose proof (run_untouched virtualRTTMin K cs _ p ltac:(untouched_field) Hrun) as Hv.
  change (virtualRTTMin (newPragueSender K mds l4s)) with 25000000 in Hv.
  assert (Hg : getVirtualRTT p srtt = Z.max srtt 25000000).
  { unfold getVirtualRTT. rewrite Hv. destruct (Z.ltb_spec srtt 25000000); lia. }
  split; [exact Hg|]. split; [lia|].
  unfold BandwidthEstimate. cbv zeta. rewrite Hg.
  destruct (Z.eqb_spec (Z.max srtt 25000000) 0); [lia | reflexivity].
Qed.

Lemma X8_virtual_rtt_floor_witness :
  let p := OnRetransmissionTimeout quicgo_protocol fresh1200 true in
  getVirtualRTT p 0 = Z.max 0 25000000 /\
  0 < getVirtualRTT p 0 /\
  BandwidthEstimate (fun bytes delta => bytes * 1000000000 / delta * 8) p 0
  = congestionWindow p * 1000000000 / Z.max 0 25000000 * 8.
Proof.
  exact (X8_virtual_rtt_floor quicgo_protocol 1200 true
           [CallRetransmissionTimeout true] _ _ 0 eq_refl).
Defined.

(** *** ECN feedback and its sample window *)

Lemma wrap_wrap_add u v : Int64.wrap (Int64.wrap u + v) = Int64.wrap (u + v).
Proof.
  unfold Int64.wrap. f_equal.
  replace ((u + 2 ^ 63) mod 2 ^ 64 - 2 ^ 63 + v + 2 ^ 63)
    with ((u + 2 ^ 63) mod 2 ^ 64 + v) by lia.
  rewrite Zplus_mod_idemp_l. f_equal. lia.
Qed.

Lemma add_wrap_assoc a x y :
  Int64.add (Int64.add a x) y = Int64.add a (Int64.add x y).
Proof.
  unfold Int64.add. rewrite wrap_wrap_add.
  rewrite (Z.add_comm a (Int64.wrap (x + y))), wrap_wrap_add. f_equal. lia.
Qed.

(** X9: with L4S on, ECN feedback that arrives while no acknowledged
    bytes are in the sample window is only stored: the marked bytes are
    added to [ecnMarkedBytes] and nothing else changes, so two such reports
    amount to one report of their sum.  Feedback that finds acknowledged
    bytes closes the window: both counters are 0 afterwards, and when
    [alpha] is positive afterwards the sender has left slow start. *)
Theorem X9_ecn_sample_window :
  forall p x,
    l4sEnabled p = true ->
    (totalAckedBytes p <= 0 ->
     OnECNFeedback p x = set_ecnMarkedBytes p (Int64.add (ecnMarkedBytes p) x) /\
     forall y, OnECNFeedback (OnECNFeedback p x) y = OnECNFeedback p (Int64.add x y)) /\
    (0 < totalAckedBytes p ->
     ecnMarkedBytes (OnECNFeedback p x) = 0 /\
     totalAckedBytes (OnECNFeedback p x) = 0 /\
     (F64.leb (alpha (OnECNFeedback p x)) F64.zero = false ->
      inSlowStart (OnECNFeedback p x) = false)).
Proof.
  intros p x Hl.
  assert (Hbuf : forall q z, l4sEnabled q = true -> totalAckedBytes q <= 0 ->
                 OnECNFeedback q z
                 = set_ecnMarkedBytes q (Int64.add (ecnMarkedBytes q) z)).
  { intros q z Hq Ht. unfold OnECNFeedback. rewrite Hq. cbn [negb]. cbv zeta. get_set.
    destruct (Z.ltb_spec 0 (totalAckedBytes q)); [lia | reflexivity]. }
  split.
  - intros Ht. split; [now apply Hbuf|]. intros y.
    rewrite (Hbuf p x Hl Ht), (Hbuf p _ Hl Ht).
    rewrite Hbuf by (get_set; assumption). get_set.
    rewrite add_wrap_assoc. reflexivity.
  - intros Ht. unfold OnECNFeedback. rewrite Hl. cbn [negb]. cbv zeta. get_set.
    apply Z.ltb_lt in Ht. rewrite Ht. get_set.
    split; [reflexivity|]. split; [reflexivity|].
    set (q := updateAlpha _). unfold applyECNCongestionResponse.
    destruct (F64.leb (alpha q) F64.zero) eqn:E; [congruence|].
    intros _. cbv zeta.
    repeat (cbv beta iota; get_set; try reflexivity; try assumption;
            try break_if_inner).
Qed.

Lemma X9_ecn_sample_window_witness :
  (OnECNFeedback fresh1200 100
   = set_ecnMarkedBytes fresh1200 (Int64.add (ecnMarkedBytes fresh1200) 100) /\
   forall y, OnECNFeedback (OnECNFeedback fresh1200 100) y
             = OnECNFeedback fresh1200 (Int64.add 100 y)) /\
  (ecnMarkedBytes (OnECNFeedback acked12000 2400) = 0 /\
   totalAckedBytes (OnECNFeedback acked12000 2400) = 0 /\
   (F64.leb (alpha (OnECNFeedback acked12000 2400)) F64.zero = false ->
    inSlowStart (OnECNFeedback acked12000 2400) = false)).
Proof.
  split.
  - apply (X9_ecn_sample_window fresh1200 100); [reflexivity|]. vm_compute. discriminate.
  - apply (X9_ecn_sample_window acked12000 2400); [reflexivity|]. vm_compute. reflexivity.
Defined.

(** X10: a sender built with L4S off never learns a marking fraction:
    after every run of calls [alpha] is still 0, the carry is still 0 and no
    marked bytes are stored, so additive increase always counts all
    acknowledged bytes. *)
Theorem X10_no_marking_state_without_l4s :
  forall K mds cs p,
    run K (newPragueSender K mds false) cs = Some p ->
    alpha p = F64.zero /\ cwndCarry p = F64.zero /\ ecnMarkedBytes p = 0 /\
    (l4sEnabled p && F64.ltb F64.zero (alpha p) = false).
Proof.
  intros K mds cs p Hrun.
  assert (H : l4sEnabled p = false /\ alpha p = F64.zero /\
              cwndCarry p = F64.zero /\ ecnMarkedBytes p = 0).
  { apply (run_preserves K (fun q => l4sEnabled q = false /\ alpha q = F64.zero /\
                                     cwndCarry q = F64.zero /\ ecnMarkedBytes q = 0))
      with (3 := Hrun); [|repeat split].
    intros q c q' (Hl & Ha & Hc & He) Hs.
    split; [rewrite (step_untouched l4sEnabled K q c q' ltac:(untouched_field) Hs);
            exact Hl|].
    step_cases Hs.
    - unfold OnPacketSent. repeat (get_set; try break_if_inner); auto.
    - unfold MaybeExitSlowStart. repeat (get_set; try break_if_inner); auto.
    - rewrite (OnPacketAcked_frame alpha), (OnPacketAcked_frame cwndCarry),
        (OnPacketAcked_frame ecnMarkedBytes) by reflexivity. auto.
    - unfold OnCongestionEvent. repeat (get_set; try break_if_inner); auto.
    - unfold OnRetransmissionTimeout. cbv zeta. get_set. auto.
    - repeat (get_set; try break_if_inner); auto.
    - unfold OnECNFeedback. rewrite Hl. cbn [negb]. auto. }
  destruct H as (Hl & Ha & Hc & He). rewrite Hl. auto.
Qed.

Lemma X10_no_marking_state_without_l4s_witness :
  exists p,
    run quicgo_protocol (newPragueSender quicgo_protocol 1200 false)
      [CallPacketAcked 1 12000 0 0; CallECNFeedback 2400;
       CallCongestionEvent 1 1200 0; CallPacketAcked 2 1200 0 0] = Some p /\
    alpha p = F64.zero /\ cwndCarry p = F64.zero /\ ecnMarkedBytes p = 0.
Proof.
  eexists. split; [vm_compute; reflexivity|].
  match goal with
  | |- alpha ?q = _ /\ _ =>
      pose proof (X10_no_marking_state_without_l4s quicgo_protocol 1200
                    [CallPacketAcked 1 12000 0 0; CallECNFeedback 2400;
                     CallCongestionEvent 1 1200 0; CallPacketAcked 2 1200 0 0]
                    q eq_refl) as (Ha & Hc & He & _)
  end.
  auto.
Defined.

(** X11: [alpha] and the carry move only when a sample window closes:
    a call changes either of them only if it is ECN feedback on a sender
    with L4S on that holds acknowledged bytes. *)
Theorem X11_alpha_moves_only_at_window_close :
  forall K p c p',
    step K p c = Some p' ->
    (alpha p' = alpha p /\ cwndCarry p' = cwndCarry p) \/
    (exists x, c = CallECNFeedback x /\ l4sEnabled p = true /\
               0 < totalAckedBytes p).
Proof.
  intros K p c p' H. step_cases H.
  - left. unfold OnPacketSent. repeat (get_set; try break_if_inner); auto.
  - left. unfold MaybeExitSlowStart. repeat (get_set; try break_if_inner); auto.
  - left. rewrite (OnPacketAcked_frame alpha), (OnPacketAcked_frame cwndCarry)
      by reflexivity. auto.
  - left. unfold OnCongestionEvent. repeat (get_set; try break_if_inner); auto.
  - left. unfold OnRetransmissionTimeout. cbv zeta. get_set. auto.
  - left. repeat (get_set; try break_if_inner); auto.
  - unfold OnECNFeedback. destruct (l4sEnabled p) eqn:Hl; cbn [negb]; [|auto].
    cbv zeta. get_set.
    destruct (Z.ltb_spec 0 (totalAckedBytes p)); [right; eauto | left; get_set; auto].
Qed.

Lemma X11_alpha_moves_only_at_window_close_witness :
  (alpha (OnECNFeedback fresh1200 2400) = alpha fresh1200 /\
   cwndCarry (OnECNFeedback fresh1200 2400) = cwndCarry fresh1200) \/
  (exists x, CallECNFeedback 2400 = CallECNFeedback x /\
             l4sEnabled fresh1200 = true /\ 0 < totalAckedBytes fresh1200).
Proof.
  exact (X11_alpha_moves_only_at_window_close quicgo_protocol fresh1200
           (CallECNFeedback 2400) _ eq_refl).
Defined.

(** *** Recovery *)

(** X12: the sender enters recovery only by reacting to a loss report
    (neither a timeout nor ECN feedback sets the flag), it is not in
    recovery when built, and once it is in recovery every later call
    leaves it there. *)
Theorem X12_recovery_entered_by_loss_only :
  (forall K mds l4s, inRecovery (newPragueSender K mds l4s) = false) /\
  (forall K p c p',
      step K p c = Some p' -> inRecovery p' = true ->
      inRecovery p = true \/
      exists number lostBytes priorInFlight,
        c = CallCongestionEvent number lostBytes priorInFlight /\
        largestSentAtLastCutback p < number) /\
  (forall K cs p p',
      run K p cs = Some p' -> inRecovery p = true -> inRecovery p' = true).
Proof.
  assert (Hstep : forall K p c p', step K p c = Some p' ->
            inRecovery p' = inRecovery p \/
            (inRecovery p' = true /\
             exists n l f, c = CallCongestionEvent n l f /\
                           largestSentAtLastCutback p < n)).
  { intros K p c p' H. step_cases H.
    - left. unfold OnPacketSent; frame_solve.
    - left. unfold MaybeExitSlowStart; frame_solve.
    - left. apply OnPacketAcked_inRecovery.
    - unfold OnCongestionEvent.
      destruct (Z.leb_spec number (largestSentAtLastCutback p)); [auto|].
      right. cbv zeta. get_set. split; [reflexivity | eauto].
    - left. unfold OnRetransmissionTimeout; frame_solve.
    - left. frame_solve.
    - left. apply (OnECNFeedback_frame inRecovery); reflexivity. }
  split; [reflexivity|]. split.
  - intros K p c p' H Hr. destruct (Hstep K p c p' H) as [E|[_ E]]; [|auto].
    left. congruence.
  - intros K cs p p' Hrun Hr.
    apply (run_preserves K (fun q => inRecovery q = true)) with (3 := Hrun);
      [|exact Hr].
    intros q c q' Hq Hs. destruct (Hstep K q c q' Hs) as [E|[E _]]; congruence.
Qed.

Lemma X12_recovery_entered_by_loss_only_witness :
  inRecovery (OnPacketAcked (OnRetransmissionTimeout quicgo_protocol afterLoss true)
                201 1200 0 0) = true.
Proof.
  apply (proj2 (proj2 X12_recovery_entered_by_loss_only) quicgo_protocol
           [CallRetransmissionTimeout true; CallPacketAcked 201 1200 0 0] afterLoss).
  - reflexivity.
  - vm_compute. reflexivity.
Defined.

(** *** The window between its floor and what may be sent *)

(** X13: on every sender reached from a fresh one by calls in their working
    ranges (those of [calls_ok]), an acknowledgement of fewer than 2^32
    bytes never shrinks a window below 2^53 bytes, in slow start, in
    congestion avoidance or in recovery; the window stays at two datagrams
    or more; and the sender may always send while fewer than two datagrams
    are in flight. *)
Theorem X13_acks_never_shrink_the_window :
  forall K mds l4s cs p number ackedBytes priorInFlight eventTime,
    0 < mds < 2 ^ 16 ->
    calls_ok K (newPragueSender K mds l4s) cs ->
    run K (newPragueSender K mds l4s) cs = Some p ->
    congestionWindow p < 2 ^ 53 ->
    0 <= ackedBytes < 2 ^ 32 ->
    let p' := OnPacketAcked p number ackedBytes priorInFlight eventTime in
    congestionWindow p <= congestionWindow p' /\
    2 * maxDatagramSize p' <= congestionWindow p' /\
    (forall bytesInFlight,
        bytesInFlight < 2 * maxDatagramSize p' -> CanSend p' bytesInFlight = true).
Proof.
  intros K mds l4s cs p n a f t Hm Hok Hrun Hw Ha p'.
  pose proof (run_floor_ok K cs _ p (newPragueSender_floor_ok K mds l4s Hm) Hok Hrun)
    as (Hs & Hmd & Hf & Hc).
  assert (Hle : congestionWindow p <= congestionWindow p').
  { apply OnPacketAcked_floor; try assumption; [apply Hs | lia]. }
  assert (Hmds : maxDatagramSize p' = maxDatagramSize p)
    by apply OnPacketAcked_maxDatagramSize.
  split; [exact Hle|]. split; [lia|].
  intros b Hb. unfold CanSend. apply Z.ltb_lt. lia.
Qed.

Lemma X13_acks_never_shrink_the_window_witness :
  let p := OnECNFeedback acked12000 2400 in
  let p' := OnPacketAcked p 2 1200 0 0 in
  congestionWindow p <= congestionWindow p' /\
  2 * maxDatagramSize p' <= congestionWindow p' /\
  (forall bytesInFlight,
      bytesInFlight < 2 * maxDatagramSize p' -> CanSend p' bytesInFlight = true).
Proof.
  refine (X13_acks_never_shrink_the_window quicgo_protocol 1200 true
            [CallPacketAcked 1 12000 0 0; CallECNFeedback 2400] _ 2 1200 0 0
            _ _ eq_refl _ _).
  - lia.
  - vm_compute. intuition (try reflexivity; try discriminate).
  - vm_compute. reflexivity.
  - lia.
Defined.

(** * The configuration example and the test helpers *)

(** X14: [populateConfigExample] is idempotent; it keeps the caller's L4S
    flag, answers Prague exactly when L4S is on or the caller chose Prague
    and RFC 9002 otherwise, and always answers the default idle timeouts of
    300 s and 5 s, whatever timeouts the caller gave. *)
Theorem X14_populate_config_example :
  forall algZero c,
    let given := match c with Some c' => c' | None => quic.zeroConfig algZero end in
    let r := populateConfigExample algZero c in
    populateConfigExample algZero (Some r) = r /\
    quic.EnableL4S r = quic.EnableL4S given /\
    (quic.CongestionControlAlgorithm r = protocol.CongestionControlPrague <->
     quic.EnableL4S given = true \/
     quic.CongestionControlAlgorithm given = protocol.CongestionControlPrague) /\
    (quic.CongestionControlAlgorithm r <> protocol.CongestionControlPrague ->
     quic.CongestionControlAlgorithm r = protocol.CongestionControlRFC9002) /\
    quic.MaxIdleTimeout r = 300 * second /\
    quic.HandshakeIdleTimeout r = 5 * second.
Proof.
  intros algZero c given r. subst given r.
  destruct c as [[l a mi hi]|]; [destruct l, a | destruct algZero]; cbn;
    repeat split; intros; auto; try discriminate; try congruence;
    match goal with H : _ \/ _ |- _ => destruct H; discriminate end.
Qed.

(** *** Substring search *)

Lemma string_eqb_eq a : forall b, string_eqb a b = true <-> a = b.
Proof.
  induction a as [|x a IH]; intros [|y b]; cbn; split; intros H;
    try reflexivity; try discriminate.
  - apply andb_true_iff in H. destruct H as [Hx Hab].
    apply Ascii.eqb_eq in Hx. apply IH in Hab. now subst.
  - inversion H; subst. rewrite Ascii.eqb_refl. cbn. now apply IH.
Qed.

Lemma slice_app pre sub post :
  slice (pre ++ sub ++ post) (length pre) (length pre + length sub) = sub.
Proof.
  unfold slice. rewrite skipn_app, skipn_all, Nat.sub_diag. cbn [skipn app].
  replace (length pre + length sub - length pre)%nat with (length sub) by lia.
  rewrite firstn_app, firstn_all, Nat.sub_diag. cbn. apply app_nil_r.
Qed.

Lemma slice_split s i n :
  (i + n <= length s)%nat ->
  s = firstn i s ++ slice s i (i + n) ++ skipn (i + n) s.
Proof.
  intros H. unfold slice. replace (i + n - i)%nat with n by lia.
  rewrite <- (firstn_skipn i s) at 1. f_equal.
  rewrite <- (firstn_skipn n (skipn i s)) at 1. f_equal.
  rewrite skipn_skipn. f_equal. lia.
Qed.

Lemma containsHelper_spec s substr :
  containsHelper s substr = true <->
  exists pre post, s = pre ++ substr ++ post.
Proof.
  unfold containsHelper. rewrite existsb_exists. split.
  - intros (i & Hin & He). apply in_seq in Hin. apply string_eqb_eq in He.
    exists (firstn i s), (skipn (i + length substr) s).
    rewrite <- He at 1. apply slice_split. lia.
  - intros (pre & post & ->). exists (length pre). split.
    + apply in_seq. rewrite !length_app. lia.
    + apply string_eqb_eq. apply slice_app.
Qed.

(** X15: [contains s substr] is true exactly when [substr] occurs in [s]:
    when [s] is some prefix, then [substr], then some suffix.  The empty
    string occurs in every string, and nothing longer than [s] occurs in
    [s]. *)
Theorem X15_contains_is_infix :
  forall s substr,
    (contains s substr = true <-> exists pre post, s = pre ++ substr ++ post) /\
    contains s [] = true /\
    ((length s < length substr)%nat -> contains s substr = false).
Proof.
  intros s substr. assert (Hspec : forall t u,
    contains t u = true <-> exists pre post, t = pre ++ u ++ post).
  { intros t u. unfold contains. split.
    - intros H. apply andb_true_iff in H. destruct H as [Hlen H].
      apply orb_true_iff in H. destruct H as [H|H].
      + apply orb_true_iff in H. destruct H as [H|H].
        * apply string_eqb_eq in H. subst. exists [], []. now rewrite app_nil_r.
        * apply Nat.eqb_eq in H. destruct u; [|discriminate]. now exists [], t.
      + apply andb_true_iff in H. now apply containsHelper_spec.
    - intros (pre & post & ->). rewrite !length_app.
      apply andb_true_iff. split; [apply Nat.leb_le; lia|].
      destruct pre as [|x pre], post as [|y post];
        try (apply orb_true_iff; right; apply andb_true_iff; split;
             [apply Nat.ltb_lt; cbn [length]; lia
             | apply containsHelper_spec; eauto]).
      cbn [app]. rewrite app_nil_r.
      apply orb_true_iff; left; apply orb_true_iff; left. now apply string_eqb_eq. }
  split; [apply Hspec|]. split.
  - apply Hspec. now exists [], s.
  - intros Hlt. unfold contains.
    destruct (Nat.leb_spec (length substr) (length s)); [lia | reflexivity].
Qed.

Lemma X15_contains_is_infix_witness :
  contains ["a"; "b"]%char ["a"; "b"; "c"]%char = false.
Proof.
  apply (X15_contains_is_infix ["a"; "b"]%char ["a"; "b"; "c"]%char). cbn. lia.
Defined.

(** * The first marks *)

(** The quotient mantissa of a division that does not underflow is
    positive and keeps the magnitude of the quotient. *)
Lemma div_core_lower m1 e1 m2 e2 :
  0 < m1 -> 0 < m2 ->
  let X := Zdigits2 m1 + e1 - (Zdigits2 m2 + e2) in
  emin < X ->
  let '(q, e', l) := SFdiv_core_binary F64.prec F64.emax m1 e1 m2 e2 in
  0 < q /\ X <= Zdigits2 q + e'.
Proof.
  intros H1 H2 X HX. unfold SFdiv_core_binary. fold X.
  set (e' := Z.min (fexp F64.prec F64.emax X) (e1 - e2)).
  set (s := e1 - e2 - e').
  assert (Hs : 0 <= s) by (subst s e'; lia).
  set (m' := match s with Zpos _ => Z.shiftl m1 s | Z0 => m1 | Zneg _ => 0 end).
  assert (Hm' : m' = m1 * 2 ^ s).
  { subst m'. destruct s as [|p|p] eqn:E; try lia.
    rewrite Z.shiftl_mul_pow2 by lia. reflexivity. }
  clearbody m'.
  pose proof (Z.div_eucl_eq m' m2 ltac:(lia)) as Heq.
  pose proof (Z.mod_pos_bound m' m2 H2) as Hmod. unfold Z.modulo in Hmod.
  destruct (Z.div_eucl m' m2) as [q r].
  pose proof (Zdigits2_bounds m1 H1) as [Hl1 Hh1].
  pose proof (Zdigits2_bounds m2 H2) as [Hl2 Hh2].
  pose proof (Zdigits2_pos m1 H1) as Hd1. pose proof (Zdigits2_pos m2 H2) as Hd2.
  set (d1 := Zdigits2 m1) in *. set (d2 := Zdigits2 m2) in *.
  assert (Hps : 0 < 2 ^ s) by (apply Z.pow_pos_nonneg; lia).
  assert (Ha : 1 <= d1 + s - d2).
  { subst s e' X. rewrite fexp_eq. unfold emin in *. lia. }
  assert (Hq : 2 ^ (d1 + s - d2 - 1) <= q).
  { assert (Hsplit : 2 ^ (d1 - 1 + s) = 2 ^ (d1 + s - d2 - 1) * 2 ^ d2).
    { rewrite <- Z.pow_add_r by lia. f_equal. lia. }
    assert (Hm1 : 2 ^ (d1 - 1 + s) <= m').
    { rewrite Hm', Z.pow_add_r by lia. nia. }
    assert (0 < 2 ^ (d1 + s - d2 - 1)) by (apply Z.pow_pos_nonneg; lia).
    set (A := 2 ^ (d1 + s - d2 - 1)) in *.
    destruct (Z_le_gt_dec A q); [assumption|].
    assert (q + 1 <= A) by lia.
    assert (m' < (q + 1) * m2) by nia.
    assert ((q + 1) * m2 <= A * m2) by (apply Z.mul_le_mono_nonneg_r; lia).
    assert (A * m2 < A * 2 ^ d2) by (apply Z.mul_lt_mono_pos_l; lia).
    lia. }
  assert (Hpos : 0 < 2 ^ (d1 + s - d2 - 1)) by (apply Z.pow_pos_nonneg; lia).
  split; [lia|].
  pose proof (Zdigits2_ge q (d1 + s - d2) ltac:(lia) Hq). subst s X. lia.
Qed.

Lemma div_pos x y :
  finite_ok x -> finite_ok y -> 0 < sval x -> 0 < sval y ->
  lmag x - lmag y <= F64.emax - 2 -> emin < lmag x - lmag y ->
  0 < sval (F64.div x y).
Proof.
  intros Hx Hy Hpx Hpy Hfit Hlow.
  pose proof (div_approx x y Hx Hy ltac:(lia) Hfit) as (Hok & Hnn & _).
  specialize (Hnn ltac:(nia)).
  assert (Hnz : is_zero (F64.div x y) = false).
  { unfold F64.div.
    destruct x as [sx|sx| |sx mx ex], y as [sy|sy| |sy my ey];
      cbn [finite_ok sval] in *; try contradiction; try lia.
    cbn [SFdiv]. rewrite !lmag_finite in Hlow by assumption.
    pose proof (div_core_lower (Zpos mx) ex (Zpos my) ey ltac:(lia) ltac:(lia)) as Hc.
    cbv zeta in Hc. cbn [Zdigits2] in Hc. specialize (Hc ltac:(lia)).
    destruct (SFdiv_core_binary F64.prec F64.emax (Zpos mx) ex (Zpos my) ey)
      as [[q e'] l].
    destruct Hc as [Hq Hmag]. apply binary_round_aux_nonzero; lia. }
  destruct (F64.div x y) as [s|s| |s m e]; cbn [finite_ok is_zero] in *;
    try contradiction; try discriminate.
  pose proof (sval_sign _ _ _ Hok) as Hsg. destruct s; lia.
Qed.

(** A sample with marks has a positive marking fraction. *)
Lemma markingFraction_pos p :
  0 < ecnMarkedBytes p <= Int64.max_int -> 0 < totalAckedBytes p <= Int64.max_int ->
  F64.ltb F64.zero (markingFraction p) = true.
Proof.
  intros He Ht.
  assert (Hd : forall z, 0 < z <= Int64.max_int -> 0 < Zdigits2 z <= 63).
  { intros z Hz. split; [apply Zdigits2_pos; lia|].
    apply Zdigits2_le; unfold Int64.max_int in *; lia. }
  pose proof (Hd _ He) as Hde. pose proof (Hd _ Ht) as Hdt.
  destruct (of_int_pos (ecnMarkedBytes p) ltac:(lia) ltac:(unfold F64.emax; lia))
    as (Hoe & Hpe & Hle & Hue).
  destruct (of_int_pos (totalAckedBytes p) ltac:(lia) ltac:(unfold F64.emax; lia))
    as (Hot & Hpt & Hlt & Hut).
  pose proof (div_pos _ _ Hoe Hot Hpe Hpt
                ltac:(unfold F64.emax, emin in *; lia)
                ltac:(unfold emin in *; lia)) as Hpos.
  destruct (markingFraction_ok p ltac:(unfold int64_ok, Int64.min_int, Int64.max_int in *; lia)
              Ht) as [Hok _].
  rewrite (ltb_sval F64.zero (markingFraction p) I Hok).
  apply Z.ltb_lt. exact Hpos.
Qed.

(** X16: the first marks.  On a sender with L4S on whose [alpha] is
    still 0, ECN feedback that closes a sample window holding marked bytes
    sets [alpha] to exactly 1.0, whatever the marking fraction is, and
    ends slow start; both counters restart from 0. *)
Theorem X16_first_marks_set_alpha_to_one :
  forall p x,
    l4sEnabled p = true ->
    F64.eqb (alpha p) F64.zero = true ->
    0 < ecnMarkedBytes p + x <= Int64.max_int ->
    0 < totalAckedBytes p <= Int64.max_int ->
    alpha (OnECNFeedback p x) = F64.one /\
    inSlowStart (OnECNFeedback p x) = false /\
    ecnMarkedBytes (OnECNFeedback p x) = 0 /\
    totalAckedBytes (OnECNFeedback p x) = 0.
Proof.
  intros p x Hl Ha He Ht.
  assert (Hadd : Int64.add (ecnMarkedBytes p) x = ecnMarkedBytes p + x)
    by (unfold Int64.add; apply wrap_small; unfold Int64.min_int, Int64.max_int in *; lia).
  set (q := set_ecnMarkedBytes p (Int64.add (ecnMarkedBytes p) x)).
  assert (Hf : F64.ltb F64.zero (markingFraction q) = true).
  { apply markingFraction_pos; unfold q; get_set; rewrite ?Hadd; lia. }
  assert (Hu : alpha (updateAlpha q) = F64.one).
  { unfold updateAlpha. fold (markingFraction q).
    destruct (Z.eqb_spec (totalAckedBytes q) 0) as [E|_];
      [unfold q in E; revert E; get_set; lia|].
    cbv zeta. change (alpha q) with (alpha p). rewrite Ha, Hf. cbn [andb].
    get_set. change (F64.ltb F64.one F64.zero) with false. cbv iota. get_set.
    change (F64.ltb F64.one F64.one) with false. cbv iota. get_set. reflexivity. }
  assert (Hopen : OnECNFeedback p x
                  = set_totalAckedBytes
                      (set_ecnMarkedBytes
                         (applyECNCongestionResponse (updateAlpha q)) 0) 0).
  { unfold OnECNFeedback. rewrite Hl. cbn [negb]. cbv zeta. fold q.
    change (totalAckedBytes q) with (totalAckedBytes p).
    destruct (Z.ltb_spec 0 (totalAckedBytes p)); [reflexivity | lia]. }
  rewrite Hopen. get_set.
  rewrite (applyECN_frame alpha) by reflexivity.
  split; [exact Hu|]. split; [|split; reflexivity].
  unfold applyECNCongestionResponse. rewrite Hu.
  change (F64.leb F64.one F64.zero) with false. cbv iota zeta.
  repeat (cbv beta iota; get_set; try reflexivity; try assumption;
          try break_if_inner).
Qed.

Lemma X16_first_marks_set_alpha_to_one_witness :
  alpha (OnECNFeedback acked12000 2400) = F64.one /\
  inSlowStart (OnECNFeedback acked12000 2400) = false /\
  ecnMarkedBytes (OnECNFeedback acked12000 2400) = 0 /\
  totalAckedBytes (OnECNFeedback acked12000 2400) = 0.
Proof.
  apply (X16_first_marks_set_alpha_to_one acked12000 2400).
  - reflexivity.
  - vm_compute. reflexivity.
  - vm_compute. split; [reflexivity | discriminate].
  - vm_compute. split; [reflexivity | discriminate].
Defined.

(** X17: no marks, no reaction.  On a sender with L4S on that has not
    seen a mark yet ([alpha] is 0), ECN feedback that closes a sample
    window without marked bytes restarts the two counters and changes
    nothing else: [alpha] stays 0, the window and the carry stay as they
    are and the sender stays in slow start if it was. *)
Theorem X17_unmarked_sample_is_neutral :
  forall p x,
    l4sEnabled p = true ->
    alpha p = F64.zero ->
    alphaGain p = pragueAlphaGain ->
    ecnMarkedBytes p + x = 0 ->
    0 < totalAckedBytes p <= Int64.max_int ->
    OnECNFeedback p x = set_totalAckedBytes (set_ecnMarkedBytes p 0) 0.
Proof.
  intros p x Hl Ha Hg He Ht.
  assert (Hadd : Int64.add (ecnMarkedBytes p) x = 0)
    by (unfold Int64.add; rewrite He; reflexivity).
  set (q := set_ecnMarkedBytes p 0).
  assert (Hf : markingFraction q = F64.zero).
  { unfold markingFraction, q. get_set.
    assert (Hd : 0 < Zdigits2 (totalAckedBytes p) <= 63)
      by (split; [apply Zdigits2_pos; lia
                 | apply Zdigits2_le; unfold Int64.max_int in *; lia]).
    destruct (of_int_pos (totalAckedBytes p) ltac:(lia) ltac:(unfold F64.emax; lia))
      as (Hok & Hpos & _).
    destruct (F64.of_int (totalAckedBytes p)) as [s|s| |s m e];
      try contradiction; [cbn [sval] in Hpos; lia|].
    pose proof (sval_sign _ _ _ Hok) as Hs. destruct s; [lia | reflexivity]. }
  assert (Hu : updateAlpha q = q).
  { apply sender_ext; try (apply (updateAlpha_frame _); reflexivity).
    rewrite updateAlpha_alpha; [|unfold q; get_set; lia|exact Hg].
    rewrite Hf. change (alpha q) with (alpha p). rewrite Ha. reflexivity. }
  assert (Hr : applyECNCongestionResponse q = q).
  { unfold applyECNCongestionResponse. change (alpha q) with (alpha p).
    rewrite Ha. reflexivity. }
  unfold OnECNFeedback. rewrite Hl. cbn [negb]. cbv zeta. rewrite Hadd. fold q.
  change (totalAckedBytes q) with (totalAckedBytes p).
  destruct (Z.ltb_spec 0 (totalAckedBytes p)); [|lia].
  rewrite Hu, Hr. reflexivity.
Qed.

Lemma X17_unmarked_sample_is_neutral_witness :
  OnECNFeedback acked12000 0 = set_totalAckedBytes (set_ecnMarkedBytes acked12000 0) 0.
Proof.
  apply (X17_unmarked_sample_is_neutral acked12000 0); try reflexivity.
  vm_compute. split; [reflexivity | discriminate].
Defined.

(** * Rounding is monotone *)

Lemma loc_of_shr_record_of_loc m l :
  loc_of_shr_record (shr_record_of_loc m l) = l.
Proof. destruct l as [|[]]; reflexivity. Qed.

Lemma pow2_split a b : 0 <= a -> 0 <= b -> 2 ^ (a + b) = 2 ^ a * 2 ^ b.
Proof. intros; apply Z.pow_add_r; lia. Qed.

(** The second normalisation step keeps the value: a mantissa of at most
    2^53 at a canonical exponent is either stored as it is or, when it is
    2^53, halved with the exponent raised by one. *)
Lemma renormalise_value sx m1 e1 :
  0 < m1 <= 2 ^ 53 ->
  emin <= e1 <= fexp F64.prec F64.emax (Zdigits2 m1 + e1) ->
  let r :=
    (let '(mrs, e2) := shr_fexp F64.prec F64.emax m1 e1 loc_Exact in
     match shr_m mrs with
     | Z0 => S754_zero sx
     | Zpos m => if e2 <=? F64.emax - F64.prec then S754_finite sx m e2 else S754_infinity sx
     | Zneg _ => S754_nan
     end) in
  r = S754_infinity sx \/
  (finite_ok r /\ sval r = cond_Zopp sx (m1 * 2 ^ (e1 - emin))).
Proof.
  intros Hm He r.
  destruct (renormalise_spec sx m1 e1 (Zdigits2 m1 + e1) ltac:(lia) ltac:(lia))
    as (_ & _ & Hv).
  specialize (Hv ltac:(lia)). fold r in Hv.
  destruct (shr_fexp_spec m1 e1 loc_Exact ltac:(lia)) as [Hnone Hshift].
  assert (Hd : Zdigits2 m1 <= 54).
  { apply Zdigits2_le; lia. }
  set (k := fexp F64.prec F64.emax (Zdigits2 m1 + e1) - e1) in *.
  destruct (Z_le_gt_dec k 0) as [Hk|Hk].
  - subst r. rewrite (Hnone Hk) in *. cbn [shr_record_of_loc shr_m] in *.
    destruct m1 as [|p|p]; try lia.
    destruct (e1 <=? F64.emax - F64.prec); [right | left; reflexivity].
    split; [exact Hv | reflexivity].
  - assert (Hk1 : k = 1 /\ Zdigits2 m1 = 54).
    { subst k. rewrite fexp_eq in *. unfold emin in *. lia. }
    destruct Hk1 as [Hk1 Hd54].
    assert (Hm1 : m1 = 2 ^ 53).
    { pose proof (Zdigits2_bounds m1 ltac:(lia)) as [Hlo _].
      rewrite Hd54 in Hlo. change (54 - 1) with 53 in Hlo. lia. }
    destruct (Hshift ltac:(lia)) as (mrs & Hsh & Hq).
    subst r. rewrite Hsh in *. rewrite Hq in *. rewrite Hk1, Hm1 in *.
    change (2 ^ 53 / 2 ^ 1) with (Zpos (Z.to_pos (2 ^ 52))) in *.
    cbv iota in *.
    destruct (e1 + 1 <=? F64.emax - F64.prec); [right | left; reflexivity].
    split; [exact Hv|]. cbn [sval]. f_equal.
    replace (e1 + 1 - emin) with (1 + (e1 - emin)) by lia.
    rewrite pow2_split by lia.
    change (Zpos (Z.to_pos (2 ^ 52))) with (2 ^ 52).
    change (2 ^ 53) with (2 ^ 52 * 2 ^ 1). ring.
Qed.

(** The quotient mantissa at the canonical exponent has 53 digits unless
    the result is subnormal, and never more. *)
Lemma quotient_digits m e :
  0 < m -> e <= fexp F64.prec F64.emax (Zdigits2 m + e) ->
  let c := fexp F64.prec F64.emax (Zdigits2 m + e) in
  let q := m / 2 ^ (c - e) in
  0 <= q < 2 ^ 53 /\ (emin < c -> 2 ^ 52 <= q).
Proof.
  intros Hm He c q. pose proof (Zdigits2_pos m Hm) as Hd.
  assert (Hc : c = Z.max (Zdigits2 m + e - 53) (-1074)) by (subst c; apply fexp_eq).
  assert (Hk : 0 <= c - e) by (subst c; lia).
  assert (Hpk : 0 < 2 ^ (c - e)) by (apply Z.pow_pos_nonneg; lia).
  destruct (Z_lt_le_dec (c - e) (Zdigits2 m)) as [Hlt|Hge].
  - pose proof (Zdigits2_div_pow2 m (c - e) Hm Hk Hlt) as Hdq. fold q in Hdq.
    pose proof (div_pow2_pos m (c - e) Hm Hk Hlt) as Hq. fold q in Hq.
    pose proof (Zdigits2_bounds q Hq) as [Hlo Hhi].
    split.
    + split; [lia|]. eapply Z.lt_le_trans; [exact Hhi|].
      apply Z.pow_le_mono_r; lia.
    + intros Hn. unfold emin in Hn.
      replace (Zdigits2 q - 1) with 52 in Hlo by lia. exact Hlo.
  - assert (Hq0 : q = 0).
    { subst q. apply Z.div_small. pose proof (Zdigits2_bounds m Hm) as [_ Hhi].
      split; [lia|]. eapply Z.lt_le_trans; [exact Hhi|].
      apply Z.pow_le_mono_r; lia. }
    rewrite Hq0. split; [lia|]. unfold emin. lia.
Qed.

(** What [binary_round_aux] returns on a positive mantissa that is not
    coarser than canonical: infinity, or the float whose mantissa at the
    canonical exponent is the quotient or, only when bits were lost, its
    successor. *)
Lemma binary_round_aux_value sx m e l :
  0 < m -> e <= fexp F64.prec F64.emax (Zdigits2 m + e) ->
  let c := fexp F64.prec F64.emax (Zdigits2 m + e) in
  let q := m / 2 ^ (c - e) in
  let r := binary_round_aux F64.prec F64.emax sx m e l in
  r = S754_infinity sx \/
  (finite_ok r /\
   exists m1, sval r = cond_Zopp sx (m1 * 2 ^ (c - emin)) /\
              (m1 = q \/
               (m1 = q + 1 /\ (l <> loc_Exact \/ m mod 2 ^ (c - e) <> 0)))).
Proof.
  intros Hm He c q r.
  destruct (quotient_digits m e Hm He) as [Hq Hnorm]. fold c q in Hq, Hnorm.
  pose proof (fexp_ge_emin (Zdigits2 m + e)) as Hce. fold c in Hce.
  assert (Hk : 0 <= c - e) by (subst c; lia).
  (* the rounded mantissa *)
  assert (Hfirst : exists mrs,
            shr_fexp F64.prec F64.emax m e l = (mrs, c) /\
            shr_m mrs = q /\
            (round_nearest_even q (loc_of_shr_record mrs) = q + 1 ->
             l <> loc_Exact \/ m mod 2 ^ (c - e) <> 0)).
  { destruct (shr_fexp_spec m e l ltac:(lia)) as [Hnone Hshift]. fold c in Hnone, Hshift.
    destruct (Z.eq_dec (c - e) 0) as [E|E].
    - exists (shr_record_of_loc m l). rewrite (Hnone ltac:(lia)).
      assert (Hqm : q = m) by (subst q; rewrite E; apply Z.div_1_r).
      split; [f_equal; lia|]. rewrite shr_record_of_loc_m.
      split; [now rewrite Hqm|]. rewrite loc_of_shr_record_of_loc.
      intros Hr. left. intros ->. cbn in Hr. lia.
    - destruct (Hshift ltac:(lia)) as (mrs & Hsh & Hmq).
      exists mrs. replace (e + (c - e)) with c in Hsh by lia.
      split; [exact Hsh|]. split; [exact Hmq|]. intros Hr.
      destruct l as [|cmp]; [|left; discriminate]. right. intros Hmod.
      assert (Hmul : m = q * 2 ^ (c - e)).
      { subst q. rewrite Z.mul_comm. apply Z.div_exact; [|exact Hmod].
        assert (0 < 2 ^ (c - e)) by (apply Z.pow_pos_nonneg; lia). lia. }
      pose proof (shr_fexp_exact q e (c - e) ltac:(lia) ltac:(lia)) as Hex.
      rewrite <- Hmul in Hex. specialize (Hex ltac:(subst c; reflexivity)).
      replace (e + (c - e)) with c in Hex by lia.
      rewrite Hex in Hsh. inversion Hsh; subst mrs. cbn in Hr. lia. }
  destruct Hfirst as (mrs & Hsh & Hmq & Hinexact).
  subst r. unfold binary_round_aux. rewrite Hsh, Hmq.
  set (m1 := round_nearest_even q (loc_of_shr_record mrs)) in *.
  assert (Hm1 : m1 = q \/ m1 = q + 1) by apply round_nearest_even_cases.
  assert (Hcases : m1 = q \/ (m1 = q + 1 /\ (l <> loc_Exact \/ m mod 2 ^ (c - e) <> 0)))
    by (destruct Hm1 as [E|E]; [left; exact E | right; split; [exact E | auto]]).
  destruct (Z.eq_dec m1 0) as [E0|E0].
  - right. rewrite E0.
    destruct (shr_fexp_spec 0 c loc_Exact ltac:(lia)) as [Hnone _].
    rewrite Hnone by (cbn [Zdigits2]; rewrite fexp_eq; unfold emin in *; lia).
    cbn [shr_record_of_loc shr_m]. split; [exact I|].
    exists m1. split; [|exact Hcases]. rewrite E0. destruct sx; reflexivity.
  - assert (Hpos : 0 < m1 <= 2 ^ 53) by lia.
    assert (Hcan : emin <= c <= fexp F64.prec F64.emax (Zdigits2 m1 + c)).
    { split; [exact Hce|]. rewrite fexp_eq.
      destruct (Z.eq_dec c emin) as [->|Hne]; [unfold emin; lia|].
      specialize (Hnorm ltac:(lia)).
      assert (53 <= Zdigits2 m1) by (apply Zdigits2_ge; [lia | change (53 - 1) with 52; lia]).
      lia. }
    destruct (renormalise_value sx m1 c Hpos Hcan) as [Hinf | [Hok Hs]];
      [left; exact Hinf | right].
    split; [exact Hok|]. exists m1. split; [exact Hs | exact Hcases].
Qed.

(** Floats lie on the grid of the canonical exponent above them: a
    float strictly above [q * 2^c] is at least [(q + 1) * 2^c]. *)
Lemma grid_succ_le q c mB eB :
  valid_binary F64.prec F64.emax (S754_finite false mB eB) = true ->
  emin <= c -> 0 <= q -> (emin < c -> 2 ^ 52 <= q) ->
  q * 2 ^ (c - emin) < Zpos mB * 2 ^ (eB - emin) ->
  (q + 1) * 2 ^ (c - emin) <= Zpos mB * 2 ^ (eB - emin).
Proof.
  intros HB Hc Hq Hnorm Hlt.
  destruct (valid_finite_inv _ _ _ HB) as (HeB & HdB & _).
  assert (Hpc : 0 < 2 ^ (c - emin)) by (apply Z.pow_pos_nonneg; lia).
  destruct (Z_le_gt_dec c eB) as [Hle|Hgt].
  - replace (eB - emin) with ((eB - c) + (c - emin)) in * by lia.
    rewrite pow2_split in * by lia.
    rewrite Z.mul_assoc in *.
    set (j := Zpos mB * 2 ^ (eB - c)) in *.
    apply Z.mul_lt_mono_pos_r in Hlt; [|exact Hpc].
    apply Z.mul_le_mono_nonneg_r; lia.
  - exfalso. specialize (Hnorm ltac:(lia)).
    pose proof (digits2_pos_bounds mB) as [_ Hhi].
    assert (HmB : Zpos mB < 2 ^ 53).
    { eapply Z.lt_le_trans; [exact Hhi|]. apply Z.pow_le_mono_r;
        unfold F64.prec in *; lia. }
    replace (c - emin) with ((c - eB) + (eB - emin)) in * by lia.
    rewrite pow2_split in * by lia.
    assert (HpB : 0 < 2 ^ (eB - emin)) by (apply Z.pow_pos_nonneg; lia).
    assert (Hstep : 2 <= 2 ^ (c - eB)).
    { change 2 with (2 ^ 1) at 1. apply Z.pow_le_mono_r; lia. }
    change (2 ^ 53) with (2 * 2 ^ 52) in HmB.
    assert (Zpos mB * 2 ^ (eB - emin) < q * 2 ^ (c - eB) * 2 ^ (eB - emin)); [|lia].
    apply Z.mul_lt_mono_pos_r; [exact HpB|]. nia.
Qed.

(** Rounding a positive value that is at most a float gives at most that
    float. *)
Lemma round_aux_le m e l B :
  0 < m -> e <= fexp F64.prec F64.emax (Zdigits2 m + e) ->
  finite_ok B -> 0 < sval B ->
  let c := fexp F64.prec F64.emax (Zdigits2 m + e) in
  let q := m / 2 ^ (c - e) in
  q * 2 ^ (c - emin) <= sval B ->
  (l <> loc_Exact \/ m mod 2 ^ (c - e) <> 0 -> q * 2 ^ (c - emin) < sval B) ->
  let r := binary_round_aux F64.prec F64.emax false m e l in
  r = S754_infinity false \/ (finite_ok r /\ 0 <= sval r <= sval B).
Proof.
  intros Hm He HB HpB c q Hle Hlt r.
  destruct (quotient_digits m e Hm He) as [Hq Hnorm]. fold c q in Hq, Hnorm.
  pose proof (fexp_ge_emin (Zdigits2 m + e)) as Hce. fold c in Hce.
  assert (Hpc : 0 < 2 ^ (c - emin)) by (apply Z.pow_pos_nonneg; lia).
  destruct (binary_round_aux_value false m e l Hm He) as [Hinf | (Hok & m1 & Hs & Hm1)];
    [left; exact Hinf | right].
  fold c q in Hs, Hm1. fold r in Hok, Hs. split; [exact Hok|].
  cbn [cond_Zopp] in Hs. rewrite Hs.
  destruct Hm1 as [-> | [-> Hin]]; [split; [nia | exact Hle]|].
  specialize (Hlt Hin). split; [nia|].
  destruct B as [sB|sB| |sB mB eB]; cbn [finite_ok] in HB; try contradiction;
    [cbn [sval] in HpB; lia|].
  pose proof (sval_sign _ _ _ HB) as Hsg. destruct sB; [lia|].
  cbn [sval cond_Zopp] in *. apply grid_succ_le; try assumption; lia.
Qed.

Lemma mul_le x y B :
  finite_ok x -> finite_ok y -> finite_ok B ->
  0 < sval x -> 0 < sval y ->
  sval x * sval y <= sval B * SC ->
  finite_ok (F64.mul x y) ->
  0 <= sval (F64.mul x y) <= sval B.
Proof.
  intros Hx Hy HB Hpx Hpy Hle Hfin. pose proof SC_pos as Hsc.
  assert (HpB : 0 < sval B) by nia.
  destruct x as [sx|sx| |sx mx ex], y as [sy|sy| |sy my ey];
    cbn [finite_ok] in Hx, Hy; try contradiction;
    try (cbn [sval] in Hpx, Hpy; lia).
  pose proof (sval_sign _ _ _ Hx) as Sx. pose proof (sval_sign _ _ _ Hy) as Sy.
  destruct sx; [lia|]. destruct sy; [lia|].
  unfold F64.mul in *. cbn [SFmul xorb] in *.
  destruct (valid_finite_inv _ _ _ Hx) as (Hex & Hdx & Hcx).
  destruct (valid_finite_inv _ _ _ Hy) as (Hey & Hdy & Hcy).
  pose proof (Zdigits2_mul (Zpos mx) (Zpos my) ltac:(lia) ltac:(lia)) as HD.
  change (Zpos mx * Zpos my) with (Zpos (mx * my)) in HD. cbn [Zdigits2] in HD.
  pose proof (Pos2Z.is_pos (digits2_pos mx)). pose proof (Pos2Z.is_pos (digits2_pos my)).
  set (m := Zpos (mx * my)) in *. set (e := ex + ey) in *.
  assert (He : e <= fexp F64.prec F64.emax (Zdigits2 m + e)).
  { subst m e. cbn [Zdigits2]. rewrite fexp_eq in *.
    unfold F64.prec, emin in *. lia. }
  set (c := fexp F64.prec F64.emax (Zdigits2 m + e)) in *.
  set (q := m / 2 ^ (c - e)).
  pose proof (fexp_ge_emin (Zdigits2 m + e)) as Hce. fold c in Hce.
  assert (Hk : 0 < 2 ^ (c - e)) by (apply Z.pow_pos_nonneg; lia).
  pose proof (Z.div_mod m (2 ^ (c - e)) ltac:(lia)) as Hdm. fold q in Hdm.
  pose proof (Z.mod_pos_bound m (2 ^ (c - e)) Hk) as Hmod.
  (* everything in units of 2^(2 emin) *)
  assert (Hprod : sval (S754_finite false mx ex) * sval (S754_finite false my ey)
                  = m * 2 ^ (e - emin - emin)).
  { cbn [sval cond_Zopp]. subst m e.
    replace (ex + ey - emin - emin) with ((ex - emin) + (ey - emin)) by lia.
    rewrite pow2_split by lia. rewrite Pos2Z.inj_mul. ring. }
  assert (Hq2 : q * 2 ^ (c - emin) * SC = q * 2 ^ (c - e) * 2 ^ (e - emin - emin)).
  { unfold SC. rewrite <- !Z.mul_assoc, <- !pow2_split by (unfold emin in *; subst e; lia).
    f_equal. f_equal. lia. }
  assert (Hpe : 0 < 2 ^ (e - emin - emin)) by (apply Z.pow_pos_nonneg; subst e; lia).
  destruct (round_aux_le m e loc_Exact B ltac:(subst m; lia) He HB HpB) as [Hinf|[_ Hr]].
  - fold c q. apply Z.mul_le_mono_pos_r with (p := SC); [exact Hsc|].
    rewrite Hq2. rewrite Hprod in Hle. nia.
  - fold c q. intros [Hc|Hm]; [congruence|].
    apply Z.mul_lt_mono_pos_r with (p := SC); [exact Hsc|].
    rewrite Hq2. rewrite Hprod in Hle. nia.
  - rewrite Hinf in Hfin. contradiction.
  - exact Hr.
Qed.

Lemma binary_round_le p e B :
  emin <= e -> finite_ok B ->
  Zpos p * 2 ^ (e - emin) <= sval B ->
  let r := binary_round F64.prec F64.emax false p e in
  r = S754_infinity false \/ (finite_ok r /\ 0 <= sval r <= sval B).
Proof.
  intros He HB Hle r. subst r. unfold binary_round.
  assert (HpB : 0 < sval B).
  { pose proof (sval_pos_finite p e He). lia. }
  set (c0 := fexp F64.prec F64.emax (Zpos (digits2_pos p) + e)).
  pose proof (fexp_ge_emin (Zpos (digits2_pos p) + e)) as Hc0. fold c0 in Hc0.
  pose proof (shl_align_spec p e c0) as Hs.
  destruct (shl_align p e c0) as [mz ez] eqn:Hal. destruct Hs as [Hlt Hge].
  assert (Hfacts : Zdigits2 (Zpos mz) + ez = Zpos (digits2_pos p) + e /\
                   emin <= ez <= c0 /\
                   Zpos mz * 2 ^ (ez - emin) = Zpos p * 2 ^ (e - emin)).
  { destruct (Z_lt_le_dec c0 e) as [Hc|Hc].
    - destruct (Hlt Hc) as [Hm ->]. rewrite Hm.
      rewrite Zdigits2_mul_pow2 by lia. cbn [Zdigits2].
      split; [lia|]. split; [lia|].
      rewrite <- Z.mul_assoc, <- pow2_split by lia. f_equal. f_equal. lia.
    - destruct (Hge Hc) as [-> ->]. cbn [Zdigits2]. repeat split; lia. }
  destruct Hfacts as (Hmag & Hez & Hval).
  assert (Hcan : ez <= fexp F64.prec F64.emax (Zdigits2 (Zpos mz) + ez))
    by (rewrite Hmag; fold c0; lia).
  apply round_aux_le; try assumption; try lia; rewrite Hmag; fold c0.
  - set (q := Zpos mz / 2 ^ (c0 - ez)).
    assert (Hk : 0 < 2 ^ (c0 - ez)) by (apply Z.pow_pos_nonneg; lia).
    pose proof (Z.div_mod (Zpos mz) (2 ^ (c0 - ez)) ltac:(lia)) as Hdm. fold q in Hdm.
    pose proof (Z.mod_pos_bound (Zpos mz) (2 ^ (c0 - ez)) Hk) as Hmod.
    replace (c0 - emin) with ((c0 - ez) + (ez - emin)) by lia.
    rewrite pow2_split by lia.
    assert (0 < 2 ^ (ez - emin)) by (apply Z.pow_pos_nonneg; lia). nia.
  - intros [Hc|Hm]; [congruence|].
    set (q := Zpos mz / 2 ^ (c0 - ez)) in *.
    assert (Hk : 0 < 2 ^ (c0 - ez)) by (apply Z.pow_pos_nonneg; lia).
    pose proof (Z.div_mod (Zpos mz) (2 ^ (c0 - ez)) ltac:(lia)) as Hdm. fold q in Hdm.
    pose proof (Z.mod_pos_bound (Zpos mz) (2 ^ (c0 - ez)) Hk) as Hmod.
    replace (c0 - emin) with ((c0 - ez) + (ez - emin)) by lia.
    rewrite pow2_split by lia.
    assert (0 < 2 ^ (ez - emin)) by (apply Z.pow_pos_nonneg; lia). nia.
Qed.

Lemma sub_le x y B :
  finite_ok x -> finite_ok y -> finite_ok B ->
  0 < sval x - sval y <= sval B ->
  finite_ok (F64.sub x y) ->
  0 <= sval (F64.sub x y) <= sval B.
Proof.
  intros Hx Hy HB Hle Hfin. unfold F64.sub in *.
  destruct x as [sx|sx| |sx mx ex], y as [sy|sy| |sy my ey];
    cbn [finite_ok] in Hx, Hy; try contradiction.
  - cbn [sval] in Hle. lia.
  - cbn [SFsub] in *. change (sval (S754_zero sx)) with 0 in Hle.
    cbn [sval] in *. destruct sy; cbn [negb cond_Zopp] in *; lia.
  - cbn [SFsub] in *. change (sval (S754_zero sy)) with 0 in Hle. lia.
  - pose proof (finite_exp_ge _ _ _ Hx) as Hex.
    pose proof (finite_exp_ge _ _ _ Hy) as Hey.
    cbn [SFsub] in *. set (ez := Z.min ex ey) in *.
    set (S := cond_Zopp sx (Zpos (fst (shl_align mx ex ez)))
              - cond_Zopp sy (Zpos (fst (shl_align my ey ez)))) in *.
    assert (HS : sval (S754_finite sx mx ex) - sval (S754_finite sy my ey)
                 = S * 2 ^ (ez - emin)).
    { subst S. cbn [sval]. rewrite Z.mul_sub_distr_r, !cond_Zopp_mul.
      rewrite !shl_align_value by (subst ez; lia). reflexivity. }
    rewrite HS in Hle.
    assert (Hpw : 0 < 2 ^ (ez - emin)) by (apply Z.pow_pos_nonneg; subst ez; lia).
    destruct S as [|p|p]; try nia.
    unfold binary_normalize in *.
    destruct (binary_round_le p ez B ltac:(subst ez; lia) HB ltac:(lia)) as [Hinf|[_ Hr]].
    + rewrite Hinf in Hfin. contradiction.
    + exact Hr.
Qed.

(** * The ECN response never grows the window *)

Lemma to_int_max_le X m w :
  finite_ok X -> sval X <= w * SC -> 0 <= m <= w -> w < 2 ^ 53 ->
  F64.to_int (F64.max X (F64.of_int m)) <= w.
Proof.
  intros HX Hle Hm Hw. pose proof SC_pos as Hsc.
  destruct (of_int_exact m ltac:(lia)) as [Hom Hsm].
  destruct (max_sval X (F64.of_int m) HX Hom) as [Hok Hs].
  assert (Hr : m * SC <= sval (F64.max X (F64.of_int m)) <= w * SC).
  { rewrite Hs, Hsm. split; [lia|]. apply Z.max_lub; [exact Hle|].
    apply Z.mul_le_mono_nonneg_r; lia. }
  rewrite to_int_sval by (try assumption; unfold Int64.min_int, Int64.max_int; nia).
  rewrite Z.quot_div_nonneg by nia.
  apply Z.div_le_upper_bound; lia.
Qed.

Lemma reductionFactor_le_one a :
  alpha_ok a -> sval (F64.sub F64.one (F64.div a F64.two)) <= SC.
Proof.
  intros Ha. destruct (reductionFactor_ok a Ha) as [HoB HlB].
  pose proof (alpha_ok_lmag a Ha) as Hla. destruct Ha as [Hoa [Ha0 Ha1]].
  destruct one_ok as [Ho1 Hs1]. pose proof SC_pos as Hsc.
  assert (H2 : finite_ok F64.two /\ 0 < sval F64.two /\ 1076 <= lmag F64.two)
    by (vm_compute; repeat split; discriminate).
  destruct H2 as (Ho2 & Hp2 & Hl2).
  pose proof (div_mag a F64.two 1075 1076 Hoa Ho2 ltac:(lia) Hla Hl2
                ltac:(unfold F64.emax; lia)) as (Hoh & Hph & _ & Hlh).
  specialize (Hph ltac:(nia)). unfold emin in Hlh.
  assert (Hl1 : lmag F64.one <= 1075) by (vm_compute; discriminate).
  pose proof (sub_mag F64.one _ 1075 1075 Ho1 Hoh Hl1 ltac:(lia)
                ltac:(unfold F64.emax, emin; lia)) as (_ & _ & Hneg & _).
  destruct (Z_le_gt_dec (sval F64.one - sval (F64.div a F64.two)) 0) as [Hle|Hgt].
  - specialize (Hneg Hle). lia.
  - pose proof (sub_le F64.one (F64.div a F64.two) F64.one Ho1 Hoh Ho1
                  ltac:(lia) HoB) as [_ Hub].
    lia.
Qed.

Lemma applyECN_no_growth p :
  alpha_ok (alpha p) -> carry_ok (cwndCarry p) ->
  0 < maxDatagramSize p < 2 ^ 16 ->
  2 * maxDatagramSize p <= congestionWindow p < 2 ^ 53 ->
  congestionWindow (applyECNCongestionResponse p) <= congestionWindow p.
Proof.
  intros Ha Hc Hm Hw. pose proof SC_pos as Hsc.
  unfold applyECNCongestionResponse.
  destruct (F64.leb (alpha p) F64.zero); [lia|].
  cbv zeta. get_set.
  destruct (reductionFactor_ok (alpha p) Ha) as [HoB HlB].
  pose proof (reductionFactor_le_one (alpha p) Ha) as HB1.
  set (B := F64.sub F64.one (F64.div (alpha p) F64.two)) in *.
  destruct (of_int_exact (congestionWindow p) ltac:(lia)) as [HoA HsA].
  set (A := F64.of_int (congestionWindow p)) in *.
  assert (HlA : lmag A <= 1127).
  { apply lmag_le; [lia|]. rewrite HsA.
    assert (E : 2 ^ 1127 = 2 ^ 53 * SC)
      by (unfold SC, emin; rewrite <- Z.pow_add_r by lia; reflexivity).
    rewrite E. nia. }
  pose proof (mul_mag A B 1127 1077 HoA HoB HlA HlB
                ltac:(unfold F64.emax, emin; lia)) as (HoN & _ & HnN & HlN).
  unfold emin in HlN.
  assert (HN : sval (F64.mul A B) <= sval A).
  { assert (HA0 : 0 <= sval A) by (rewrite HsA; apply Z.mul_nonneg_nonneg; lia).
    destruct (Z_le_gt_dec (sval A * sval B) 0) as [Hle|Hgt].
    - specialize (HnN Hle). lia.
    - assert (HpA : 0 < sval A)
        by (destruct (Z.eq_dec (sval A) 0) as [E|E]; [rewrite E in Hgt; lia | lia]).
      assert (HpB : 0 < sval B).
      { destruct (Z_le_gt_dec (sval B) 0); [|lia].
        assert (sval A * sval B <= 0) by (apply Z.mul_nonneg_nonpos; lia). lia. }
      pose proof (mul_le A B A HoA HoB HoA HpA HpB
                    ltac:(apply Z.mul_le_mono_nonneg_l; lia) HoN). lia. }
  set (N0 := F64.mul A B) in *.
  pose proof (sub_mag A N0 1127 1131 HoA HoN HlA ltac:(lia)
                ltac:(unfold F64.emax, emin; lia)) as (HoD & _ & _ & HlD).
  set (D := F64.sub A N0) in *.
  assert (Hmin : minCongestionWindow p = 2 * maxDatagramSize p)
    by (apply minCongestionWindow_small; unfold Int64.min_int, Int64.max_int; lia).
  assert (Hfl : forall X, finite_ok X -> sval X <= sval A ->
                F64.to_int (F64.max X (F64.of_int (2 * maxDatagramSize p)))
                <= congestionWindow p).
  { intros X HX HXA. apply to_int_max_le; try assumption; lia. }
  destruct (carry_add (cwndCarry p) D Hc HoD ltac:(lia)) as [Hcn | [Hcn | Hcn]];
    set (cn := F64.add (cwndCarry p) D) in *.
  - rewrite Hcn. change (F64.leb F64.one (S754_infinity true)) with false.
    cbv beta iota. unfold minCongestionWindow at 1. get_set.
    fold (minCongestionWindow p). rewrite Hmin.
    destruct (inSlowStart _); get_set; apply Hfl; assumption.
  - destruct Hcn as [Hocn Hscn]. destruct one_ok as [Ho1 Hs1].
    rewrite (leb_sval F64.one cn Ho1 Hocn), Hs1.
    destruct (Z.leb_spec SC (sval cn)) as [Hge|_]; [lia|].
    cbv beta iota. unfold minCongestionWindow at 1. get_set.
    fold (minCongestionWindow p). rewrite Hmin.
    destruct (inSlowStart _); get_set; apply Hfl; assumption.
  - destruct Hcn as (Hocn & Hscn & Hlcn). destruct one_ok as [Ho1 Hs1].
    rewrite (leb_sval F64.one cn Ho1 Hocn), Hs1.
    destruct (Z.leb_spec SC (sval cn)) as [Hge|Hlt].
    + destruct (carry_reduce cn Hocn Hge Hlcn) as (Hred & Hor & Hlr & Hcr).
      pose proof (sub_mag N0 _ 1131 1135 HoN Hor ltac:(lia) Hlr
                    ltac:(unfold F64.emax, emin; lia)) as (HoX & _ & HnX & HlX).
      pose proof (of_int_mag (F64.to_int cn) 61 ltac:(lia)
                    ltac:(unfold F64.emax; lia)) as (_ & Hsr & _).
      specialize (Hsr ltac:(lia)).
      assert (HXA : sval (F64.sub N0 (F64.of_int (F64.to_int cn))) <= sval A).
      { destruct (Z_le_gt_dec (sval N0 - sval (F64.of_int (F64.to_int cn))) 0)
          as [Hle|Hgt].
        - specialize (HnX Hle).
          assert (0 <= sval A) by (rewrite HsA; apply Z.mul_nonneg_nonneg; lia). lia.
        - pose proof (sub_le N0 _ A HoN Hor HoA ltac:(lia) HoX). lia. }
      cbv beta iota. unfold minCongestionWindow at 1. get_set.
      fold (minCongestionWindow p). rewrite Hmin.
      destruct (inSlowStart _); get_set; apply Hfl; assumption.
    + cbv beta iota. unfold minCongestionWindow at 1. get_set.
      fold (minCongestionWindow p). rewrite Hmin.
      destruct (inSlowStart _); get_set; apply Hfl; assumption.
Qed.

(** X18: the ECN response only ever moves the window down.  On every
    sender reached from a fresh one by calls in their working ranges
    (those of [calls_ok]) and with a window below 2^53 bytes, ECN feedback,
    whatever it reports, leaves a window that is no larger than before and
    still holds two datagrams. *)
Theorem X18_ecn_feedback_never_grows_the_window :
  forall K mds l4s cs p x,
    0 < mds < 2 ^ 16 ->
    calls_ok K (newPragueSender K mds l4s) cs ->
    run K (newPragueSender K mds l4s) cs = Some p ->
    congestionWindow p < 2 ^ 53 ->
    2 * maxDatagramSize p <= congestionWindow (OnECNFeedback p x) /\
    congestionWindow (OnECNFeedback p x) <= congestionWindow p.
Proof.
  intros K mds l4s cs p x Hm Hok Hrun Hw.
  pose proof (run_floor_ok K cs _ p (newPragueSender_floor_ok K mds l4s Hm) Hok Hrun)
    as Hp.
  destruct (OnECNFeedback_floor p x Hp Hw) as (_ & Hfl & _).
  split; [exact Hfl|].
  destruct Hp as (Hs & Hmd & Hf & Hc). pose proof Hs as (Ha & Hg & He & Ht).
  unfold OnECNFeedback.
  destruct (negb (l4sEnabled p)); [lia|]. cbv zeta.
  set (q := set_ecnMarkedBytes p (Int64.add (ecnMarkedBytes p) x)).
  assert (Hq : sample_ok q).
  { unfold sample_ok, q. get_set.
    split; [exact Ha|split; [exact Hg|split; [apply int64_ok_add|exact Ht]]]. }
  destruct (Z.ltb_spec 0 (totalAckedBytes q)) as [Hpos|_];
    [|unfold q; get_set; lia].
  get_set.
  assert (Hcq : congestionWindow (updateAlpha q) = congestionWindow p)
    by (rewrite updateAlpha_congestionWindow; reflexivity).
  assert (Hmq : maxDatagramSize (updateAlpha q) = maxDatagramSize p)
    by (rewrite updateAlpha_maxDatagramSize; reflexivity).
  apply Z.le_trans with (congestionWindow (updateAlpha q)); [|lia].
  apply applyECN_no_growth.
  - now apply updateAlpha_alpha_ok.
  - rewrite updateAlpha_cwndCarry. exact Hc.
  - rewrite Hmq. exact Hmd.
  - rewrite Hmq, Hcq. lia.
Qed.

Lemma X18_ecn_feedback_never_grows_the_window_witness :
  2 * maxDatagramSize acked12000 <= congestionWindow (OnECNFeedback acked12000 2400) /\
  congestionWindow (OnECNFeedback acked12000 2400) <= congestionWindow acked12000.
Proof.
  refine (X18_ecn_feedback_never_grows_the_window quicgo_protocol 1200 true
            [CallPacketAcked 1 12000 0 0] _ 2400 _ _ eq_refl _).
  - lia.
  - vm_compute. intuition (try reflexivity; try discriminate).
  - vm_compute. reflexivity.
Defined.

(** ** The send loop of the test harness *)







(** ** Acknowledgements and losses through the test harness *)

Lemma ackLoop_slow_start n : forall D s,
  0 <= D ->
  inSlowStart (Harness.sender s) = true ->
  inRecovery (Harness.sender s) = false ->
  F64.ltb F64.zero (alpha (Harness.sender s)) = false ->
  Int64.min_int <= congestionWindow (Harness.sender s) ->
  congestionWindow (Harness.sender s) + Z.of_nat n * D
    < slowStartThreshold (Harness.sender s) ->
  slowStartThreshold (Harness.sender s) <= Int64.max_int ->
  Int64.min_int <= totalAckedBytes (Harness.sender s) ->
  totalAckedBytes (Harness.sender s) + Z.of_nat n * D <= Int64.max_int ->
  Int64.min_int <= Harness.ackedPacketNumber s ->
  Harness.ackedPacketNumber s + Z.of_nat n <= Int64.max_int ->
  let s' := Harness.ackLoop n D s in
  congestionWindow (Harness.sender s')
    = congestionWindow (Harness.sender s) + Z.of_nat n * D /\
  inSlowStart (Harness.sender s') = true /\
  inRecovery (Harness.sender s') = false /\
  alpha (Harness.sender s') = alpha (Harness.sender s) /\
  slowStartThreshold (Harness.sender s') = slowStartThreshold (Harness.sender s) /\
  totalAckedBytes (Harness.sender s')
    = totalAckedBytes (Harness.sender s) + Z.of_nat n * D /\
  largestAckedPacketNumber (Harness.sender s')
    = (if (n =? 0)%nat then largestAckedPacketNumber (Harness.sender s)
       else Z.max (largestAckedPacketNumber (Harness.sender s))
                  (Harness.ackedPacketNumber s + Z.of_nat n)) /\
  Harness.ackedPacketNumber s' = Harness.ackedPacketNumber s + Z.of_nat n /\
  Harness.bytesInFlight s' = Harness.bytesInFlight s /\
  Harness.packetNumber s' = Harness.packetNumber s.
Proof.
  induction n as [|n IH];
    intros D s HD Hss Hrec Ha Hc Hth Hmax Ht Htm Hk Hkm; cbv zeta.
  - cbn [Harness.ackLoop Nat.eqb]. change (Z.of_nat 0) with 0.
    repeat split; try assumption; try reflexivity; lia.
  - cbn [Harness.ackLoop]. cbv zeta.
    rewrite Nat2Z.inj_succ in *.
    assert (Hn : 0 <= Z.of_nat n * D)
      by (apply Z.mul_nonneg_nonneg; lia).
    replace (Z.succ (Z.of_nat n) * D) with (Z.of_nat n * D + D) in * by lia.
    set (p := Harness.sender s) in *.
    set (k := Int64.add (Harness.ackedPacketNumber s) 1).
    assert (Ek : k = Harness.ackedPacketNumber s + 1)
      by (unfold k, Int64.add; apply wrap_small;
          unfold Int64.min_int, Int64.max_int in *; lia).
    assert (Hstep :
      let q := OnPacketAcked p k D (Harness.bytesInFlight s) 0 in
      congestionWindow q = congestionWindow p + D /\
      inSlowStart q = true /\ inRecovery q = false /\
      alpha q = alpha p /\ slowStartThreshold q = slowStartThreshold p /\
      totalAckedBytes q = totalAckedBytes p + D /\
      largestAckedPacketNumber q = Z.max (largestAckedPacketNumber p) k).
    { cbv zeta. unfold OnPacketAcked. cbv zeta.
      assert (E1 : Int64.add (totalAckedBytes p) D = totalAckedBytes p + D)
        by (unfold Int64.add; apply wrap_small;
            unfold Int64.min_int, Int64.max_int in *; lia).
      assert (E2 : Int64.add (congestionWindow p) D = congestionWindow p + D)
        by (unfold Int64.add; apply wrap_small;
            unfold Int64.min_int, Int64.max_int in *; lia).
      destruct (largestAckedPacketNumber p <? k) eqn:El;
        [apply Z.ltb_lt in El | apply Z.ltb_ge in El];
        get_set; rewrite Hrec, Hss; cbn [andb]; cbv iota;
        unfold MaybeExitSlowStart; get_set; rewrite Hss, Ha, E1, E2;
        cbn [andb orb];
        (destruct (slowStartThreshold p <=? congestionWindow p + D) eqn:Es;
         [apply Z.leb_le in Es; lia|]);
        cbv iota; get_set; repeat split; try assumption; try reflexivity; lia. }
    cbv zeta in Hstep.
    destruct Hstep as (Hq1 & Hq2 & Hq3 & Hq4 & Hq5 & Hq6 & Hq7).
    match goal with
    | |- context [Harness.ackLoop n D ?s1] => set (s1' := s1)
    end.
    destruct (IH D s1') as (I1 & I2 & I3 & I4 & I5 & I6 & I7 & I8 & I9 & I10);
      subst s1';
      cbn [Harness.sender Harness.bytesInFlight Harness.packetNumber
           Harness.ackedPacketNumber] in *;
      rewrite ?Hq1, ?Hq2, ?Hq3, ?Hq4, ?Hq5, ?Hq6, ?Hq7 in *;
      try assumption; try lia.
    rewrite I1, I2, I3, I4, I5, I6, I7, I8, I9, I10.
    repeat split; try lia.
    cbn [Nat.eqb]. destruct (n =? 0)%nat eqn:En.
    + apply Nat.eqb_eq in En. subst n. cbn. lia.
    + apply Nat.eqb_neq in En. lia.
Qed.

(** X20: acknowledgements in slow start, through the harness.  While the
    sender is in slow start, outside recovery, with no mark seen yet and
    with the window staying below the slow-start threshold, acknowledging
    [n] packets of [D] bytes grows the window by exactly [n * D] bytes and
    leaves the sender in slow start; the sample window counts the same
    [n * D] bytes, the largest acknowledged packet number covers the last
    packet acknowledged, and the harness takes [n * D] bytes out of
    flight. *)
Theorem X20_acks_in_slow_start :
  forall D s n,
    0 <= n -> 0 <= D ->
    inSlowStart (Harness.sender s) = true ->
    inRecovery (Harness.sender s) = false ->
    F64.ltb F64.zero (alpha (Harness.sender s)) = false ->
    0 <= congestionWindow (Harness.sender s) ->
    congestionWindow (Harness.sender s) + n * D
      < slowStartThreshold (Harness.sender s) ->
    slowStartThreshold (Harness.sender s) <= Int64.max_int ->
    Int64.min_int <= totalAckedBytes (Harness.sender s) ->
    totalAckedBytes (Harness.sender s) + n * D <= Int64.max_int ->
    Int64.min_int <= Harness.ackedPacketNumber s ->
    Harness.ackedPacketNumber s + n <= Int64.max_int ->
    Int64.min_int <= Harness.bytesInFlight s - n * D ->
    Harness.bytesInFlight s <= Int64.max_int ->
    let s' := Harness.AckNPackets D s n in
    congestionWindow (Harness.sender s')
      = congestionWindow (Harness.sender s) + n * D /\
    inSlowStart (Harness.sender s') = true /\
    inRecovery (Harness.sender s') = false /\
    totalAckedBytes (Harness.sender s')
      = totalAckedBytes (Harness.sender s) + n * D /\
    largestAckedPacketNumber (Harness.sender s')
      = (if n =? 0 then largestAckedPacketNumber (Harness.sender s)
         else Z.max (largestAckedPacketNumber (Harness.sender s))
                    (Harness.ackedPacketNumber s + n)) /\
    Harness.ackedPacketNumber s' = Harness.ackedPacketNumber s + n /\
    Harness.bytesInFlight s' = Harness.bytesInFlight s - n * D /\
    Harness.packetNumber s' = Harness.packetNumber s.
Proof.
  intros D s n Hn HD Hss Hrec Ha Hc Hth Hmax Ht Htm Hk Hkm Hb Hbm.
  assert (En : Z.of_nat (Z.to_nat n) = n) by (apply Z2Nat.id; exact Hn).
  assert (HnD : 0 <= n * D) by (apply Z.mul_nonneg_nonneg; lia).
  pose proof (ackLoop_slow_start (Z.to_nat n) D s HD Hss Hrec Ha
                ltac:(unfold Int64.min_int; lia)) as H.
  rewrite En in H.
  specialize (H Hth Hmax Ht Htm Hk Hkm). cbv zeta in H.
  destruct H as (I1 & I2 & I3 & _ & _ & I6 & I7 & I8 & I9 & I10).
  cbv zeta. unfold Harness.AckNPackets, Harness.AckNPacketsWithECN.
  cbv zeta. change (0 <? 0) with false. cbv iota.
  cbn [Harness.sender Harness.bytesInFlight Harness.packetNumber
       Harness.ackedPacketNumber].
  rewrite I1, I2, I3, I6, I7, I8, I9, I10.
  assert (Em : Int64.mul n D = n * D)
    by (unfold Int64.mul; apply wrap_small;
        unfold Int64.min_int, Int64.max_int in *; lia).
  rewrite Em, wrap_small by (unfold Int64.min_int, Int64.max_int in *; lia).
  repeat split.
  destruct (Z.eqb_spec n 0) as [E0|E0].
  - subst n. reflexivity.
  - destruct (Nat.eqb_spec (Z.to_nat n) 0) as [E1|E1]; [lia|reflexivity].
Qed.

(** The fresh harness after two acknowledgements of 1200 bytes. *)
Lemma X20_acks_in_slow_start_witness :
  let s' := Harness.AckNPackets 1200
              (Harness.newTestPragueSender quicgo_protocol 1200 true) 2 in
  congestionWindow (Harness.sender s') = 40800 /\
  inSlowStart (Harness.sender s') = true /\
  totalAckedBytes (Harness.sender s') = 2400 /\
  largestAckedPacketNumber (Harness.sender s') = 2 /\
  Harness.ackedPacketNumber s' = 2 /\
  Harness.bytesInFlight s' = -2400.
Proof.
  destruct (X20_acks_in_slow_start 1200
              (Harness.newTestPragueSender quicgo_protocol 1200 true) 2)
    as (H1 & H2 & _ & H4 & H5 & H6 & H7 & _);
    try (vm_compute; congruence); try reflexivity.
  cbv zeta. rewrite H1, H2, H4, H5, H6, H7.
  vm_compute. repeat split.
Defined.



